(** * Normalisation stage of the relay-protection pipeline (parsers/normalize.py)

    A shallow embedding of the NORMALIZE phase: the tree handed over by the
    XML loader is a Python value ([pyval]); every [normalize_*] function is a
    Rocq function over that tree, exceptions are results ([res]) and the
    module-level [_ID_COUNTERS] dictionary is threaded as explicit state ([M]).
    The node lookup of the EXTRACT phase (parsers/extract.py) and the load
    order and conflict keys of the LOAD phase (parsers/load.py) are embedded
    beside it.

    Strings are byte strings (UTF-8, as the source file is); the models of
    Python's built-ins ([str.strip], [str.lower], [float], [repr],
    [json.dumps]) treat bytes above 127 as opaque printable characters. *)

From Stdlib Require Import ZArith List String Ascii Bool Lia Floats DecimalString
  Permutation FinFun DecimalN.
Import ListNotations.
Local Open Scope string_scope.
Local Open Scope Z_scope.
#[local] Set Warnings "-register-all".

(* ================================================================== *)
(** ** Python values *)
(* ================================================================== *)

(** The nested-map tree: [dict] keeps insertion order, so it is an
    association list (keys of a well-formed dict are pairwise distinct). *)
Inductive pyval : Type :=
| PNone
| PBool (b : bool)
| PInt (z : Z)
| PFloat (f : float)
| PStr (s : string)
| PList (l : list pyval)
| PDict (d : list (string * pyval)).

Inductive exn : Type :=
| AttributeError
| TypeError
| KeyError
| OverflowError
| SystemExit.

(** Result of a Python call: a value or a raised exception. *)
Inductive res (A : Type) : Type :=
| Ok (a : A)
| Raise (e : exn).
Arguments Ok {A} a.
Arguments Raise {A} e.

Definition rbind {A B} (r : res A) (k : A -> res B) : res B :=
  match r with
  | Ok a => k a
  | Raise e => Raise e
  end.

Declare Scope res_scope.
Delimit Scope res_scope with res.
Notation "x <- r ;; k" := (rbind r (fun x => k))
  (at level 61, r at next level, right associativity) : res_scope.

(* ------------------------------------------------------------------ *)
(** *** Strings *)

Definition is_space (c : ascii) : bool :=
  let n := nat_of_ascii c in
  ((9 <=? n) && (n <=? 13) || (28 <=? n) && (n <=? 32))%nat.

Fixpoint lstrip_ws (s : string) : string :=
  match s with
  | String c r => if is_space c then lstrip_ws r else s
  | EmptyString => EmptyString
  end.

Fixpoint rev_string_aux (s acc : string) : string :=
  match s with
  | EmptyString => acc
  | String c r => rev_string_aux r (String c acc)
  end.

Definition rev_string (s : string) : string := rev_string_aux s EmptyString.

(** [str.strip()] *)
Definition strip (s : string) : string :=
  rev_string (lstrip_ws (rev_string (lstrip_ws s))).

Definition lower_ascii (c : ascii) : ascii :=
  let n := nat_of_ascii c in
  if ((65 <=? n) && (n <=? 90))%nat then ascii_of_nat (n + 32) else c.

(** [str.lower()]: ASCII letters, and the Kelvin sign U+212A (bytes E2 84 AA),
    the only other character whose lower case is an ASCII letter. *)
Fixpoint lower (s : string) : string :=
  match s with
  | String c1 (String c2 (String c3 r as r2) as r1) =>
      if ((nat_of_ascii c1 =? 226) && (nat_of_ascii c2 =? 132)
          && (nat_of_ascii c3 =? 170))%nat
      then String "k" (lower r)
      else String (lower_ascii c1) (lower r1)
  | String c r => String (lower_ascii c) (lower r)
  | EmptyString => EmptyString
  end.

(** [s.startswith(p)] *)
Definition startswith (p s : string) : bool := String.prefix p s.

(** [s.lstrip("@")] *)
Fixpoint lstrip_at (s : string) : string :=
  match s with
  | String c r => if Ascii.eqb c "@" then lstrip_at r else s
  | EmptyString => EmptyString
  end.

(** [x in {...}] for a set of string literals *)
Definition str_in (x : string) (l : list string) : bool :=
  existsb (String.eqb x) l.

Fixpoint join (sep : string) (l : list string) : string :=
  match l with
  | [] => ""
  | [x] => x
  | x :: r => x ++ sep ++ join sep r
  end.

Fixpoint repeat_char (c : ascii) (n : nat) : string :=
  match n with
  | O => ""
  | S k => String c (repeat_char c k)
  end.

(** Decimal digits of a non-negative integer. *)
Definition dec_of_Z (z : Z) : string :=
  NilZero.string_of_uint (N.to_uint (Z.to_N z)).

(** [str(int)] *)
Definition str_of_int (z : Z) : string :=
  if z <? 0 then "-" ++ dec_of_Z (- z) else dec_of_Z z.

(** [f"{idx:0Wd}"] for a non-negative index. *)
Definition fmt_d (width : nat) (idx : nat) : string :=
  let s := dec_of_Z (Z.of_nat idx) in
  repeat_char "0" (width - String.length s) ++ s.

(* ------------------------------------------------------------------ *)
(** *** Floats (IEEE 754 binary64, as CPython's [float]) *)

(** The binary64 number nearest to the positive rational [n / d]
    (ties to even); [infinity] beyond the largest finite number. *)
Definition round_pos_rat (n d : Z) : float :=
  let l := Z.log2 n - Z.log2 d in
  let e0 := l - 53 in
  let e1 := if 2 ^ 53 * (d * 2 ^ Z.max e0 0) <=? n * 2 ^ Z.max (- e0) 0
            then e0 + 1 else e0 in
  let e := Z.max e1 (-1074) in
  let num := n * 2 ^ Z.max (- e) 0 in
  let den := d * 2 ^ Z.max e 0 in
  let q := num / den in
  let r := num mod den in
  let q' := if (den <? 2 * r) || ((den =? 2 * r) && Z.odd q) then q + 1 else q in
  if (971 <? e) || ((e =? 971) && (2 ^ 53 <=? q')) then infinity
  else Z.ldexp (PrimFloat.of_uint63 (Uint63.of_Z q')) e.

(** The float nearest to [m * 10^k] for [m >= 0]. *)
Definition float_of_decimal (m k : Z) : float :=
  if m =? 0 then 0%float
  else
    let nd := Z.of_nat (String.length (dec_of_Z m)) in
    if 310 <? k + nd then infinity
    else if k + nd <? -330 then 0%float
    else if 0 <=? k then round_pos_rat (m * 10 ^ k) 1
    else round_pos_rat m (10 ^ (- k)).

(** [float(i)] for an [int]: raises [OverflowError] beyond the float range. *)
Definition float_of_int (z : Z) : res float :=
  if z =? 0 then Ok 0%float
  else
    let f := round_pos_rat (Z.abs z) 1 in
    if PrimFloat.eqb f infinity then Raise OverflowError
    else Ok (if z <? 0 then PrimFloat.opp f else f).

Definition is_digit (c : ascii) : bool :=
  let n := nat_of_ascii c in ((48 <=? n) && (n <=? 57))%nat.

Definition digit_val (c : ascii) : Z := Z.of_nat (nat_of_ascii c) - 48.

(** A digit part [digit (["_"] digit)*]: its value, its number of digits
    and the rest of the input. *)
Fixpoint digits_tail (s : string) (acc : Z) (cnt : Z) : Z * Z * string :=
  match s with
  | String c r =>
      if is_digit c then digits_tail r (10 * acc + digit_val c) (cnt + 1)
      else if Ascii.eqb c "_" then
        match r with
        | String c' r' =>
            if is_digit c' then digits_tail r' (10 * acc + digit_val c') (cnt + 1)
            else (acc, cnt, s)
        | EmptyString => (acc, cnt, s)
        end
      else (acc, cnt, s)
  | EmptyString => (acc, cnt, s)
  end.

Definition digit_part (s : string) (acc : Z) : option (Z * Z * string) :=
  match s with
  | String c r => if is_digit c then Some (digits_tail r (10 * acc + digit_val c) 1)
                  else None
  | EmptyString => None
  end.

Definition parse_sign (s : string) : bool * string :=
  match s with
  | String "-" r => (true, r)
  | String "+" r => (false, r)
  | _ => (false, s)
  end.

(** The optional exponent of a float literal; [None] when the input is
    not exactly an exponent (or empty). *)
Definition parse_exponent (s : string) : option Z :=
  match s with
  | EmptyString => Some 0
  | String c r =>
      if Ascii.eqb (lower_ascii c) "e" then
        let '(neg, r1) := parse_sign r in
        match digit_part r1 0 with
        | Some (v, _, EmptyString) => Some (if neg then - v else v)
        | _ => None
        end
      else None
  end.

(** The unsigned decimal literal of [float(str)]: mantissa and exponent. *)
Definition parse_decimal (s : string) : option (Z * Z) :=
  match digit_part s 0 with
  | Some (ip, _, String "." r) =>
      match digit_part r ip with
      | Some (m, nfrac, r') =>
          match parse_exponent r' with
          | Some e => Some (m, e - nfrac)
          | None => None
          end
      | None =>
          match parse_exponent r with
          | Some e => Some (ip, e)
          | None => None
          end
      end
  | Some (ip, _, r) =>
      match parse_exponent r with
      | Some e => Some (ip, e)
      | None => None
      end
  | None =>
      match s with
      | String "." r =>
          match digit_part r 0 with
          | Some (m, nfrac, r') =>
              match parse_exponent r' with
              | Some e => Some (m, e - nfrac)
              | None => None
              end
          | None => None
          end
      | _ => None
      end
  end.

(** [float(text)] for a [str]: [None] stands for [ValueError]. *)
Definition float_of_string (text : string) : option float :=
  let '(neg, body) := parse_sign (strip text) in
  let sgn (f : float) := if neg then PrimFloat.opp f else f in
  let lb := lower body in
  if str_in lb ["inf"; "infinity"] then Some (sgn infinity)
  else if String.eqb lb "nan" then Some nan
  else
    match parse_decimal body with
    | Some (m, k) => Some (sgn (float_of_decimal m k))
    | None => None
    end.

(** [10^t <= n / d], for any integer [t]. *)
Definition pow10_le (t n d : Z) : bool :=
  if 0 <=? t then 10 ^ t * d <=? n else d <=? n * 10 ^ (- t).

(** [floor (log10 (n / d))] for a positive rational. *)
Definition floor_log10 (n d : Z) : Z :=
  let t0 := ((Z.log2 n - Z.log2 d) * 1233) / 4096 in
  let t1 := if pow10_le t0 n d then t0
            else if pow10_le (t0 - 1) n d then t0 - 1 else t0 - 2 in
  if pow10_le (t1 + 2) n d then t1 + 2
  else if pow10_le (t1 + 1) n d then t1 + 1 else t1.

(** The shortest decimal [c * 10^s] that [float] reads back as [f = n / d],
    trying 1, 2, ... significant digits. *)
Fixpoint shortest_digits (fuel : nat) (p : Z) (f : float) (n d t : Z) : Z * Z :=
  let s := t - (p - 1) in
  let lo := if 0 <=? s then n / (d * 10 ^ s) else (n * 10 ^ (- s)) / d in
  let back c := PrimFloat.eqb (float_of_decimal c s) f in
  let hi_closer :=
    if 0 <=? s then (2 * lo + 1) * 10 ^ s * d <? 2 * n
    else (2 * lo + 1) * d <? 2 * n * 10 ^ (- s) in
  match fuel with
  | O => (lo, s)
  | S fuel' =>
      if back lo && back (lo + 1) then (if hi_closer then lo + 1 else lo, s)
      else if back lo then (lo, s)
      else if back (lo + 1) then (lo + 1, s)
      else shortest_digits fuel' (p + 1) f n d t
  end.

Fixpoint strip_zeros_rev (s : string) : string :=
  match s with
  | String "0" r => strip_zeros_rev r
  | _ => s
  end.

Definition fmt_exp (e : Z) : string :=
  let a := dec_of_Z (Z.abs e) in
  (if e <? 0 then "e-" else "e+") ++ repeat_char "0" (2 - String.length a) ++ a.

(** [repr] of a positive finite float with digit string [ds] and decimal
    point position [decpt] (value [0.ds * 10^decpt]). *)
Definition fmt_repr (ds : string) (decpt : Z) : string :=
  let len := Z.of_nat (String.length ds) in
  if (decpt <=? -4) || (16 <? decpt) then
    match ds with
    | String c EmptyString => String c (fmt_exp (decpt - 1))
    | String c r => String c ("." ++ r ++ fmt_exp (decpt - 1))
    | EmptyString => ""
    end
  else if decpt <=? 0 then "0." ++ repeat_char "0" (Z.to_nat (- decpt)) ++ ds
  else if len <=? decpt then ds ++ repeat_char "0" (Z.to_nat (decpt - len)) ++ ".0"
  else substring 0 (Z.to_nat decpt) ds ++ "."
       ++ substring (Z.to_nat decpt) (Z.to_nat (len - decpt)) ds.

(** [repr(f)] / [str(f)] for a float. *)
Definition float_repr (f : float) : string :=
  match Prim2SF f with
  | S754_nan => "nan"
  | S754_infinity s => if s then "-inf" else "inf"
  | S754_zero s => if s then "-0.0" else "0.0"
  | S754_finite sg m e =>
      let n := Z.pos m * 2 ^ Z.max e 0 in
      let d := 2 ^ Z.max (- e) 0 in
      let t := floor_log10 n d in
      let '(c, s) := shortest_digits 17 1 (PrimFloat.abs f) n d t in
      let all := dec_of_Z c in
      let ds := rev_string (strip_zeros_rev (rev_string all)) in
      (if sg then "-" else "")
      ++ fmt_repr ds (Z.of_nat (String.length all) + s)
  end.

(* ------------------------------------------------------------------ *)
(** *** [repr], [str] and [json.dumps] *)

Definition hex_digit (n : nat) : ascii :=
  if (n <? 10)%nat then ascii_of_nat (48 + n) else ascii_of_nat (87 + n).

Definition hex2 (c : ascii) : string :=
  let n := nat_of_ascii c in
  String (hex_digit (n / 16)) (String (hex_digit (n mod 16)) "").

Fixpoint contains_char (c : ascii) (s : string) : bool :=
  match s with
  | String c' r => Ascii.eqb c c' || contains_char c r
  | EmptyString => false
  end.

Definition bslash : string := String (ascii_of_nat 92) "".
Definition dquote : ascii := ascii_of_nat 34.
Definition squote : ascii := ascii_of_nat 39.

Fixpoint repr_escape (q : ascii) (s : string) : string :=
  match s with
  | EmptyString => ""
  | String c r =>
      let n := nat_of_ascii c in
      (if (n =? 92)%nat then bslash ++ bslash
       else if Ascii.eqb c q then bslash ++ String c ""
       else if (n =? 9)%nat then bslash ++ "t"
       else if (n =? 10)%nat then bslash ++ "n"
       else if (n =? 13)%nat then bslash ++ "r"
       else if ((n <? 32) || (n =? 127))%nat then bslash ++ "x" ++ hex2 c
       else String c "") ++ repr_escape q r
  end.

(** [repr(s)] for a [str] *)
Definition str_repr (s : string) : string :=
  let q := if contains_char squote s && negb (contains_char dquote s)
           then dquote else squote in
  String q (repr_escape q s ++ String q "").

(** [repr(v)] *)
Fixpoint py_repr (v : pyval) : string :=
  match v with
  | PNone => "None"
  | PBool b => if b then "True" else "False"
  | PInt z => str_of_int z
  | PFloat f => float_repr f
  | PStr s => str_repr s
  | PList l => "[" ++ join ", " (map py_repr l) ++ "]"
  | PDict d =>
      "{" ++ join ", " (map (fun kv => str_repr (fst kv) ++ ": " ++ py_repr (snd kv)) d)
      ++ "}"
  end.

(** [str(v)], also what an f-string field [{v}] renders. *)
Definition py_str (v : pyval) : string :=
  match v with
  | PStr s => s
  | _ => py_repr v
  end.

Fixpoint json_escape (s : string) : string :=
  match s with
  | EmptyString => ""
  | String c r =>
      let n := nat_of_ascii c in
      (if (n =? 34)%nat then bslash ++ String dquote ""
       else if (n =? 92)%nat then bslash ++ bslash
       else if (n =? 10)%nat then bslash ++ "n"
       else if (n =? 13)%nat then bslash ++ "r"
       else if (n =? 9)%nat then bslash ++ "t"
       else if (n =? 8)%nat then bslash ++ "b"
       else if (n =? 12)%nat then bslash ++ "f"
       else if (n <? 32)%nat then bslash ++ "u00" ++ hex2 c
       else String c "") ++ json_escape r
  end.

Definition json_str (s : string) : string :=
  String dquote (json_escape s ++ String dquote "").

(** [json.dumps(v, ensure_ascii=False)] *)
Fixpoint json_dumps (v : pyval) : string :=
  match v with
  | PNone => "null"
  | PBool b => if b then "true" else "false"
  | PInt z => str_of_int z
  | PFloat f =>
      match Prim2SF f with
      | S754_nan => "NaN"
      | S754_infinity s => if s then "-Infinity" else "Infinity"
      | _ => float_repr f
      end
  | PStr s => json_str s
  | PList l => "[" ++ join ", " (map json_dumps l) ++ "]"
  | PDict d =>
      "{" ++ join ", " (map (fun kv => json_str (fst kv) ++ ": " ++ json_dumps (snd kv)) d)
      ++ "}"
  end.

(* ================================================================== *)
(** ** Python operations on tree values *)
(* ================================================================== *)

Local Open Scope res_scope.

(** Truth value of an object ([if x], [not x], [x or y], [x and y]). *)
Definition truthy (v : pyval) : bool :=
  match v with
  | PNone => false
  | PBool b => b
  | PInt z => negb (z =? 0)
  | PFloat f => negb (PrimFloat.eqb f 0%float)
  | PStr s => negb (String.eqb s "")
  | PList l => match l with [] => false | _ => true end
  | PDict d => match d with [] => false | _ => true end
  end.

(** [x or y] *)
Definition py_or (x y : pyval) : pyval := if truthy x then x else y.

(** [isinstance(x, dict)] *)
Definition is_dict (v : pyval) : bool :=
  match v with PDict _ => true | _ => false end.

Fixpoint assoc_get {V} (d : list (string * V)) (k : string) : option V :=
  match d with
  | [] => None
  | (k', v) :: r => if String.eqb k k' then Some v else assoc_get r k
  end.

(** [d[k] = v] on an insertion-ordered dict. *)
Fixpoint assoc_set {V} (d : list (string * V)) (k : string) (v : V)
  : list (string * V) :=
  match d with
  | [] => [(k, v)]
  | (k', v') :: r =>
      if String.eqb k k' then (k', v) :: r else (k', v') :: assoc_set r k v
  end.

Fixpoint assoc_del {V} (d : list (string * V)) (k : string) : list (string * V) :=
  match d with
  | [] => []
  | (k', v') :: r => if String.eqb k k' then r else (k', v') :: assoc_del r k
  end.

(** [d.get(k)] on a dict already known to be one. *)
Definition dict_get (d : list (string * pyval)) (k : string) : pyval :=
  match assoc_get d k with Some v => v | None => PNone end.

(** [d.pop(k, None)] : the value and the remaining dict. *)
Definition dict_pop (d : list (string * pyval)) (k : string)
  : pyval * list (string * pyval) :=
  (dict_get d k, assoc_del d k).

(** [x.get(k, default)]: only a dict has the method. *)
Definition py_get_default (x : pyval) (k : string) (dflt : pyval) : res pyval :=
  match x with
  | PDict d => Ok (match assoc_get d k with Some v => v | None => dflt end)
  | _ => Raise AttributeError
  end.

(** [x.get(k)] *)
Definition py_get (x : pyval) (k : string) : res pyval :=
  py_get_default x k PNone.

(** [x.items()] *)
Definition py_items (x : pyval) : res (list (string * pyval)) :=
  match x with
  | PDict d => Ok d
  | _ => Raise AttributeError
  end.

Fixpoint is_substring (p s : string) : bool :=
  String.prefix p s ||
  match s with
  | String _ r => is_substring p r
  | EmptyString => false
  end.

Definition is_str_eq (k : string) (v : pyval) : bool :=
  match v with PStr s => String.eqb k s | _ => false end.

(** [k in x] for a string literal [k]: key of a dict, substring of a str,
    element of a list; other objects are not iterable. *)
Definition py_contains (k : string) (x : pyval) : res bool :=
  match x with
  | PDict d => Ok (match assoc_get d k with Some _ => true | None => false end)
  | PStr s => Ok (is_substring k s)
  | PList l => Ok (existsb (is_str_eq k) l)
  | _ => Raise TypeError
  end.

(** [x[k]] for a string literal [k]. *)
Definition py_index (x : pyval) (k : string) : res pyval :=
  match x with
  | PDict d => match assoc_get d k with Some v => Ok v | None => Raise KeyError end
  | _ => Raise TypeError
  end.

Fixpoint enumerate_from {A} (n : nat) (l : list A) : list (nat * A) :=
  match l with
  | [] => []
  | x :: r => (n, x) :: enumerate_from (S n) r
  end.

(** A table under construction: rows are dicts from column name to value;
    [pd.DataFrame(rows)] keeps them in order. *)
Definition row : Type := list (string * pyval).
Definition table : Type := list row.

(** A [for] loop whose iterations append rows to [rows]: the rows of the
    iterations in order, or the first exception. *)
Fixpoint for_rows {A} (xs : list A) (body : A -> res (list row)) : res (list row) :=
  match xs with
  | [] => Ok []
  | x :: r =>
      a <- body x ;;
      b <- for_rows r body ;;
      Ok (a ++ b)%list
  end.

(* ================================================================== *)
(** ** Basic utilities (normalize.py, UTILITÁRIOS BÁSICOS) *)
(* ================================================================== *)

Definition ensure_list (obj : pyval) : list pyval :=
  match obj with
  | PNone => []
  | PList l => l
  | _ => [obj]
  end.

(** [sys.exit(1)] when the document has no relay list. *)
Definition get_relays_list (data : pyval) : res (list pyval) :=
  root <- py_get data "ProtectionDataset" ;;
  match root with
  | PNone => Raise SystemExit
  | _ =>
      relays_root <- py_get root "Relays" ;;
      match relays_root with
      | PNone => Raise SystemExit
      | _ =>
          relays <- py_get relays_root "Relay" ;;
          match relays with
          | PNone => Raise SystemExit
          | _ => Ok (ensure_list relays)
          end
      end
  end.

(* ================================================================== *)
(** ** Hybrid identifier policy *)
(* ================================================================== *)

(** The module-level dictionary of per-kind counters. *)
Definition counters : Type := list (string * nat).

Definition _ID_COUNTERS : counters :=
  [("VT", 0); ("SETTING", 0); ("CURVE", 0); ("POINT", 0); ("PARAM", 0); ("SEL", 0)]%nat.

(** Computations that read and write the counters and may raise; the
    counters survive an exception. *)
Definition M (A : Type) : Type := counters -> res A * counters.

Definition mret {A} (a : A) : M A := fun c => (Ok a, c).

Definition mbind {A B} (m : M A) (k : A -> M B) : M B :=
  fun c =>
    match m c with
    | (Ok a, c') => k a c'
    | (Raise e, c') => (Raise e, c')
    end.

Definition lift {A} (r : res A) : M A := fun c => (r, c).

Declare Scope m_scope.
Delimit Scope m_scope with M.
Notation "x <- m ;; k" := (mbind m (fun x => k))
  (at level 61, m at next level, right associativity) : m_scope.

Fixpoint for_rows_m {A} (xs : list A) (body : A -> M (list row)) : M (list row) :=
  match xs with
  | [] => mret []
  | x :: r =>
      (a <- body x ;;
       b <- for_rows_m r body ;;
       mret (a ++ b)%list)%M
  end.

Definition _next_counter (kind : string) : M nat :=
  fun c =>
    let n := S (match assoc_get c kind with Some n => n | None => O end) in
    (Ok n, assoc_set c kind n).

Definition make_vt_id (relay_id vt_xml_id : pyval) (idx : nat) : M pyval :=
  if truthy vt_xml_id then mret vt_xml_id
  else if truthy relay_id then
    mret (PStr ("VT-" ++ py_str relay_id ++ "-" ++ fmt_d 2 idx))
  else
    (n <- _next_counter "VT" ;;
     mret (PStr ("VT-AUTO-" ++ fmt_d 6 n)))%M.

Definition make_curve_id (relay_id func_id curve_xml_id : pyval) (idx : nat)
  : M pyval :=
  if truthy curve_xml_id then mret curve_xml_id
  else if truthy relay_id && truthy func_id then
    mret (PStr ("CUR-" ++ py_str relay_id ++ "-" ++ py_str func_id ++ "-"
                ++ fmt_d 2 idx))
  else
    (n <- _next_counter "CURVE" ;;
     mret (PStr ("CUR-AUTO-" ++ fmt_d 6 n)))%M.

Definition make_point_id (curve_id : pyval) (idx : nat) : pyval :=
  PStr ("PT-" ++ py_str curve_id ++ "-" ++ fmt_d 3 idx).

Definition make_setting_id (relay_id func_id : pyval) : pyval :=
  PStr ("SET-" ++ py_str relay_id ++ "-" ++ py_str func_id).

Definition make_parameter_id (relay_id : pyval) (idx : nat) : pyval :=
  PStr ("PAR-" ++ py_str relay_id ++ "-" ++ fmt_d 3 idx).

Definition make_selectivity_id (relay_id func_id : pyval) (direction : string)
    (idx : nat) : pyval :=
  let dir_code := if startswith "down" (lower direction) then "D" else "U" in
  PStr ("SEL-" ++ py_str relay_id ++ "-" ++ py_str func_id ++ "-" ++ dir_code
        ++ "-" ++ fmt_d 3 idx).

(** [safe_float]: [None] or a float; the [ValueError] of [float(text)] is
    caught, the [OverflowError] of [float(int)] is not. *)
Definition safe_float (value : pyval) : res pyval :=
  match value with
  | PNone => Ok PNone
  | PBool b => f <- float_of_int (if b then 1 else 0) ;; Ok (PFloat f)
  | PInt z => f <- float_of_int z ;; Ok (PFloat f)
  | PFloat f => Ok (PFloat f)
  | _ =>
      let text := strip (py_str value) in
      if String.eqb text "" || String.eqb (lower text) "nan" then Ok PNone
      else if str_in text ["∞"; "+∞"; "-∞"; "inf"; "+inf"; "-inf"] then Ok PNone
      else
        match float_of_string text with
        | Some f => Ok (PFloat f)
        | None => Ok PNone
        end
  end.

(* ================================================================== *)
(** ** N2: relay core *)
(* ================================================================== *)

Definition normalize_relays_core (relays : list pyval) : res table :=
  for_rows relays (fun relay =>
    relay_id <- py_get relay "@id" ;;
    manufacturer <- py_get relay "@manufacturer" ;;
    model <- py_get relay "@model" ;;
    series <- py_get relay "@series" ;;
    relay_type <- py_get relay "@relayType" ;;
    voltage_class_kv <- py_get relay "@voltageClassKV" ;;
    frequency_raw <- py_get relay "@frequencyHz" ;;
    frequency_hz <- safe_float frequency_raw ;;
    config_date <- py_get relay "@configDate" ;;
    protected_transformer_id <- py_get relay "@protectedTransformerId" ;;
    protected_feeder_id <- py_get relay "@protectedFeederId" ;;
    protected_load_id <- py_get relay "@protectedLoadId" ;;
    Ok [[("relay_id", relay_id);
         ("manufacturer", manufacturer);
         ("model", model);
         ("series", series);
         ("relay_type", relay_type);
         ("voltage_class_kv", voltage_class_kv);
         ("frequency_hz", frequency_hz);
         ("config_date", config_date);
         ("protected_transformer_id", protected_transformer_id);
         ("protected_feeder_id", protected_feeder_id);
         ("protected_load_id", protected_load_id)]]).

(* ================================================================== *)
(** ** N3: CTs, VTs, functions *)
(* ================================================================== *)

(** [(primary / secondary) if primary and secondary else None] under
    [try ... except Exception: ratio = None]: dividing two non-zero floats
    does not raise, and any other operands end in the [except] branch. *)
Definition ct_ratio (primary secondary : pyval) : pyval :=
  if truthy primary && truthy secondary then
    match primary, secondary with
    | PFloat p, PFloat s => PFloat (p / s)
    | _, _ => PNone
    end
  else PNone.

(** Body of the loop over the CT nodes of one relay. *)
Definition ct_rows (relay_id : pyval) (ict : nat * pyval) : res (list row) :=
  let '(idx, ct) := ict in
  if negb (is_dict ct) then Ok []
  else
    primary_raw <- py_get ct "@primaryA" ;;
    primary <- safe_float primary_raw ;;
    secondary_raw <- py_get ct "@secondaryA" ;;
    secondary <- safe_float secondary_raw ;;
    let ratio := ct_ratio primary secondary in
    xml_id <- py_get ct "@id" ;;
    let ct_id := py_or xml_id (PStr ("CT-" ++ py_str relay_id ++ "-" ++ fmt_d 2 idx)) in
    location <- py_get ct "@location" ;;
    phase <- py_get ct "@phase" ;;
    class <- py_get ct "@class" ;;
    burden_raw <- py_get ct "@burdenVA" ;;
    burden_va <- safe_float burden_raw ;;
    core_id <- py_get ct "@coreId" ;;
    Ok [[("relay_id", relay_id);
         ("ct_id", ct_id);
         ("location", location);
         ("phase", phase);
         ("primary_a", primary);
         ("secondary_a", secondary);
         ("ratio", ratio);
         ("class", class);
         ("burden_va", burden_va);
         ("core_id", core_id)]].

Definition normalize_cts (relays : list pyval) : res table :=
  for_rows relays (fun relay =>
    relay_id <- py_get relay "@id" ;;
    cts_block <- py_get relay "CTs" ;;
    if negb (truthy cts_block) then Ok []
    else
      cts <- py_get cts_block "CT" ;;
      for_rows (enumerate_from 1 (ensure_list cts)) (ct_rows relay_id)).

(** Body of the loop over the explicit VT nodes of one relay. *)
Definition vt_rows (relay_id vt_defined vt_enabled : pyval) (ivt : nat * pyval)
  : M (list row) :=
  let '(idx, vt) := ivt in
  if negb (is_dict vt) then mret []
  else
    (xml_id <- lift (py_get vt "@id") ;;
     vt_id <- make_vt_id relay_id xml_id idx ;;
     lift (location <- py_get vt "@location" ;;
           primary_raw <- py_get vt "@primaryKV" ;;
           primary_kv <- safe_float primary_raw ;;
           secondary_raw <- py_get vt "@secondaryV" ;;
           secondary_v <- safe_float secondary_raw ;;
           connection <- py_get vt "@connection" ;;
           burden_raw <- py_get vt "@burdenVA" ;;
           burden_va <- safe_float burden_raw ;;
           Ok [[("relay_id", relay_id);
                ("vt_id", vt_id);
                ("location", location);
                ("primary_kv", primary_kv);
                ("secondary_v", secondary_v);
                ("connection", connection);
                ("burden_va", burden_va);
                ("vt_defined", vt_defined);
                ("vt_enabled", vt_enabled)]])%res)%M.

Definition normalize_vts (relays : list pyval) : M table :=
  for_rows_m relays (fun relay =>
    (relay_id <- lift (py_get relay "@id") ;;
     vts_block <- lift (py_get relay "VTs") ;;
     if negb (truthy vts_block) then mret []
     else
       vt_defined <- lift (py_get vts_block "@vtDefined") ;;
       vt_enabled <- lift (py_get vts_block "@vtEnabled") ;;
       vt_nodes <- lift (py_get vts_block "VT") ;;
       match vt_nodes with
       | PNone =>
           vt_id <- make_vt_id relay_id PNone 1 ;;
           mret [[("relay_id", relay_id);
                  ("vt_id", vt_id);
                  ("location", PNone);
                  ("primary_kv", PNone);
                  ("secondary_v", PNone);
                  ("connection", PNone);
                  ("burden_va", PNone);
                  ("vt_defined", vt_defined);
                  ("vt_enabled", vt_enabled)]]
       | _ =>
           for_rows_m (enumerate_from 1 (ensure_list vt_nodes))
                      (vt_rows relay_id vt_defined vt_enabled)
       end)%M).

(** Body of the loop over the Function nodes of one relay. *)
Definition function_rows (relay_id func : pyval) : res (list row) :=
  if negb (is_dict func) then Ok []
  else
    function_id <- py_get func "@id" ;;
    name <- py_get func "@name" ;;
    ansi_code <- py_get func "@ansiCode" ;;
    enabled <- py_get func "@enabled" ;;
    zone <- py_get func "@zone" ;;
    directionality <- py_get func "@directionality" ;;
    trip_output <- py_get func "@tripOutput" ;;
    ct_ref <- py_get func "@ctRef" ;;
    Ok [[("relay_id", relay_id);
         ("function_id", function_id);
         ("name", name);
         ("ansi_code", ansi_code);
         ("enabled", enabled);
         ("zone", zone);
         ("directionality", directionality);
         ("trip_output", trip_output);
         ("ct_ref", ct_ref)]].

Definition normalize_functions (relays : list pyval) : res table :=
  for_rows relays (fun relay =>
    relay_id <- py_get relay "@id" ;;
    pf_block <- py_get relay "ProtectionFunctions" ;;
    if negb (truthy pf_block) then Ok []
    else
      funcs <- py_get pf_block "Function" ;;
      for_rows (ensure_list funcs) (function_rows relay_id)).

(* ================================================================== *)
(** ** Function settings (one aggregated row per function) *)
(* ================================================================== *)

(** A raw setting: the dict [{"parameter", "attribute", "value"}]. *)
Record raw_setting : Type := mk_raw {
  parameter : string;
  attribute : string;
  value : pyval
}.

(** The attributes ([@...] keys) of one named settings node. *)
Fixpoint node_settings (key : string) (items : list (string * pyval))
  : list raw_setting :=
  match items with
  | [] => []
  | (attr_name, attr_val) :: r =>
      if negb (startswith "@" attr_name) then node_settings key r
      else mk_raw key (lstrip_at attr_name) attr_val :: node_settings key r
  end.

(** Body of the loop over [settings.items()]. *)
Definition settings_item (kn : string * pyval) : list raw_setting :=
  let '(key, node) := kn in
  if String.eqb key "Curve" then []
  else
    match node with
    | PDict items => node_settings key items
    | _ => [mk_raw key "_text" (PStr (py_str node))]
    end.

Definition _collect_raw_settings_for_function (func : pyval)
  : res (list raw_setting) :=
  settings <- py_get func "Settings" ;;
  if negb (truthy settings) then Ok []
  else
    items <- py_items settings ;;
    Ok (flat_map settings_item items).

(** [by_param.setdefault(param, []).append({"attribute", "value"})] *)
Definition by_param_add (by_param : list (string * list (string * pyval)))
    (item : raw_setting) : list (string * list (string * pyval)) :=
  let old := match assoc_get by_param (parameter item) with
             | Some l => l
             | None => []
             end in
  assoc_set by_param (parameter item) (old ++ [(attribute item, value item)])%list.

(** The local variables of the aggregation loop. *)
Record agg : Type := mk_agg {
  pickup_pu : pyval;
  pickup_a : pyval;
  time_dial : pyval;
  min_time_seconds : pyval;
  thermal_constant : pyval;
  full_load_current : pyval;
  trip_class : pyval;
  extra : list (string * pyval)
}.

Definition agg_init : agg :=
  mk_agg PNone PNone PNone PNone PNone PNone PNone [].

(** One iteration of the inner loop: record the triple in [extra], then
    map the parameter name to a typed column. *)
Definition agg_step (param_name : string) (a : agg) (item : string * pyval)
  : res agg :=
  let '(attribute, value) := item in
  let key := param_name ++ "." ++ attribute in
  let extra' := assoc_set (extra a) key value in
  let a := mk_agg (pickup_pu a) (pickup_a a) (time_dial a) (min_time_seconds a)
                  (thermal_constant a) (full_load_current a) (trip_class a) extra' in
  let pname_lower := lower param_name in
  if str_in pname_lower ["pickupperunit"; "pickup_per_unit"; "pickup_pu"] then
    v <- safe_float value ;;
    Ok (mk_agg v (pickup_a a) (time_dial a) (min_time_seconds a)
               (thermal_constant a) (full_load_current a) (trip_class a) (extra a))
  else if str_in pname_lower ["pickupamps"; "pickup_a"; "pickup_current"] then
    v <- safe_float value ;;
    Ok (mk_agg (pickup_pu a) v (time_dial a) (min_time_seconds a)
               (thermal_constant a) (full_load_current a) (trip_class a) (extra a))
  else if str_in pname_lower ["timedial"; "time_dial"] then
    v <- safe_float value ;;
    Ok (mk_agg (pickup_pu a) (pickup_a a) v (min_time_seconds a)
               (thermal_constant a) (full_load_current a) (trip_class a) (extra a))
  else if str_in pname_lower ["mintimeseconds"; "min_time_seconds"; "min_time"] then
    v <- safe_float value ;;
    Ok (mk_agg (pickup_pu a) (pickup_a a) (time_dial a) v
               (thermal_constant a) (full_load_current a) (trip_class a) (extra a))
  else if str_in pname_lower ["thermalconstant"; "thermal_constant"] then
    v <- safe_float value ;;
    Ok (mk_agg (pickup_pu a) (pickup_a a) (time_dial a) (min_time_seconds a)
               v (full_load_current a) (trip_class a) (extra a))
  else if str_in pname_lower ["fullloadcurrent"; "full_load_current"; "fla"] then
    v <- safe_float value ;;
    Ok (mk_agg (pickup_pu a) (pickup_a a) (time_dial a) (min_time_seconds a)
               (thermal_constant a) v (trip_class a) (extra a))
  else if str_in pname_lower ["tripclass"; "trip_class"] then
    v <- safe_float value ;;
    Ok (mk_agg (pickup_pu a) (pickup_a a) (time_dial a) (min_time_seconds a)
               (thermal_constant a) (full_load_current a) v (extra a))
  else Ok a.

(** A loop that updates local variables and may raise. *)
Fixpoint fold_res {A S} (step : S -> A -> res S) (xs : list A) (s : S) : res S :=
  match xs with
  | [] => Ok s
  | x :: r => s' <- step s x ;; fold_res step r s'
  end.

(** The two nested loops over [by_param.items()] and its item lists. *)
Definition aggregate (by_param : list (string * list (string * pyval))) : res agg :=
  fold_res (fun a (pi : string * list (string * pyval)) =>
              fold_res (agg_step (fst pi)) (snd pi) a)
           by_param agg_init.

(** Body of the loop over the Function nodes of one relay. *)
Definition function_setting_rows (relay_id func : pyval) : res (list row) :=
  if negb (is_dict func) then Ok []
  else
    xml_id <- py_get func "@id" ;;
    let func_id := py_or xml_id (PStr "") in
    raw_settings <- _collect_raw_settings_for_function func ;;
    match raw_settings with
    | [] => Ok []
    | _ =>
        let by_param := fold_left by_param_add raw_settings [] in
        a <- aggregate by_param ;;
        let setting_id := make_setting_id relay_id func_id in
        Ok [[("setting_id", setting_id);
             ("function_id", func_id);
             ("pickup_pu", pickup_pu a);
             ("pickup_a", pickup_a a);
             ("time_dial", time_dial a);
             ("min_time_seconds", min_time_seconds a);
             ("thermal_constant", thermal_constant a);
             ("full_load_current", full_load_current a);
             ("trip_class", trip_class a);
             ("extra_json",
              match extra a with
              | [] => PNone
              | _ => PStr (json_dumps (PDict (extra a)))
              end)]]
    end.

Definition normalize_function_settings (relays : list pyval) : res table :=
  for_rows relays (fun relay =>
    relay_id <- py_get relay "@id" ;;
    pf_block <- py_get relay "ProtectionFunctions" ;;
    if negb (truthy pf_block) then Ok []
    else
      funcs <- py_get pf_block "Function" ;;
      for_rows (ensure_list funcs) (function_setting_rows relay_id)).

(* ================================================================== *)
(** ** Curves and curve points *)
(* ================================================================== *)

(** [{k.lstrip("@"): v for k, v in node.items() if k.startswith("@")}] *)
Definition attrs_of (items : list (string * pyval)) : list (string * pyval) :=
  fold_left (fun acc (kv : string * pyval) =>
               if startswith "@" (fst kv)
               then assoc_set acc (lstrip_at (fst kv)) (snd kv)
               else acc)
            items [].

(** The candidate curve nodes of a function: those nested in its settings
    block first, then those directly under the function. *)
Definition curve_candidates (func : pyval) : res (list pyval) :=
  settings <- py_get func "Settings" ;;
  in_settings <- (if truthy settings then py_contains "Curve" settings
                  else Ok false) ;;
  nested <- (if in_settings then c <- py_index settings "Curve" ;; Ok (ensure_list c)
             else Ok []) ;;
  in_func <- py_contains "Curve" func ;;
  direct <- (if in_func then c <- py_index func "Curve" ;; Ok (ensure_list c)
             else Ok []) ;;
  Ok (nested ++ direct)%list.

(** The tri-state [parametric] flag. *)
Definition parse_parametric (parametric_raw : pyval) : pyval :=
  match parametric_raw with
  | PStr s =>
      if str_in (lower s) ["true"; "1"; "yes"] then PBool true
      else if str_in (lower s) ["false"; "0"; "no"] then PBool false
      else PNone
  | _ => PNone
  end.

(** Body of the loop over the candidate curves of one function. *)
Definition curve_rows (relay_id func_id : pyval) (icurve : nat * pyval)
  : M (list row) :=
  let '(idx, curve) := icurve in
  match curve with
  | PDict items =>
      let attrs := attrs_of items in
      let curve_xml_id := dict_get attrs "id" in
      (curve_id <- make_curve_id relay_id func_id curve_xml_id idx ;;
       let '(family, attrs) := dict_pop attrs "family" in
       let '(curve_type, attrs) := dict_pop attrs "type" in
       let '(standard, attrs) := dict_pop attrs "standard" in
       let '(pickup_pu_raw, attrs) := dict_pop attrs "pickupPU" in
       pickup_pu <- lift (safe_float pickup_pu_raw) ;;
       let '(pickup_a_raw, attrs) := dict_pop attrs "pickupA" in
       pickup_a <- lift (safe_float pickup_a_raw) ;;
       let '(time_dial_raw, attrs) := dict_pop attrs "timeDial" in
       time_dial <- lift (safe_float time_dial_raw) ;;
       let '(min_time_raw, attrs) := dict_pop attrs "minTimeSeconds" in
       min_time_sec <- lift (safe_float min_time_raw) ;;
       let '(parametric_raw, attrs) := dict_pop attrs "parametric" in
       let parametric := parse_parametric parametric_raw in
       let extra_json := match attrs with
                         | [] => PNone
                         | _ => PStr (json_dumps (PDict attrs))
                         end in
       mret [[("curve_id", curve_id);
              ("function_id", func_id);
              ("family", family);
              ("type", curve_type);
              ("standard", standard);
              ("pickup_pu", pickup_pu);
              ("pickup_a", pickup_a);
              ("time_dial", time_dial);
              ("min_time_sec", min_time_sec);
              ("parametric", parametric);
              ("extra_json", extra_json)]])%M
  | _ => mret []
  end.

(** Body of the loop over the Function nodes of one relay. *)
Definition function_curve_rows (relay_id func : pyval) : M (list row) :=
  if negb (is_dict func) then mret []
  else
    (func_id <- lift (py_get func "@id") ;;
     curves_nodes <- lift (curve_candidates func) ;;
     for_rows_m (enumerate_from 1 curves_nodes) (curve_rows relay_id func_id))%M.

Definition normalize_function_curves (relays : list pyval) : M table :=
  for_rows_m relays (fun relay =>
    (relay_id <- lift (py_get relay "@id") ;;
     pf_block <- lift (py_get relay "ProtectionFunctions") ;;
     if negb (truthy pf_block) then mret []
     else
       funcs <- lift (py_get pf_block "Function") ;;
       for_rows_m (ensure_list funcs) (function_curve_rows relay_id))%M).

(** [@id] of the first candidate curve, when it is a structured node. *)
Definition first_curve_xml_id (curves_nodes : list pyval) : pyval :=
  match curves_nodes with
  | PDict items :: _ => dict_get (attrs_of items) "id"
  | _ => PNone
  end.

(** Body of the loop over the Point nodes of one CurvePoints block. *)
Definition point_rows (curve_id base : pyval) (ipoint : nat * pyval)
  : res (list row) :=
  let '(idx, point) := ipoint in
  match point with
  | PDict items =>
      let attrs := attrs_of items in
      multiple <- safe_float (dict_get attrs "multiple") ;;
      current <- safe_float (dict_get attrs "current") ;;
      time_seconds <- safe_float (dict_get attrs "timeSeconds") ;;
      let point_id := make_point_id curve_id idx in
      Ok [[("point_id", point_id);
           ("curve_id", curve_id);
           ("base", base);
           ("multiple", multiple);
           ("time_seconds", time_seconds);
           ("amps", current);
           ("volts", PNone)]]
  | _ => Ok []
  end.

(** Body of the loop over the Function nodes of one relay. *)
Definition function_point_rows (relay_id func : pyval) : M (list row) :=
  if negb (is_dict func) then mret []
  else
    (func_id <- lift (py_get func "@id") ;;
     curves_nodes <- lift (curve_candidates func) ;;
     let curve_xml_id := first_curve_xml_id curves_nodes in
     curve_id <- make_curve_id relay_id func_id curve_xml_id 1 ;;
     cp_block <- lift (py_get func "CurvePoints") ;;
     if negb (truthy cp_block) then mret []
     else
       base <- lift (py_get cp_block "@base") ;;
       points <- lift (py_get cp_block "Point") ;;
       lift (for_rows (enumerate_from 1 (ensure_list points))
                      (point_rows curve_id base)))%M.

Definition normalize_curve_points (relays : list pyval) : M table :=
  for_rows_m relays (fun relay =>
    (relay_id <- lift (py_get relay "@id") ;;
     pf_block <- lift (py_get relay "ProtectionFunctions") ;;
     if negb (truthy pf_block) then mret []
     else
       funcs <- lift (py_get pf_block "Function") ;;
       for_rows_m (ensure_list funcs) (function_point_rows relay_id))%M).

(* ================================================================== *)
(** ** Parameters and selectivity *)
(* ================================================================== *)

(** Body of the loop over the Parameter nodes of one relay. *)
Definition parameter_rows (relay_id : pyval) (iparam : nat * pyval)
  : res (list row) :=
  let '(idx, param) := iparam in
  if negb (is_dict param) then Ok []
  else
    xml_id <- py_get param "@id" ;;
    let parameter_id := py_or xml_id (make_parameter_id relay_id idx) in
    name <- py_get param "@name" ;;
    group_name <- py_get param "@group" ;;
    type <- py_get param "@type" ;;
    value <- py_get param "@value" ;;
    Ok [[("parameter_id", parameter_id);
         ("relay_id", relay_id);
         ("name", name);
         ("group_name", group_name);
         ("type", type);
         ("value", value)]].

Definition normalize_parameters (relays : list pyval) : res table :=
  for_rows relays (fun relay =>
    relay_id <- py_get relay "@id" ;;
    params_block <- py_get relay "Parameters" ;;
    if negb (truthy params_block) then Ok []
    else
      params <- py_get params_block "Parameter" ;;
      for_rows (enumerate_from 1 (ensure_list params)) (parameter_rows relay_id)).

(** Body of the loop over the downstream devices of a selectivity block. *)
Definition downstream_rows (relay_id func_id margin_s : pyval) (idev : nat * pyval)
  : res (list row) :=
  let '(idx, dev) := idev in
  if negb (is_dict dev) then Ok []
  else
    let selectivity_id := make_selectivity_id relay_id func_id "Downstream" idx in
    dev_id <- py_get dev "@id" ;;
    element <- py_get dev "@element" ;;
    Ok [[("selectivity_id", selectivity_id);
         ("function_id", func_id);
         ("upstream_device", PNone);
         ("downstream_device", dev_id);
         ("element", element);
         ("coordination_margin", margin_s)]].

(** Body of the loop over the upstream devices of a selectivity block. *)
Definition upstream_rows (relay_id func_id margin_s : pyval) (idev : nat * pyval)
  : res (list row) :=
  let '(idx, dev) := idev in
  if negb (is_dict dev) then Ok []
  else
    let selectivity_id := make_selectivity_id relay_id func_id "Upstream" idx in
    dev_id <- py_get dev "@id" ;;
    element <- py_get dev "@element" ;;
    Ok [[("selectivity_id", selectivity_id);
         ("function_id", func_id);
         ("upstream_device", dev_id);
         ("downstream_device", PNone);
         ("element", element);
         ("coordination_margin", margin_s)]].

(** Body of the loop over the Function nodes of one relay. *)
Definition function_selectivity_rows (relay_id func : pyval) : res (list row) :=
  if negb (is_dict func) then Ok []
  else
    func_id <- py_get func "@id" ;;
    sel_block <- py_get func "Selectivity" ;;
    if negb (truthy sel_block) then Ok []
    else
      margin <- py_get_default sel_block "CoordinationMargin" (PDict []) ;;
      seconds <- py_get margin "@seconds" ;;
      margin_s <- safe_float seconds ;;
      downs <- py_get sel_block "DownstreamDevice" ;;
      down_rows <- for_rows (enumerate_from 1 (ensure_list downs))
                            (downstream_rows relay_id func_id margin_s) ;;
      ups <- py_get sel_block "UpstreamDevice" ;;
      up_rows <- for_rows (enumerate_from 1 (ensure_list ups))
                          (upstream_rows relay_id func_id margin_s) ;;
      Ok (down_rows ++ up_rows)%list.

Definition normalize_selectivity (relays : list pyval) : res table :=
  for_rows relays (fun relay =>
    relay_id <- py_get relay "@id" ;;
    pf_block <- py_get relay "ProtectionFunctions" ;;
    if negb (truthy pf_block) then Ok []
    else
      funcs <- py_get pf_block "Function" ;;
      for_rows (ensure_list funcs) (function_selectivity_rows relay_id)).

(* ================================================================== *)
(** ** Orchestration of the NORMALIZE phase *)
(* ================================================================== *)

(** The nine tables of one pass over the relay list, in the order
    [run_normalize_pipeline] builds and saves them. *)
Definition normalize_tables (relays : list pyval) : M (list (string * table)) :=
  (core <- lift (normalize_relays_core relays) ;;
   cts <- lift (normalize_cts relays) ;;
   vts <- normalize_vts relays ;;
   functions <- lift (normalize_functions relays) ;;
   settings <- lift (normalize_function_settings relays) ;;
   curves <- normalize_function_curves relays ;;
   points <- normalize_curve_points relays ;;
   parameters <- lift (normalize_parameters relays) ;;
   selectivity <- lift (normalize_selectivity relays) ;;
   mret [("relays_core", core);
         ("relays_cts", cts);
         ("relays_vts", vts);
         ("relays_functions", functions);
         ("relays_function_settings", settings);
         ("relays_curves", curves);
         ("relays_curve_points", points);
         ("relays_parameters", parameters);
         ("relays_selectivity", selectivity)])%M.

(** [run_normalize_pipeline] on the document [data] that [load_xml]
    returned: the relay list is located, then the nine tables are built. *)
Definition run_normalize_pipeline (data : pyval) : M (list (string * table)) :=
  (relays <- lift (get_relays_list data) ;;
   normalize_tables relays)%M.

(** Two runs of the pipeline in one process: the second starts from the
    counters the first one left. *)
Definition run_twice (data : pyval)
  : res (list (string * table)) * res (list (string * table)) :=
  let '(first, c1) := run_normalize_pipeline data _ID_COUNTERS in
  let '(second, _) := run_normalize_pipeline data c1 in
  (first, second).

(** Column [k] of a row. *)
Definition col (k : string) (r : row) : pyval := dict_get r k.

(* ================================================================== *)
(** ** Vocabulary of the properties: nodes, shapes, scenarios *)
(* ================================================================== *)

(** Relay R1 with a single CT node. *)
Definition single_ct_relay (ct : list (string * pyval)) : pyval :=
  PDict [("@id", PStr "R1"); ("CTs", PDict [("CT", PDict ct)])].

(** A float that is not zero: true in an [if]. *)
Definition float_nonzero (f : float) : Prop := PrimFloat.eqb f 0 = false.

(** The structured CT nodes of a relay list. *)
Definition ct_node_of (relays : list pyval) (ct : list (string * pyval)) : Prop :=
  exists rd block,
    In (PDict rd) relays /\ dict_get rd "CTs" = PDict block
    /\ In (PDict ct) (ensure_list (dict_get block "CT")).

(** The ratio rule as the data model words it: defined exactly when both
    currents are present and the secondary is non-zero. *)
Definition ratio_as_specified (primary secondary ratio : pyval) : Prop :=
  (exists p s, primary = PFloat p /\ secondary = PFloat s /\ float_nonzero s
               /\ ratio = PFloat (p / s))
  \/ (~ (exists p s, primary = PFloat p /\ secondary = PFloat s /\ float_nonzero s)
      /\ ratio = PNone).

(** The rule of the code: [if primary and secondary] also rejects a zero
    primary current. *)
Definition ratio_as_coded (primary secondary ratio : pyval) : Prop :=
  (exists p s, primary = PFloat p /\ secondary = PFloat s
               /\ float_nonzero p /\ float_nonzero s /\ ratio = PFloat (p / s))
  \/ (~ (exists p s, primary = PFloat p /\ secondary = PFloat s
                     /\ float_nonzero p /\ float_nonzero s)
      /\ ratio = PNone).

(** A row and the CT node it was built from. *)
Definition ct_row_of (ct : list (string * pyval)) (r : row) : Prop :=
  safe_float (dict_get ct "@primaryA") = Ok (col "primary_a" r)
  /\ safe_float (dict_get ct "@secondaryA") = Ok (col "secondary_a" r)
  /\ ratio_as_coded (col "primary_a" r) (col "secondary_a" r) (col "ratio" r).

(** The ratio scenario: primary 100 A, secondary 5 A, and its table. *)
Definition ct_relay_100_5 : pyval :=
  single_ct_relay [("@primaryA", PStr "100"); ("@secondaryA", PStr "5")].

Definition ct_table_100_5 : table :=
  [[("relay_id", PStr "R1"); ("ct_id", PStr "CT-R1-01"); ("location", PNone);
    ("phase", PNone); ("primary_a", PFloat 100); ("secondary_a", PFloat 5);
    ("ratio", PFloat 20); ("class", PNone); ("burden_va", PNone);
    ("core_id", PNone)]].

(** The composite key of a raw setting in the extension map. *)
Definition composite_key (t : raw_setting) : string :=
  parameter t ++ "." ++ attribute t.

(** The raw settings in the order the aggregation loops visit them:
    grouped by parameter name. *)
Definition flatten_by_param (by_param : list (string * list (string * pyval)))
  : list raw_setting :=
  flat_map (fun pi : string * list (string * pyval) =>
              map (fun av => mk_raw (fst pi) (fst av) (snd av)) (snd pi))
           by_param.

(** [extra[key] = value] for one raw setting. *)
Definition extra_put (e : list (string * pyval)) (t : raw_setting)
  : list (string * pyval) :=
  assoc_set e (composite_key t) (value t).

(** A value [safe_float] converts without raising: anything but an
    integer beyond the range of a float. *)
Definition coercible (v : pyval) : Prop :=
  match v with
  | PInt z => exists f, float_of_int z = Ok f
  | _ => True
  end.

(** The entry a raw setting writes into the extension map. *)
Definition extra_entry (t : raw_setting) : string * pyval :=
  (composite_key t, value t).

(** The row of the settings table for an aggregation result. *)
Definition setting_row_of (relay_id func_id : pyval) (a : agg) (r : row) : Prop :=
  col "setting_id" r = make_setting_id relay_id func_id
  /\ col "function_id" r = func_id
  /\ col "pickup_pu" r = pickup_pu a
  /\ col "extra_json" r = match extra a with
                          | [] => PNone
                          | _ => PStr (json_dumps (PDict (extra a)))
                          end.

(** The structured Function nodes of a relay list, each with the [@id] of
    its relay. *)
Definition function_node_of (relays : list pyval) (relay_id : pyval)
    (fd : list (string * pyval)) : Prop :=
  exists rd pf,
    In (PDict rd) relays /\ relay_id = dict_get rd "@id"
    /\ dict_get rd "ProtectionFunctions" = PDict pf
    /\ In (PDict fd) (ensure_list (dict_get pf "Function")).

(** The function id used for the aggregated row: [@id] or the empty text. *)
Definition setting_func_id (fd : list (string * pyval)) : pyval :=
  py_or (dict_get fd "@id") (PStr "").

(** The scenario of the specification: function F1 on relay R1 with the
    settings (PickupPerUnit, value, 1.25) and (Blocking, enabled, true). *)
Definition scenario_function : list (string * pyval) :=
  [("@id", PStr "F1");
   ("Settings", PDict [("PickupPerUnit", PDict [("@value", PStr "1.25")]);
                       ("Blocking", PDict [("@enabled", PStr "true")])])].

Definition scenario_relay : pyval :=
  PDict [("@id", PStr "R1");
         ("ProtectionFunctions", PDict [("Function", PDict scenario_function)])].

Definition scenario_raws : list raw_setting :=
  [mk_raw "PickupPerUnit" "value" (PStr "1.25");
   mk_raw "Blocking" "enabled" (PStr "true")].

(** A function whose two raw settings share the composite key A.b.c:
    element A.b with attribute c, and element A with attribute b.c. *)
Definition colliding_function : list (string * pyval) :=
  [("@id", PStr "F1");
   ("Settings", PDict [("A.b", PDict [("@c", PStr "1")]);
                       ("A", PDict [("@b.c", PStr "2")])])].


(** A computation that neither reads nor writes the counters. *)
Definition counter_free {A} (m : M A) : Prop :=
  exists r, forall c, m c = (r, c).

(** Every relay and every structured function carries a non-empty [@id]. *)
Definition func_has_id (func : pyval) : bool :=
  match func with
  | PDict fd => truthy (dict_get fd "@id")
  | _ => true
  end.

Definition relay_has_ids (relay : pyval) : bool :=
  match relay with
  | PDict rd =>
      truthy (dict_get rd "@id")
      && match dict_get rd "ProtectionFunctions" with
         | PDict pf => forallb func_has_id (ensure_list (dict_get pf "Function"))
         | _ => true
         end
  | _ => true
  end.

(** A table of a pass, by file name. *)
Definition table_named (name : string) (tables : list (string * table)) : table :=
  match assoc_get tables name with
  | Some t => t
  | None => []
  end.

(** A document around a relay list. *)
Definition document (relays : list pyval) : pyval :=
  PDict [("ProtectionDataset", PDict [("Relays", PDict [("Relay", PList relays)])])].

(** A relay without [@id] whose VT block has only flags. *)
Definition unkeyed_document : pyval :=
  document [PDict [("VTs", PDict [("@vtDefined", PStr "true")])]].

(** The loop over the functions of the relays shared by the curve and the
    curve-point extraction. *)
Definition function_loop_m (body : pyval -> pyval -> M (list row))
    (relays : list pyval) : M table :=
  for_rows_m relays (fun relay =>
    (relay_id <- lift (py_get relay "@id") ;;
     pf_block <- lift (py_get relay "ProtectionFunctions") ;;
     if negb (truthy pf_block) then mret []
     else
       funcs <- lift (py_get pf_block "Function") ;;
       for_rows_m (ensure_list funcs) (body relay_id))%M).

(** The key of a curve that does not come from the fallback counter. *)
Definition positional_curve_id (relay_id func_id xml_id : pyval) (idx : nat) : pyval :=
  if truthy xml_id then xml_id
  else PStr ("CUR-" ++ py_str relay_id ++ "-" ++ py_str func_id ++ "-" ++ fmt_d 2 idx).

(** The first candidate curve of a function is a structured node and its
    key is natural or positional. *)
Definition curve_anchored (relay_id : pyval) (fd : list (string * pyval)) : bool :=
  match curve_candidates (PDict fd) with
  | Ok (PDict items :: _) =>
      truthy (dict_get (attrs_of items) "id")
      || (truthy relay_id && truthy (dict_get fd "@id"))
  | _ => false
  end.

(** Function F1 of relay R1 with curve points but no Curve node. *)
Definition points_without_curve : pyval :=
  PDict [("@id", PStr "R1");
         ("ProtectionFunctions",
          PDict [("Function",
                  PDict [("@id", PStr "F1");
                         ("CurvePoints",
                          PDict [("@base", PStr "pu");
                                 ("Point", PDict [("@multiple", PStr "2");
                                                  ("@timeSeconds", PStr "1.5")])])])])].

(** An optional block is absent, empty or a structured node. *)
Definition block_ok (v : pyval) : bool := negb (truthy v) || is_dict v.

(** No integer leaf of the tree is beyond the range of a float. *)
Fixpoint no_big_int (v : pyval) : bool :=
  match v with
  | PInt z => match float_of_int z with Ok _ => true | Raise _ => false end
  | PList l => forallb no_big_int l
  | PDict d => forallb (fun kv => no_big_int (snd kv)) d
  | _ => true
  end.

(** The coordination margin of a selectivity block is absent or a
    structured node. *)
Definition margin_ok (sel : pyval) : bool :=
  match sel with
  | PDict s =>
      match assoc_get s "CoordinationMargin" with
      | Some m => is_dict m
      | None => true
      end
  | _ => true
  end.

(** The optional blocks of a function are absent, empty or structured. *)
Definition function_shaped (func : pyval) : bool :=
  match func with
  | PDict fd =>
      block_ok (dict_get fd "Settings")
      && block_ok (dict_get fd "CurvePoints")
      && block_ok (dict_get fd "Selectivity")
      && margin_ok (dict_get fd "Selectivity")
  | _ => true
  end.

(** A relay is a structured node, and so are its blocks and those of its
    functions. *)
Definition relay_shaped (relay : pyval) : bool :=
  match relay with
  | PDict rd =>
      block_ok (dict_get rd "CTs")
      && block_ok (dict_get rd "VTs")
      && block_ok (dict_get rd "ProtectionFunctions")
      && block_ok (dict_get rd "Parameters")
      && match dict_get rd "ProtectionFunctions" with
         | PDict pf => forallb function_shaped (ensure_list (dict_get pf "Function"))
         | _ => true
         end
  | _ => false
  end.

(** Every relay is a structured node whose blocks are well shaped and
    whose integer leaves fit a float. *)
Definition well_shaped (relays : list pyval) : bool :=
  forallb (fun relay => relay_shaped relay && no_big_int relay) relays.

(** An extraction that returns a table, from any state of the counters. *)
Definition returns_table (r : res table) : Prop := exists t, r = Ok t.

Definition returns_table_m (m : M table) : Prop :=
  forall c, exists t c', m c = (Ok t, c').

(** A CTs block that is a text, and a selectivity block whose
    CoordinationMargin element is empty. *)
Definition text_cts_relay : pyval :=
  PDict [("@id", PStr "R1"); ("CTs", PStr "see sheet 3")].

Definition empty_margin_relay : pyval :=
  PDict [("@id", PStr "R1");
         ("ProtectionFunctions",
          PDict [("Function",
                  PDict [("@id", PStr "F1");
                         ("Selectivity",
                          PDict [("CoordinationMargin", PNone);
                                 ("DownstreamDevice", PDict [("@id", PStr "D1")])])])])].

(* ================================================================== *)
(** ** Namespace stripping, EXTRACT phase and LOAD constants *)
(* ================================================================== *)

(** [key.split(":")[-1]]: what follows the last colon. *)
Fixpoint last_segment (s : string) : string :=
  match s with
  | EmptyString => EmptyString
  | String c r =>
      if contains_char ":" r then last_segment r
      else if Ascii.eqb c ":" then r
      else s
  end.

(** [strip_namespaces] (normalize.py; [strip_ns] in extract.py is the same
    function): every dict is rebuilt key by key with the namespace prefix
    of the key removed. *)
Fixpoint strip_namespaces (data : pyval) : pyval :=
  match data with
  | PDict d =>
      PDict (fold_left
               (fun new_dict (kv : string * pyval) =>
                  assoc_set new_dict (last_segment (fst kv))
                            (strip_namespaces (snd kv)))
               d [])
  | PList l => PList (map strip_namespaces l)
  | _ => data
  end.

(** extract.py: the root node, or [sys.exit(1)]. *)
Definition get_root_dataset (data : pyval) : res pyval :=
  root <- py_get data "ProtectionDataset" ;;
  match root with
  | PNone => Raise SystemExit
  | _ => Ok root
  end.

Definition get_substation (root : pyval) : res pyval :=
  sub <- py_get root "Substation" ;;
  match sub with
  | PNone => Raise SystemExit
  | _ => Ok sub
  end.

Definition get_relays_root (root : pyval) : res pyval :=
  py_get root "Relays".

(** The records handed to [pd.DataFrame]; the empty frame has none. *)
Definition frame : Type := list pyval.

Definition extract_buses (sub : pyval) : res frame :=
  buses_block <- py_get sub "Buses" ;;
  match buses_block with
  | PNone => Ok []
  | _ =>
      bus <- py_get buses_block "Bus" ;;
      let buses := ensure_list bus in
      match buses with
      | [] => Ok []
      | _ => Ok buses
      end
  end.

Definition extract_transformers (sub : pyval) : res frame :=
  tr_block <- py_get sub "Transformers" ;;
  match tr_block with
  | PNone => Ok []
  | _ =>
      tr <- py_get tr_block "Transformer" ;;
      let transformers := ensure_list tr in
      match transformers with
      | [] => Ok []
      | _ => Ok transformers
      end
  end.

Definition extract_feeders (sub : pyval) : res frame :=
  feeders_block <- py_get sub "Feeders" ;;
  match feeders_block with
  | PNone => Ok []
  | _ =>
      feeder <- py_get feeders_block "Feeder" ;;
      let feeders := ensure_list feeder in
      match feeders with
      | [] => Ok []
      | _ => Ok feeders
      end
  end.

Definition extract_loads (sub : pyval) : res frame :=
  loads_block <- py_get sub "Loads" ;;
  match loads_block with
  | PNone => Ok []
  | _ =>
      load <- py_get loads_block "Load" ;;
      let loads := ensure_list load in
      match loads with
      | [] => Ok []
      | _ => Ok loads
      end
  end.

Definition extract_breakers (sub : pyval) : res frame :=
  brk_block <- py_get sub "Breakers" ;;
  match brk_block with
  | PNone => Ok []
  | _ =>
      breaker <- py_get brk_block "Breaker" ;;
      let breakers := ensure_list breaker in
      match breakers with
      | [] => Ok []
      | _ => Ok breakers
      end
  end.

Definition extract_relays (root : pyval) : res frame :=
  relays_root <- get_relays_root root ;;
  match relays_root with
  | PNone => Ok []
  | _ =>
      relay <- py_get relays_root "Relay" ;;
      let relays := ensure_list relay in
      match relays with
      | [] => Ok []
      | _ => Ok relays
      end
  end.

(** The six frames of [run_extract_pipeline], in the order it saves them,
    for the document [data] that [load_xml] returned. *)
Definition run_extract_pipeline (data : pyval) : res (list (string * frame)) :=
  root <- get_root_dataset data ;;
  substation <- get_substation root ;;
  buses <- extract_buses substation ;;
  transformers <- extract_transformers substation ;;
  feeders <- extract_feeders substation ;;
  loads <- extract_loads substation ;;
  breakers <- extract_breakers substation ;;
  relays <- extract_relays root ;;
  Ok [("buses", buses);
      ("transformers", transformers);
      ("feeders", feeders);
      ("loads", loads);
      ("breakers", breakers);
      ("relays", relays)].

(** load.py: the load order and the primary keys of [run_load_pipeline]. *)
Definition TABLE_LOAD_ORDER : list (string * string) :=
  [("relays_core", "relays_core.csv");
   ("relays_cts", "relays_cts.csv");
   ("relays_vts", "relays_vts.csv");
   ("relays_functions", "relays_functions.csv");
   ("relays_function_settings", "relays_function_settings.csv");
   ("relays_curves", "relays_curves.csv");
   ("relays_curve_points", "relays_curve_points.csv");
   ("relays_parameters", "relays_parameters.csv");
   ("relays_selectivity", "relays_selectivity.csv")].

Definition pk_map : list (string * list string) :=
  [("relays_core", ["relay_id"]);
   ("relays_cts", ["ct_id"]);
   ("relays_vts", ["vt_id"]);
   ("relays_functions", ["function_id"]);
   ("relays_function_settings", ["setting_id"]);
   ("relays_curves", ["curve_id"]);
   ("relays_curve_points", ["point_id"]);
   ("relays_parameters", ["parameter_id"]);
   ("relays_selectivity", ["selectivity_id"])].

(** [pk_map.get(table_name, [])] *)
Definition pk_columns_of (table_name : string) : list string :=
  match assoc_get pk_map table_name with
  | Some l => l
  | None => []
  end.

(** Reading a zero-padded decimal field back. *)
Definition read_index (s : string) : option nat :=
  match NilEmpty.uint_of_string s with
  | Some u => Some (N.to_nat (N.of_uint u))
  | None => None
  end.

(** The columns of the nine normalized tables, as the row dicts list them. *)
Definition table_columns : list (string * list string) :=
  [("relays_core",
    ["relay_id"; "manufacturer"; "model"; "series"; "relay_type";
     "voltage_class_kv"; "frequency_hz"; "config_date";
     "protected_transformer_id"; "protected_feeder_id"; "protected_load_id"]);
   ("relays_cts",
    ["relay_id"; "ct_id"; "location"; "phase"; "primary_a"; "secondary_a";
     "ratio"; "class"; "burden_va"; "core_id"]);
   ("relays_vts",
    ["relay_id"; "vt_id"; "location"; "primary_kv"; "secondary_v";
     "connection"; "burden_va"; "vt_defined"; "vt_enabled"]);
   ("relays_functions",
    ["relay_id"; "function_id"; "name"; "ansi_code"; "enabled"; "zone";
     "directionality"; "trip_output"; "ct_ref"]);
   ("relays_function_settings",
    ["setting_id"; "function_id"; "pickup_pu"; "pickup_a"; "time_dial";
     "min_time_seconds"; "thermal_constant"; "full_load_current";
     "trip_class"; "extra_json"]);
   ("relays_curves",
    ["curve_id"; "function_id"; "family"; "type"; "standard"; "pickup_pu";
     "pickup_a"; "time_dial"; "min_time_sec"; "parametric"; "extra_json"]);
   ("relays_curve_points",
    ["point_id"; "curve_id"; "base"; "multiple"; "time_seconds"; "amps";
     "volts"]);
   ("relays_parameters",
    ["parameter_id"; "relay_id"; "name"; "group_name"; "type"; "value"]);
   ("relays_selectivity",
    ["selectivity_id"; "function_id"; "upstream_device"; "downstream_device";
     "element"; "coordination_margin"])].

Definition columns_of (name : string) : list string :=
  match assoc_get table_columns name with
  | Some l => l
  | None => []
  end.

(** Every row of a table has exactly the columns of that table, in order. *)
Definition has_columns (name : string) (t : table) : Prop :=
  Forall (fun r : row => map fst r = columns_of name) t.

(** The loop over the functions of the relays shared by the function,
    settings and selectivity extraction. *)
Definition function_loop (body : pyval -> pyval -> res (list row))
    (relays : list pyval) : res table :=
  for_rows relays (fun relay =>
    relay_id <- py_get relay "@id" ;;
    pf_block <- py_get relay "ProtectionFunctions" ;;
    if negb (truthy pf_block) then Ok []
    else
      funcs <- py_get pf_block "Function" ;;
      for_rows (ensure_list funcs) (body relay_id)).

(** The count of one kind, as [_ID_COUNTERS.get(kind, 0)] reads it. *)
Definition counter_value (c : counters) (kind : string) : nat :=
  match assoc_get c kind with
  | Some n => n
  | None => O
  end.

(** From [c] to [c'] no counter went down and only the VT and CURVE
    counters may have changed. *)
Definition counters_advance (c c' : counters) : Prop :=
  forall kind,
    (counter_value c kind <= counter_value c' kind)%nat
    /\ (kind <> "VT" -> kind <> "CURVE" -> assoc_get c' kind = assoc_get c kind).

(** A computation after which the counters have only advanced, whether it
    returns or raises. *)
Definition advances {A} (m : M A) : Prop :=
  forall c, counters_advance c (snd (m c)).

(** A tree whose dicts have pairwise distinct keys without a colon, at
    every depth. *)
Fixpoint clean (v : pyval) : Prop :=
  match v with
  | PDict d =>
      NoDup (map fst d)
      /\ (fix all (l : list (string * pyval)) : Prop :=
            match l with
            | [] => True
            | kv :: r => contains_char ":" (fst kv) = false /\ clean (snd kv) /\ all r
            end) d
  | PList l =>
      (fix all (l : list pyval) : Prop :=
         match l with
         | [] => True
         | x :: r => clean x /\ all r
         end) l
  | _ => True
  end.

(** The last entry of a dict whose key has the local name [name]. *)
Definition last_with_local_name (d : list (string * pyval)) (name : string)
  : option (string * pyval) :=
  find (fun kv => String.eqb name (last_segment (fst kv))) (rev d).

(** The text of a relay's [@id] in a synthetic key ([f"{relay_id}"]). *)
Definition relay_id_text (relay : pyval) : string :=
  match relay with
  | PDict rd => py_str (dict_get rd "@id")
  | _ => ""
  end.

(** The Parameter nodes of a relay. *)
Definition parameter_nodes (relay : pyval) : list pyval :=
  match relay with
  | PDict rd =>
      match dict_get rd "Parameters" with
      | PDict pb => ensure_list (dict_get pb "Parameter")
      | _ => []
      end
  | _ => []
  end.

(** A Parameter node without a natural [@id]: its key is positional. *)
Definition positional_parameter (param : pyval) : bool :=
  match param with
  | PDict pd => negb (truthy (dict_get pd "@id"))
  | _ => true
  end.

(** The attributes of a Curve node that have a column of their own. *)
Definition curve_column_attrs : list string :=
  ["family"; "type"; "standard"; "pickupPU"; "pickupA"; "timeDial";
   "minTimeSeconds"; "parametric"].

(** The attributes of a Curve node without a column of their own. *)
Definition curve_extension (items : list (string * pyval))
  : list (string * pyval) :=
  filter (fun kv => negb (str_in (fst kv) curve_column_attrs)) (attrs_of items).

(** A function with settings, a curve, curve points and a selectivity
    block, on a relay with a CT, a VT and two parameters; and the nine
    tables of a pass over that relay. *)
Definition full_curve : list (string * pyval) :=
  [("@family", PStr "IEC"); ("@standard", PStr "IEC 60255");
   ("@timeDial", PStr "0.5"); ("@note", PStr "site A")].

Definition full_function : list (string * pyval) :=
  [("@id", PStr "F1");
   ("@ansiCode", PStr "51");
   ("Settings", PDict [("PickupPerUnit", PDict [("@value", PStr "1.25")])]);
   ("Curve", PDict full_curve);
   ("CurvePoints",
    PDict [("@base", PStr "multiple");
           ("Point", PList [PDict [("@multiple", PStr "2"); ("@timeSeconds", PStr "1.5")];
                            PDict [("@multiple", PStr "5"); ("@timeSeconds", PStr "0.4")]])]);
   ("Selectivity",
    PDict [("CoordinationMargin", PDict [("@seconds", PStr "0.3")]);
           ("DownstreamDevice", PList [PDict [("@id", PStr "R2")];
                                       PDict [("@id", PStr "R3")]]);
           ("UpstreamDevice", PDict [("@id", PStr "R0")])])].

Definition full_relay : pyval :=
  PDict [("@id", PStr "R1");
         ("@manufacturer", PStr "ACME");
         ("CTs", PDict [("CT", PDict [("@id", PStr "CT1");
                                      ("@primaryA", PStr "100");
                                      ("@secondaryA", PStr "5")])]);
         ("VTs", PDict [("@vtDefined", PStr "true");
                        ("VT", PDict [("@primaryKV", PStr "13.8")])]);
         ("ProtectionFunctions", PDict [("Function", PDict full_function)]);
         ("Parameters",
          PDict [("Parameter", PList [PDict [("@name", PStr "language")];
                                      PDict [("@name", PStr "baud")]])])].

Definition full_tables : list (string * table) :=
  Eval vm_compute in
    match normalize_tables [full_relay] _ID_COUNTERS with
    | (Ok tables, _) => tables
    | _ => []
    end.

(** A relay whose two functions carry a curve with the same [@id], each
    with one curve point; and its curve-point table. *)
Definition shared_curve_relay : pyval :=
  PDict [("@id", PStr "R1");
         ("ProtectionFunctions",
          PDict [("Function",
                  PList [PDict [("@id", PStr "F1");
                                ("Curve", PDict [("@id", PStr "C1")]);
                                ("CurvePoints",
                                 PDict [("Point", PDict [("@multiple", PStr "2")])])];
                         PDict [("@id", PStr "F2");
                                ("Curve", PDict [("@id", PStr "C1")]);
                                ("CurvePoints",
                                 PDict [("Point", PDict [("@multiple", PStr "3")])])]])])].

Definition shared_curve_points : table :=
  Eval vm_compute in
    match normalize_curve_points [shared_curve_relay] _ID_COUNTERS with
    | (Ok t, _) => t
    | _ => []
    end.

(** The VT nodes of a relay. *)
Definition vt_nodes_of (relay : pyval) : list pyval :=
  match relay with
  | PDict rd =>
      match dict_get rd "VTs" with
      | PDict vb => ensure_list (dict_get vb "VT")
      | _ => []
      end
  | _ => []
  end.

(** A relay without [@id] whose VT nodes carry no [@id] either: every VT
    row of it is keyed from the fallback counter. *)
Definition draws_vt_fallback (relay : pyval) : bool :=
  match relay with
  | PDict rd =>
      negb (truthy (dict_get rd "@id"))
      && forallb positional_parameter (vt_nodes_of relay)
  | _ => true
  end.

(** The key built from the [n]-th draw of the VT counter. *)
Definition vt_auto_id (n : nat) : pyval := PStr ("VT-AUTO-" ++ fmt_d 6 n).

(** Two relays without [@id]: one with VT flags only, one with two VT
    nodes; their VT table and the counters after it, from the counters of
    a fresh process. *)
Definition unnamed_vt_relays : list pyval :=
  [PDict [("VTs", PDict [("@vtDefined", PStr "true")])];
   PDict [("VTs", PDict [("VT", PList [PDict [("@primaryKV", PStr "13.8")];
                                       PDict [("@primaryKV", PStr "0.48")]])])]].

Definition unnamed_vt_run : table * counters :=
  Eval vm_compute in
    match normalize_vts unnamed_vt_relays _ID_COUNTERS with
    | (Ok t, c) => (t, c)
    | (_, c) => ([], c)
    end.

(** The typed columns of the settings table, each with the parameter
    names (in lower case) that are mapped to it. *)
Definition typed_setting_columns : list (string * list string) :=
  [("pickup_pu", ["pickupperunit"; "pickup_per_unit"; "pickup_pu"]);
   ("pickup_a", ["pickupamps"; "pickup_a"; "pickup_current"]);
   ("time_dial", ["timedial"; "time_dial"]);
   ("min_time_seconds", ["mintimeseconds"; "min_time_seconds"; "min_time"]);
   ("thermal_constant", ["thermalconstant"; "thermal_constant"]);
   ("full_load_current", ["fullloadcurrent"; "full_load_current"; "fla"]);
   ("trip_class", ["tripclass"; "trip_class"])].

(** The last raw setting, in the order the aggregation loops visit them,
    whose parameter name is one of [names]. *)
Definition last_mapped (names : list string) (raws : list raw_setting)
  : option raw_setting :=
  find (fun t => str_in (lower (parameter t)) names) (rev raws).

(** A function whose TimeDial element has a value and a unit. *)
Definition time_dial_with_unit : list (string * pyval) :=
  [("@id", PStr "F1");
   ("Settings", PDict [("TimeDial", PDict [("@value", PStr "0.5");
                                           ("@unit", PStr "s")])])].

Definition time_dial_with_unit_row : row :=
  Eval vm_compute in
    match function_setting_rows (PStr "R1") (PDict time_dial_with_unit) with
    | Ok [r] => r
    | _ => []
    end.

(** A result other than the [SystemExit] of [sys.exit(1)]. *)
Definition no_exit {A} (r : res A) : Prop := r <> Raise SystemExit.

Definition no_exit_m {A} (m : M A) : Prop := forall c, no_exit (fst (m c)).

(* ================================================================== *)
(** ** Vocabulary: the functions of a document *)
(* ================================================================== *)

(** The structured Function nodes of a relay, each with the [@id] of the
    relay, in document order. *)
Definition functions_of (relay : pyval) : list (pyval * list (string * pyval)) :=
  match relay with
  | PDict rd =>
      match dict_get rd "ProtectionFunctions" with
      | PDict pf =>
          flat_map (fun func => match func with
                                | PDict fd => [(dict_get rd "@id", fd)]
                                | _ => []
                                end)
                   (ensure_list (dict_get pf "Function"))
      | _ => []
      end
  | _ => []
  end.

(** The structured Function nodes of a relay list, in document order. *)
Definition doc_functions (relays : list pyval)
  : list (pyval * list (string * pyval)) :=
  flat_map functions_of relays.

(** The settings block of a function flattens to at least one raw
    setting. *)
Definition has_raw_settings (fd : list (string * pyval)) : bool :=
  match _collect_raw_settings_for_function (PDict fd) with
  | Ok (_ :: _) => true
  | _ => false
  end.

Definition functions_with_settings (relays : list pyval)
  : list (pyval * list (string * pyval)) :=
  filter (fun rf => has_raw_settings (snd rf)) (doc_functions relays).

(** The row of the settings table that belongs to a function. *)
Definition setting_row_for (rf : pyval * list (string * pyval)) (r : row) : Prop :=
  col "setting_id" r
  = PStr ("SET-" ++ py_str (fst rf) ++ "-" ++ py_str (setting_func_id (snd rf)))
  /\ col "function_id" r = setting_func_id (snd rf).

(** The Settings block of a function is absent, empty or a structured
    node, and none of its integer leaves is beyond the range of a float. *)
Definition settings_ok (func : pyval) : bool :=
  match func with
  | PDict fd =>
      block_ok (dict_get fd "Settings") && no_big_int (dict_get fd "Settings")
  | _ => true
  end.

(** Every relay is a structured node whose function block and settings
    blocks are well shaped. *)
Definition settings_shaped (relays : list pyval) : bool :=
  forallb (fun relay =>
             match relay with
             | PDict rd =>
                 block_ok (dict_get rd "ProtectionFunctions")
                 && match dict_get rd "ProtectionFunctions" with
                    | PDict pf =>
                        forallb settings_ok (ensure_list (dict_get pf "Function"))
                    | _ => true
                    end
             | _ => false
             end)
          relays.

(** Relay R1 with function F1 that has a setting, function F2 that has no
    settings block, and function F3 whose settings block is empty. *)
Definition one_of_three_with_settings : pyval :=
  PDict [("@id", PStr "R1");
         ("ProtectionFunctions",
          PDict [("Function",
                  PList [PDict [("@id", PStr "F1");
                                ("Settings",
                                 PDict [("Blocking", PDict [("@enabled", PStr "true")])])];
                         PDict [("@id", PStr "F2")];
                         PDict [("@id", PStr "F3"); ("Settings", PNone)]])])].

(** Relay R1 with function F1 that has a setting and function F2 whose
    Settings element holds a text. *)
Definition sibling_with_text_settings : pyval :=
  PDict [("@id", PStr "R1");
         ("ProtectionFunctions",
          PDict [("Function",
                  PList [PDict [("@id", PStr "F1");
                                ("Settings",
                                 PDict [("TimeDial", PDict [("@value", PStr "0.5")])])];
                         PDict [("@id", PStr "F2");
                                ("Settings", PStr "see sheet 3")]])])].

(** [save_norm_csv]: the name of the file written under output/norm_csv,
    or nothing for a frame without rows ([df.empty]). *)
Definition save_norm_csv (df : table) (name : string) : option string :=
  match df with
  | [] => None
  | _ => Some (name ++ ".csv")
  end.

(** A document with function F1, whose curve carries the id C1, and
    function F2, which has curve points and no curve; its curve table and
    its curve-point table. *)
Definition mixed_points_relay : pyval :=
  PDict [("@id", PStr "R1");
         ("ProtectionFunctions",
          PDict [("Function",
                  PList [PDict [("@id", PStr "F1");
                                ("Curve", PDict [("@id", PStr "C1")]);
                                ("CurvePoints",
                                 PDict [("Point", PList [PDict [("@multiple", PStr "2")];
                                                         PDict [("@multiple", PStr "5")]])])];
                         PDict [("@id", PStr "F2");
                                ("CurvePoints",
                                 PDict [("Point", PDict [("@multiple", PStr "3")])])]])])].

Definition mixed_points_tables : table * table :=
  Eval vm_compute in
    (match normalize_function_curves [mixed_points_relay] _ID_COUNTERS with
     | (Ok t, _) => t
     | _ => []
     end,
     match normalize_curve_points [mixed_points_relay] _ID_COUNTERS with
     | (Ok t, _) => t
     | _ => []
     end).

(* ================================================================== *)
(** ** Vocabulary: where the primary keys come from *)
(* ================================================================== *)



































(* ================================================================== *)
(** ** Loops: rows of a table come from iterations, and back *)
(* ================================================================== *)

Lemma rbind_ok {A B} (r : res A) (k : A -> res B) (b : B) :
  rbind r k = Ok b -> exists a, r = Ok a /\ k a = Ok b.
Proof. destruct r as [a|e]; simpl; [eauto | discriminate]. Qed.

(** Split every successful bind in the context into its two halves. *)
Ltac ok_inv :=
  repeat match goal with
    | H : rbind _ _ = Ok _ |- _ =>
        let a := fresh "v" in
        let E := fresh "E" in
        apply rbind_ok in H; destruct H as (a & E & H)
    | H : Ok _ = Ok _ |- _ => injection H as H; try subst
    | H : Raise _ = Ok _ |- _ => discriminate H
    end.

Lemma py_get_dict d k : py_get (PDict d) k = Ok (dict_get d k).
Proof. reflexivity. Qed.

Lemma py_get_ok x k v : py_get x k = Ok v -> exists d, x = PDict d /\ v = dict_get d k.
Proof.
  destruct x; simpl; try discriminate.
  intros H; injection H as <-. eauto.
Qed.

Lemma is_dict_true v : is_dict v = true -> exists d, v = PDict d.
Proof. destruct v; simpl; try discriminate; eauto. Qed.

Lemma for_rows_in {A} (body : A -> res (list row)) xs rows r :
  for_rows xs body = Ok rows -> In r rows ->
  exists x rs, In x xs /\ body x = Ok rs /\ In r rs.
Proof.
  revert rows; induction xs as [|x xs IH]; simpl; intros rows H Hin.
  - injection H as <-. contradiction.
  - ok_inv. apply in_app_or in Hin as [Hin|Hin].
    + exists x, v; auto.
    + destruct (IH _ E0 Hin) as (y & rs & ? & ? & ?). exists y, rs; auto.
Qed.

Lemma for_rows_each {A} (body : A -> res (list row)) xs rows x :
  for_rows xs body = Ok rows -> In x xs ->
  exists rs, body x = Ok rs /\ incl rs rows.
Proof.
  revert rows; induction xs as [|y xs IH]; simpl; intros rows H Hin; [contradiction|].
  ok_inv. destruct Hin as [->|Hin].
  - exists v; split; auto. apply incl_appl, incl_refl.
  - destruct (IH _ E0 Hin) as (rs & ? & ?). exists rs; split; auto.
    apply incl_appr; assumption.
Qed.

Lemma for_rows_total {A} (body : A -> res (list row)) xs :
  (forall x, In x xs -> exists rs, body x = Ok rs) ->
  exists rows, for_rows xs body = Ok rows.
Proof.
  induction xs as [|x xs IH]; simpl; intros H; [eauto|].
  destruct (H x (or_introl eq_refl)) as (rs & ->).
  destruct IH as (rows & ->); [intros; apply H; auto|].
  simpl; eauto.
Qed.

Lemma for_rows_app {A} (body : A -> res (list row)) xs ys a b :
  for_rows xs body = Ok a -> for_rows ys body = Ok b ->
  for_rows (xs ++ ys) body = Ok (a ++ b)%list.
Proof.
  revert a; induction xs as [|x xs IH]; simpl; intros a Ha Hb.
  - injection Ha as <-. assumption.
  - ok_inv. rewrite E, (IH _ E0 Hb). simpl. now rewrite app_assoc.
Qed.

Lemma enumerate_from_in {A} (l : list A) n i x :
  In (i, x) (enumerate_from n l) -> In x l.
Proof.
  revert n; induction l as [|y l IH]; simpl; intros n H; [assumption|].
  destruct H as [H|H]; [injection H as _ <-; auto | eauto].
Qed.

Lemma in_enumerate_from {A} (l : list A) n x :
  In x l -> exists i, In (i, x) (enumerate_from n l).
Proof.
  revert n; induction l as [|y l IH]; simpl; intros n H; [contradiction|].
  destruct H as [->|H]; [eauto|].
  destruct (IH (S n) H) as (i & ?); eauto.
Qed.

(** [safe_float] answers [None] or a float. *)
Lemma safe_float_cases v r :
  safe_float v = Ok r -> r = PNone \/ exists f, r = PFloat f.
Proof.
  destruct v; simpl; intros H; ok_inv; eauto;
    repeat match type of H with
      | (if ?b then _ else _) = _ => destruct b
      | match ?o with Some _ => _ | None => _ end = _ => destruct o
      end; injection H as <-; eauto.
Qed.

(* ================================================================== *)
(** ** Value coercion *)
(* ================================================================== *)

(** The sentinel tokens of the specification and plain numbers. *)
Example safe_float_sentinels :
  map safe_float [PStr ""; PStr "NaN"; PStr "inf"; PStr "-inf"; PStr "∞";
                  PStr "+∞"; PStr "-∞"; PStr "+inf"; PStr "abc"; PNone]
  = repeat (Ok PNone) 10
  /\ safe_float (PStr "12.5") = Ok (PFloat 12.5).
Proof. split; vm_compute; reflexivity. Qed.

(** C5: the docstring of [safe_float] promises that ["INF"] is absorbed
    like ["∞"], but the membership test is against lower-case literals only
    and uses the text as it is: upper-case and spelled-out tokens reach
    [float(text)], which reads them as infinities. *)
Theorem safe_float_upper_case_inf_is_infinite :
  safe_float (PStr "INF") = Ok (PFloat infinity)
  /\ safe_float (PStr "Infinity") = Ok (PFloat infinity)
  /\ safe_float (PStr "-Infinity") = Ok (PFloat neg_infinity)
  /\ safe_float (PStr "+Inf") = Ok (PFloat infinity)
  /\ safe_float (PStr "inf") = Ok PNone.
Proof. repeat split; vm_compute; reflexivity. Qed.


(* ================================================================== *)
(** ** CT ratio *)
(* ================================================================== *)

Lemma ct_ratio_coded primary secondary :
  (primary = PNone \/ exists f, primary = PFloat f) ->
  (secondary = PNone \/ exists f, secondary = PFloat f) ->
  ratio_as_coded primary secondary (ct_ratio primary secondary).
Proof.
  unfold ratio_as_coded, ct_ratio, float_nonzero.
  intros [->|(p & ->)] [->|(s & ->)]; simpl.
  - right; split; [intros (? & ? & ? & _); discriminate | reflexivity].
  - right; split; [intros (? & ? & ? & _); discriminate | reflexivity].
  - right; split; [intros (? & ? & ? & ? & _); discriminate
                  | destruct (PrimFloat.eqb p 0); reflexivity].
  - destruct (PrimFloat.eqb p 0) eqn:Ep; simpl.
    + right; split; [|reflexivity].
      intros (p' & s' & [= <-] & _ & Hp & _). congruence.
    + destruct (PrimFloat.eqb s 0) eqn:Es; simpl.
      * right; split; [|reflexivity].
        intros (p' & s' & _ & [= <-] & _ & Hs). congruence.
      * left. exists p, s. auto.
Qed.

(** What one iteration of the CT loop appends for a structured node. *)
Lemma ct_rows_spec relay_id idx ct rs :
  ct_rows relay_id (idx, PDict ct) = Ok rs ->
  exists r, rs = [r]
    /\ safe_float (dict_get ct "@primaryA") = Ok (col "primary_a" r)
    /\ safe_float (dict_get ct "@secondaryA") = Ok (col "secondary_a" r)
    /\ ratio_as_coded (col "primary_a" r) (col "secondary_a" r) (col "ratio" r).
Proof.
  unfold ct_rows. cbn [is_dict negb]. rewrite !py_get_dict. cbn [rbind].
  intros H. ok_inv.
  eexists; split; [reflexivity|]. cbn.
  repeat split; try assumption.
  apply ct_ratio_coded; eapply safe_float_cases; eassumption.
Qed.

(** C4 (amended): every row of the CT table comes from a structured CT
    node, carries the coerced primary and secondary currents of that node,
    and its ratio is primary / secondary exactly when both are present and
    both are non-zero, and null otherwise; conversely every structured CT
    node has such a row. *)
Theorem ct_ratio_defined_iff_both_nonzero relays t :
  normalize_cts relays = Ok t ->
  (forall r, In r t -> exists ct, ct_node_of relays ct /\ ct_row_of ct r)
  /\ (forall ct, ct_node_of relays ct -> exists r, In r t /\ ct_row_of ct r).
Proof.
  intros Ht; split.
  - intros r Hr.
    destruct (for_rows_in _ _ _ _ Ht Hr) as (relay & rs & Hrel & Hbody & Hin).
    ok_inv.
    apply py_get_ok in E as (rd & -> & ->).
    rewrite py_get_dict in E0. injection E0 as <-.
    destruct (truthy (dict_get rd "CTs")) eqn:Eb; simpl in Hbody;
      [|injection Hbody as <-; contradiction].
    ok_inv. apply py_get_ok in E as (block & Hblock & ->).
    destruct (for_rows_in _ _ _ _ Hbody Hin) as ((idx & node) & rs' & Hnode & Hrows & Hin').
    apply enumerate_from_in in Hnode.
    destruct node; try (simpl in Hrows; injection Hrows as <-; contradiction).
    destruct (ct_rows_spec _ _ _ _ Hrows) as (r' & -> & ? & ? & ?).
    destruct Hin' as [<-|[]].
    exists d; split; [exists rd, block; auto | repeat split; auto].
  - intros ct (rd & block & Hrel & Hblock & Hnode).
    destruct (for_rows_each _ _ _ _ Ht Hrel) as (rs & Hbody & Hincl).
    rewrite !py_get_dict in Hbody. cbn [rbind] in Hbody.
    rewrite Hblock in Hbody. cbn [truthy] in Hbody.
    destruct block as [|kv block']; [contradiction|].
    cbn [negb] in Hbody. rewrite py_get_dict in Hbody. cbn [rbind] in Hbody.
    destruct (in_enumerate_from _ 1%nat _ Hnode) as (idx & Hidx).
    destruct (for_rows_each _ _ _ _ Hbody Hidx) as (rs' & Hrows & Hincl').
    destruct (ct_rows_spec _ _ _ _ Hrows) as (r & -> & ? & ? & ?).
    exists r; repeat split; auto.
    apply Hincl, Hincl'. left; reflexivity.
Qed.

Lemma ct_ratio_defined_iff_both_nonzero_witness :
  normalize_cts [ct_relay_100_5] = Ok ct_table_100_5
  /\ (forall r, In r ct_table_100_5 ->
        exists ct, ct_node_of [ct_relay_100_5] ct /\ ct_row_of ct r)
  /\ (forall ct, ct_node_of [ct_relay_100_5] ct ->
        exists r, In r ct_table_100_5 /\ ct_row_of ct r).
Proof.
  split; [reflexivity|].
  apply (ct_ratio_defined_iff_both_nonzero [ct_relay_100_5] ct_table_100_5).
  reflexivity.
Defined.

(** The ratio scenarios of the specification: 100 / 5, a zero secondary
    and an absent secondary. *)
Example ct_ratio_scenarios :
  (exists r, normalize_cts [ct_relay_100_5] = Ok [r] /\ col "ratio" r = PFloat 20)
  /\ (exists r, normalize_cts [single_ct_relay [("@primaryA", PStr "100");
                                                ("@secondaryA", PStr "0")]] = Ok [r]
                /\ col "ratio" r = PNone)
  /\ (exists r, normalize_cts [single_ct_relay [("@primaryA", PStr "100")]] = Ok [r]
                /\ col "ratio" r = PNone).
Proof. repeat split; eexists; split; reflexivity. Qed.

(** C4 (as stated) fails for a CT whose primary current is zero: both
    currents are present, the secondary is non-zero, yet the ratio is
    null where the stated rule gives 0 / 5. *)
Lemma ct_ratio_zero_primary_not_as_specified :
  exists r,
    normalize_cts [single_ct_relay [("@primaryA", PStr "0"); ("@secondaryA", PStr "5")]]
    = Ok [r]
    /\ col "primary_a" r = PFloat 0
    /\ col "secondary_a" r = PFloat 5
    /\ col "ratio" r = PNone
    /\ ~ ratio_as_specified (col "primary_a" r) (col "secondary_a" r) (col "ratio" r).
Proof.
  eexists; split; [reflexivity|]. cbn.
  repeat split.
  intros [(p & s & _ & _ & _ & H)|(H & _)]; [discriminate|].
  apply H. exists 0%float, 5%float. repeat split.
Qed.

(* ================================================================== *)
(** ** Settings aggregation *)
(* ================================================================== *)

Lemma safe_float_total v : coercible v -> exists r, safe_float v = Ok r.
Proof.
  destruct v; simpl; intros H; eauto.
  - destruct b; vm_compute; eauto.
  - destruct H as (f & ->). simpl; eauto.
  - repeat match goal with
      | |- exists r, (if ?b then _ else _) = _ => destruct b
      | |- exists r, match ?o with Some _ => _ | None => _ end = _ => destruct o
      end; eauto.
  - repeat match goal with
      | |- exists r, (if ?b then _ else _) = _ => destruct b
      | |- exists r, match ?o with Some _ => _ | None => _ end = _ => destruct o
      end; eauto.
  - repeat match goal with
      | |- exists r, (if ?b then _ else _) = _ => destruct b
      | |- exists r, match ?o with Some _ => _ | None => _ end = _ => destruct o
      end; eauto.
Qed.

Lemma safe_float_raises v e : safe_float v = Raise e -> ~ coercible v.
Proof.
  intros H Hc. destruct (safe_float_total v Hc) as (r & Hr). congruence.
Qed.

Lemma assoc_get_set_same {V} (d : list (string * V)) k v :
  assoc_get (assoc_set d k v) k = Some v.
Proof.
  induction d as [|(k', v') d IH]; simpl.
  - now rewrite String.eqb_refl.
  - destruct (String.eqb k k') eqn:E; simpl; rewrite E; auto.
Qed.

Lemma assoc_get_set_other {V} (d : list (string * V)) k k' v :
  k <> k' -> assoc_get (assoc_set d k' v) k = assoc_get d k.
Proof.
  intros Hne. induction d as [|(k1, v1) d IH]; simpl.
  - destruct (String.eqb_spec k k'); congruence.
  - destruct (String.eqb_spec k' k1) as [->|]; simpl.
    + destruct (String.eqb_spec k k1); congruence.
    + destruct (String.eqb_spec k k1); auto.
Qed.

Lemma assoc_set_fresh {V} (d : list (string * V)) k v :
  ~ In k (map fst d) -> assoc_set d k v = (d ++ [(k, v)])%list.
Proof.
  induction d as [|(k', v') d IH]; simpl; intros H; [reflexivity|].
  destruct (String.eqb_spec k k') as [->|]; [tauto|].
  rewrite IH; tauto.
Qed.

(** One step of the aggregation records the setting in [extra] and
    nothing else happens to [extra]. *)
Lemma agg_step_extra p a item a' :
  agg_step p a item = Ok a' ->
  extra a' = extra_put (extra a) (mk_raw p (fst item) (snd item)).
Proof.
  destruct item as (attr, val). unfold agg_step, extra_put, composite_key. simpl.
  repeat match goal with
    | |- (if ?b then _ else _) = _ -> _ => destruct b
    end; intros H; ok_inv; reflexivity.
Qed.

Lemma agg_step_total p a item :
  coercible (snd item) -> exists a', agg_step p a item = Ok a'.
Proof.
  destruct item as (attr, val). intros Hc.
  destruct (safe_float_total _ Hc) as (r & Hr). simpl in Hr.
  unfold agg_step. simpl.
  repeat match goal with
    | |- exists _, (if ?b then _ else _) = _ => destruct b
    end; try rewrite Hr; simpl; eauto.
Qed.

Lemma fold_agg_step_extra p items a a' :
  fold_res (agg_step p) items a = Ok a' ->
  extra a' = fold_left extra_put
               (map (fun av => mk_raw p (fst av) (snd av)) items) (extra a).
Proof.
  revert a; induction items as [|item items IH]; simpl; intros a H.
  - injection H as <-. reflexivity.
  - ok_inv. rewrite (IH _ H). f_equal. eapply agg_step_extra; eassumption.
Qed.

Lemma fold_agg_extra bp a a' :
  fold_res (fun a (pi : string * list (string * pyval)) =>
              fold_res (agg_step (fst pi)) (snd pi) a) bp a = Ok a' ->
  extra a' = fold_left extra_put (flatten_by_param bp) (extra a).
Proof.
  revert a; induction bp as [|pi bp IH]; simpl; intros a H.
  - injection H as <-. reflexivity.
  - ok_inv. rewrite fold_left_app, (IH _ H). f_equal.
    apply fold_agg_step_extra; assumption.
Qed.

(** The extension map is the raw settings written one by one into an
    empty dict, in grouped order. *)
Lemma aggregate_extra bp a :
  aggregate bp = Ok a -> extra a = fold_left extra_put (flatten_by_param bp) [].
Proof. intros H. apply (fold_agg_extra bp agg_init a H). Qed.

Lemma fold_agg_step_total p items a :
  Forall (fun av : string * pyval => coercible (snd av)) items ->
  exists a', fold_res (agg_step p) items a = Ok a'.
Proof.
  intros H; revert a; induction H as [|item items Hc _ IH]; simpl; intros a; [eauto|].
  destruct (agg_step_total p a item Hc) as (a1 & ->). simpl. apply IH.
Qed.

Lemma aggregate_total bp :
  Forall (fun t => coercible (value t)) (flatten_by_param bp) ->
  exists a, aggregate bp = Ok a.
Proof.
  unfold aggregate. generalize agg_init.
  induction bp as [|pi bp IH]; simpl; intros a H; [eauto|].
  apply Forall_app in H as (H1 & H2).
  destruct (fold_agg_step_total (fst pi) (snd pi) a) as (a1 & ->).
  - rewrite Forall_map in H1. exact H1.
  - simpl. apply IH; assumption.
Qed.

Lemma by_param_add_cons k l bp item :
  by_param_add ((k, l) :: bp) item
  = if String.eqb (parameter item) k
    then (k, (l ++ [(attribute item, value item)])%list) :: bp
    else (k, l) :: by_param_add bp item.
Proof.
  unfold by_param_add. simpl. destruct (String.eqb (parameter item) k); reflexivity.
Qed.

(** Grouping by parameter keeps every raw setting, once. *)
Lemma by_param_add_perm bp item :
  Permutation (flatten_by_param (by_param_add bp item))
              (flatten_by_param bp ++ [item]).
Proof.
  induction bp as [|(k, l) bp IH].
  - destruct item; apply Permutation_refl.
  - rewrite by_param_add_cons.
    destruct (String.eqb_spec (parameter item) k) as [<-|Hne]; simpl.
    + rewrite map_app, <- !app_assoc. apply Permutation_app_head.
      destruct item; simpl. apply Permutation_cons_append.
    + rewrite <- app_assoc. apply Permutation_app_head, IH.
Qed.

Lemma fold_by_param_perm raws bp :
  Permutation (flatten_by_param (fold_left by_param_add raws bp))
              (flatten_by_param bp ++ raws).
Proof.
  revert bp; induction raws as [|t raws IH]; intros bp; simpl.
  - rewrite app_nil_r. apply Permutation_refl.
  - eapply Permutation_trans; [apply IH|].
    replace (flatten_by_param bp ++ t :: raws)%list
      with ((flatten_by_param bp ++ [t]) ++ raws)%list
      by (rewrite <- app_assoc; reflexivity).
    apply Permutation_app_tail, by_param_add_perm.
Qed.

(** With pairwise distinct composite keys nothing is overwritten. *)
Lemma fold_extra_put_nodup l acc :
  NoDup (map fst acc ++ map composite_key l) ->
  fold_left extra_put l acc = (acc ++ map extra_entry l)%list.
Proof.
  revert acc; induction l as [|t l IH]; simpl; intros acc H.
  - now rewrite app_nil_r.
  - unfold extra_put at 2. rewrite assoc_set_fresh.
    + rewrite IH.
      * rewrite <- app_assoc. reflexivity.
      * rewrite map_app, <- app_assoc. exact H.
    + apply NoDup_remove_2 in H. intros Hin. apply H, in_or_app. auto.
Qed.

Lemma fold_extra_put_get_notin l acc k :
  ~ In k (map composite_key l) ->
  assoc_get (fold_left extra_put l acc) k = assoc_get acc k.
Proof.
  revert acc; induction l as [|t l IH]; simpl; intros acc H; [reflexivity|].
  rewrite IH by tauto. unfold extra_put. apply assoc_get_set_other.
  intros ->. tauto.
Qed.

(** A raw setting is found under its composite key with its own value as
    soon as every setting with the same key carries the same value. *)
Lemma fold_extra_put_get l acc t :
  In t l ->
  (forall t', In t' l -> composite_key t' = composite_key t -> value t' = value t) ->
  assoc_get (fold_left extra_put l acc) (composite_key t) = Some (value t).
Proof.
  revert acc t; induction l as [|t1 l IH]; simpl; intros acc t Hin Hsame; [contradiction|].
  destruct (in_dec string_dec (composite_key t) (map composite_key l)) as [Hk|Hk].
  - apply in_map_iff in Hk as (t' & Hk' & Hin').
    rewrite <- Hk', <- (Hsame t' (or_intror Hin') Hk').
    apply IH; [assumption|].
    intros t'' Hin'' Hk''.
    rewrite (Hsame t' (or_intror Hin') Hk'). apply Hsame; [auto | congruence].
  - destruct Hin as [->|Hin]; [|exfalso; apply Hk, in_map; assumption].
    rewrite fold_extra_put_get_notin by assumption.
    apply assoc_get_set_same.
Qed.

Lemma assoc_get_in_nodup {V} (d : list (string * V)) k v :
  NoDup (map fst d) -> In (k, v) d -> assoc_get d k = Some v.
Proof.
  induction d as [|(k', v') d IH]; simpl; intros Hnd Hin; [contradiction|].
  inversion Hnd as [|? ? Hnotin Hnd']; subst.
  destruct Hin as [[= -> ->]|Hin].
  - now rewrite String.eqb_refl.
  - destruct (String.eqb_spec k k') as [->|]; [|auto].
    exfalso. apply Hnotin. change k' with (fst (k', v)). apply in_map; assumption.
Qed.

Lemma collect_dict d :
  _collect_raw_settings_for_function (PDict d)
  = (if negb (truthy (dict_get d "Settings")) then Ok []
     else rbind (py_items (dict_get d "Settings"))
                (fun items => Ok (flat_map settings_item items))).
Proof. reflexivity. Qed.

(** What the body of the function loop does with the raw settings. *)
Lemma function_setting_rows_spec relay_id d raws :
  _collect_raw_settings_for_function (PDict d) = Ok raws ->
  match raws with
  | [] => function_setting_rows relay_id (PDict d) = Ok []
  | _ =>
      match aggregate (fold_left by_param_add raws []) with
      | Ok a =>
          exists r, function_setting_rows relay_id (PDict d) = Ok [r]
            /\ setting_row_of relay_id (py_or (dict_get d "@id") (PStr "")) a r
      | Raise e => function_setting_rows relay_id (PDict d) = Raise e
      end
  end.
Proof.
  intros Hc. unfold function_setting_rows. cbn [is_dict negb].
  rewrite py_get_dict. cbn [rbind]. rewrite Hc. cbn [rbind].
  destruct raws as [|t raws]; [reflexivity|].
  destruct (aggregate _) as [a|e]; [|reflexivity].
  cbn [rbind]. eexists; split; [reflexivity|].
  repeat split.
Qed.

Lemma settings_row_origin relays t r :
  normalize_function_settings relays = Ok t -> In r t ->
  exists relay_id fd rs,
    function_node_of relays relay_id fd
    /\ function_setting_rows relay_id (PDict fd) = Ok rs /\ In r rs.
Proof.
  intros Ht Hr.
  destruct (for_rows_in _ _ _ _ Ht Hr) as (relay & rs & Hrel & Hbody & Hin).
  ok_inv.
  apply py_get_ok in E as (rd & -> & ->).
  rewrite py_get_dict in E0. injection E0 as <-.
  destruct (truthy (dict_get rd "ProtectionFunctions")) eqn:Eb; simpl in Hbody;
    [|injection Hbody as <-; contradiction].
  ok_inv. apply py_get_ok in E as (pf & Hpf & ->).
  destruct (for_rows_in _ _ _ _ Hbody Hin) as (func & rs' & Hfunc & Hrows & Hin').
  destruct func; try (simpl in Hrows; injection Hrows as <-; contradiction).
  exists (dict_get rd "@id"), d, rs'. repeat split; auto.
  exists rd, pf; auto.
Qed.

Lemma settings_node_rows relays t relay_id fd :
  normalize_function_settings relays = Ok t ->
  function_node_of relays relay_id fd ->
  exists rs, function_setting_rows relay_id (PDict fd) = Ok rs /\ incl rs t.
Proof.
  intros Ht (rd & pf & Hrel & -> & Hpf & Hnode).
  destruct (for_rows_each _ _ _ _ Ht Hrel) as (rs & Hbody & Hincl).
  rewrite !py_get_dict in Hbody. cbn [rbind] in Hbody.
  rewrite Hpf in Hbody. cbn [truthy] in Hbody.
  destruct pf as [|kv pf']; [contradiction|].
  cbn [negb] in Hbody. rewrite py_get_dict in Hbody. cbn [rbind] in Hbody.
  destruct (for_rows_each _ _ _ _ Hbody Hnode) as (rs' & Hrows & Hincl').
  exists rs'; split; [assumption|].
  intros x Hx. apply Hincl, Hincl', Hx.
Qed.

Lemma fold_extra_put_nonempty l acc :
  l <> [] \/ acc <> [] -> fold_left extra_put l acc <> [].
Proof.
  revert acc; induction l as [|t l IH]; simpl; intros acc H.
  - destruct H; congruence.
  - apply IH. right. unfold extra_put.
    destruct acc as [|(k, v) acc]; simpl; [discriminate|].
    destruct (String.eqb _ k); discriminate.
Qed.

(** C6 (as stated) fails on its own scenario: the extension map of the
    single row also holds the mapped setting PickupPerUnit.value, so it is
    not the one-entry map of the unmapped setting. *)
Lemma scenario_extension_map_keeps_mapped_setting :
  exists r,
    normalize_function_settings [scenario_relay] = Ok [r]
    /\ col "pickup_pu" r = PFloat 1.25
    /\ col "extra_json" r
       = PStr (json_dumps (PDict [("PickupPerUnit.value", PStr "1.25");
                                  ("Blocking.enabled", PStr "true")]))
    /\ col "extra_json" r
       <> PStr (json_dumps (PDict [("Blocking.enabled", PStr "true")])).
Proof.
  eexists; split; [reflexivity|]. cbn -[json_dumps].
  repeat split. vm_compute. discriminate.
Qed.

(** C6 (amended): when the N raw settings of a function, mapped to a
    canonical column or not, have pairwise distinct composite keys, the
    extension map of its row has exactly N entries and each raw value is
    found under its composite key; in the scenario the row has
    pickup_pu = 1.25 and the two-entry map of both settings. *)
Theorem extension_map_has_every_raw_setting :
  (forall relay_id fd raws,
     _collect_raw_settings_for_function (PDict fd) = Ok raws ->
     raws <> [] ->
     NoDup (map composite_key raws) ->
     Forall (fun t => coercible (value t)) raws ->
     exists r ext,
       function_setting_rows relay_id (PDict fd) = Ok [r]
       /\ col "extra_json" r = PStr (json_dumps (PDict ext))
       /\ List.length ext = List.length raws
       /\ (forall t, In t raws -> assoc_get ext (composite_key t) = Some (value t)))
  /\ (exists r,
        normalize_function_settings [scenario_relay] = Ok [r]
        /\ col "pickup_pu" r = PFloat 1.25
        /\ col "extra_json" r
           = PStr (json_dumps (PDict [("PickupPerUnit.value", PStr "1.25");
                                      ("Blocking.enabled", PStr "true")]))).
Proof.
  split.
  - intros relay_id fd raws Hc Hne Hnd Hco.
    pose proof (function_setting_rows_spec relay_id fd raws Hc) as Hspec.
    pose proof (fold_by_param_perm raws []) as Hperm. simpl in Hperm.
    destruct raws as [|t0 raws]; [congruence|].
    set (bp := fold_left by_param_add (t0 :: raws) []) in *.
    destruct (aggregate_total bp) as (a & Ha).
    { eapply Permutation_Forall; [|exact Hco]. apply Permutation_sym, Hperm. }
    rewrite Ha in Hspec. destruct Hspec as (r & Hr & _ & _ & _ & Hx).
    assert (Hext : extra a = map extra_entry (flatten_by_param bp)).
    { rewrite (aggregate_extra _ _ Ha). apply (fold_extra_put_nodup _ []). simpl.
      eapply Permutation_NoDup; [|exact Hnd].
      apply Permutation_map, Permutation_sym, Hperm. }
    assert (Hlen : List.length (extra a) = List.length (t0 :: raws)).
    { rewrite Hext, length_map. apply Permutation_length, Hperm. }
    exists r, (extra a). repeat split; auto.
    + rewrite Hx. destruct (extra a); [discriminate Hlen | reflexivity].
    + intros t Ht. rewrite Hext. apply assoc_get_in_nodup.
      * rewrite map_map. simpl.
        eapply Permutation_NoDup; [|exact Hnd].
        apply (Permutation_map composite_key), Permutation_sym, Hperm.
      * apply (in_map extra_entry).
        eapply Permutation_in; [apply Permutation_sym, Hperm | exact Ht].
  - eexists; split; [reflexivity|]. cbn -[json_dumps]. split; reflexivity.
Qed.

Lemma extension_map_has_every_raw_setting_witness :
  exists r ext,
    function_setting_rows (PStr "R1") (PDict scenario_function) = Ok [r]
    /\ col "extra_json" r = PStr (json_dumps (PDict ext))
    /\ List.length ext = List.length scenario_raws
    /\ (forall t, In t scenario_raws ->
          assoc_get ext (composite_key t) = Some (value t)).
Proof.
  apply (proj1 extension_map_has_every_raw_setting (PStr "R1") scenario_function
               scenario_raws).
  - reflexivity.
  - discriminate.
  - repeat constructor; simpl; intuition discriminate.
  - repeat constructor.
Defined.

(** C7 (as stated) fails when two raw settings of a function have the same
    composite key: the later one overwrites the earlier, whose raw value is
    no longer in the extension map. *)
Lemma colliding_composite_key_loses_a_setting :
  exists r,
    _collect_raw_settings_for_function (PDict colliding_function)
    = Ok [mk_raw "A.b" "c" (PStr "1"); mk_raw "A" "b.c" (PStr "2")]
    /\ function_setting_rows (PStr "R1") (PDict colliding_function) = Ok [r]
    /\ col "extra_json" r = PStr (json_dumps (PDict [("A.b.c", PStr "2")]))
    /\ assoc_get [("A.b.c", PStr "2")] (composite_key (mk_raw "A.b" "c" (PStr "1")))
       <> Some (value (mk_raw "A.b" "c" (PStr "1"))).
Proof.
  eexists. split; [reflexivity|]. split; [reflexivity|].
  split; [reflexivity|]. vm_compute. discriminate.
Qed.

(** C7 (amended): every raw setting of a function, mapped to a canonical
    column or not, is found in the extension map of the emitted row under
    its composite key with its raw value, provided every raw setting of the
    function with the same composite key carries the same value. *)
Theorem raw_setting_kept_under_composite_key relay_id fd raws r :
  _collect_raw_settings_for_function (PDict fd) = Ok raws ->
  function_setting_rows relay_id (PDict fd) = Ok [r] ->
  exists ext,
    col "extra_json" r = PStr (json_dumps (PDict ext))
    /\ forall t, In t raws ->
         (forall t', In t' raws -> composite_key t' = composite_key t ->
                     value t' = value t) ->
         assoc_get ext (composite_key t) = Some (value t).
Proof.
  intros Hc Hr.
  pose proof (function_setting_rows_spec relay_id fd raws Hc) as Hspec.
  pose proof (fold_by_param_perm raws []) as Hperm. simpl in Hperm.
  destruct raws as [|t0 raws]; [congruence|].
  set (bp := fold_left by_param_add (t0 :: raws) []) in *.
  destruct (aggregate bp) as [a|e] eqn:Ha; [|congruence].
  destruct Hspec as (r' & Hr' & _ & _ & _ & Hx).
  rewrite Hr' in Hr. injection Hr as ->.
  pose proof (aggregate_extra _ _ Ha) as Hext.
  exists (extra a); split.
  - rewrite Hx.
    assert (Hne : extra a <> []).
    { rewrite Hext. apply fold_extra_put_nonempty. left.
      intros Hnil. apply Permutation_length in Hperm. rewrite Hnil in Hperm.
      discriminate Hperm. }
    destruct (extra a); [congruence | reflexivity].
  - intros t Ht Hsame. rewrite Hext. apply fold_extra_put_get.
    + eapply Permutation_in; [apply Permutation_sym, Hperm | exact Ht].
    + intros t' Ht'. apply Hsame.
      eapply Permutation_in; [exact Hperm | exact Ht'].
Qed.

Lemma raw_setting_kept_under_composite_key_witness :
  exists ext,
    col "extra_json"
        [("setting_id", PStr "SET-R1-F1"); ("function_id", PStr "F1");
         ("pickup_pu", PFloat 1.25); ("pickup_a", PNone); ("time_dial", PNone);
         ("min_time_seconds", PNone); ("thermal_constant", PNone);
         ("full_load_current", PNone); ("trip_class", PNone);
         ("extra_json",
          PStr (json_dumps (PDict [("PickupPerUnit.value", PStr "1.25");
                                   ("Blocking.enabled", PStr "true")])))]
    = PStr (json_dumps (PDict ext))
    /\ forall t, In t scenario_raws ->
         (forall t', In t' scenario_raws -> composite_key t' = composite_key t ->
                     value t' = value t) ->
         assoc_get ext (composite_key t) = Some (value t).
Proof.
  apply (raw_setting_kept_under_composite_key (PStr "R1") scenario_function
           scenario_raws); reflexivity.
Defined.

(* ================================================================== *)
(** ** Primary keys of the settings table *)
(* ================================================================== *)

Lemma append_inj_l (p a b : string) : p ++ a = p ++ b -> a = b.
Proof.
  induction p as [|c p IH]; simpl; intros H; [assumption|].
  injection H as H. auto.
Qed.

(* ================================================================== *)
(** ** Fallback counters and repeated runs *)
(* ================================================================== *)

Lemma counter_free_ret {A} (a : A) : counter_free (mret a).
Proof. exists (Ok a). reflexivity. Qed.

Lemma counter_free_lift {A} (r : res A) : counter_free (lift r).
Proof. exists r. reflexivity. Qed.

Lemma counter_free_bind {A B} (m : M A) (k : A -> M B) :
  counter_free m ->
  (forall a c, m c = (Ok a, c) -> counter_free (k a)) ->
  counter_free (mbind m k).
Proof.
  intros (r & Hm) Hk. destruct r as [a|e].
  - destruct (Hk a [] (Hm [])) as (r' & Hr').
    exists r'. intros c. unfold mbind. rewrite Hm. apply Hr'.
  - exists (Raise e). intros c. unfold mbind. rewrite Hm. reflexivity.
Qed.

Lemma counter_free_for_rows {A} (xs : list A) (body : A -> M (list row)) :
  (forall x, In x xs -> counter_free (body x)) ->
  counter_free (for_rows_m xs body).
Proof.
  induction xs as [|x xs IH]; simpl; intros H.
  - apply counter_free_ret.
  - apply counter_free_bind; [apply H; auto|]. intros a _ _.
    apply counter_free_bind; [apply IH; intros; apply H; auto|]. intros b _ _.
    apply counter_free_ret.
Qed.

Lemma lift_ok {A} (r : res A) (a : A) c : lift r c = (Ok a, c) -> r = Ok a.
Proof. unfold lift. intros [= ->]. reflexivity. Qed.

Lemma make_vt_id_counter_free relay_id xml_id idx :
  truthy xml_id || truthy relay_id = true ->
  counter_free (make_vt_id relay_id xml_id idx).
Proof.
  unfold make_vt_id. intros H.
  destruct (truthy xml_id); [apply counter_free_ret|].
  simpl in H. rewrite H. apply counter_free_ret.
Qed.

Lemma make_curve_id_counter_free relay_id func_id xml_id idx :
  truthy xml_id || (truthy relay_id && truthy func_id) = true ->
  counter_free (make_curve_id relay_id func_id xml_id idx).
Proof.
  unfold make_curve_id. intros H.
  destruct (truthy xml_id); [apply counter_free_ret|].
  simpl in H. rewrite H. apply counter_free_ret.
Qed.

(** Chain of binds whose steps are lifted pure computations; the goals
    left are the steps that may draw a counter. *)
Ltac cf_auto :=
  repeat first
    [ apply counter_free_ret
    | apply counter_free_lift
    | match goal with
      | |- counter_free (if ?b then _ else _) => destruct b
      | |- counter_free (mbind (lift _) _) =>
          apply counter_free_bind; [apply counter_free_lift | intros ? ? ?]
      end ].

Lemma vt_rows_counter_free relay_id vt_defined vt_enabled ivt :
  truthy relay_id = true ->
  counter_free (vt_rows relay_id vt_defined vt_enabled ivt).
Proof.
  intros Hid. destruct ivt as (idx, vt). unfold vt_rows. cf_auto.
  apply counter_free_bind; [|intros; cf_auto].
  apply make_vt_id_counter_free. rewrite Hid. apply orb_true_r.
Qed.

Lemma normalize_vts_counter_free relays :
  forallb relay_has_ids relays = true -> counter_free (normalize_vts relays).
Proof.
  intros Hall. apply counter_free_for_rows. intros relay Hin.
  rewrite forallb_forall in Hall. specialize (Hall relay Hin).
  apply counter_free_bind; [apply counter_free_lift|]. intros relay_id c Hget.
  apply lift_ok, py_get_ok in Hget as (rd & -> & ->).
  cbn [relay_has_ids] in Hall. apply andb_prop in Hall as (Hid & _).
  cf_auto.
  match goal with |- counter_free (match ?v with _ => _ end) => destruct v end.
  2-7: apply counter_free_for_rows; intros; apply vt_rows_counter_free; exact Hid.
  apply counter_free_bind; [|intros; cf_auto].
  apply make_vt_id_counter_free. rewrite Hid. reflexivity.
Qed.

Lemma curve_rows_counter_free relay_id func_id icurve :
  truthy relay_id = true -> truthy func_id = true ->
  counter_free (curve_rows relay_id func_id icurve).
Proof.
  intros Hr Hf. destruct icurve as (idx, curve). unfold curve_rows.
  destruct curve; try apply counter_free_ret.
  apply counter_free_bind.
  - apply make_curve_id_counter_free. rewrite Hr, Hf. apply orb_true_r.
  - intros; unfold dict_pop; cf_auto.
Qed.

Lemma function_curve_rows_counter_free relay_id func :
  truthy relay_id = true -> func_has_id func = true ->
  counter_free (function_curve_rows relay_id func).
Proof.
  intros Hr Hf. unfold function_curve_rows.
  destruct func; cbn [is_dict negb]; try apply counter_free_ret.
  apply counter_free_bind; [apply counter_free_lift|]. intros func_id c Hget.
  apply lift_ok in Hget. rewrite py_get_dict in Hget. injection Hget as <-.
  cf_auto. apply counter_free_for_rows. intros.
  apply curve_rows_counter_free; assumption.
Qed.

Lemma function_point_rows_counter_free relay_id func :
  truthy relay_id = true -> func_has_id func = true ->
  counter_free (function_point_rows relay_id func).
Proof.
  intros Hr Hf. unfold function_point_rows.
  destruct func; cbn [is_dict negb]; try apply counter_free_ret.
  apply counter_free_bind; [apply counter_free_lift|]. intros func_id c Hget.
  apply lift_ok in Hget. rewrite py_get_dict in Hget. injection Hget as <-.
  cf_auto. apply counter_free_bind; [|intros; cf_auto].
  apply make_curve_id_counter_free. cbn [func_has_id] in Hf.
  rewrite Hr, Hf. apply orb_true_r.
Qed.

(** The loop over the functions of the relays, for a body that is
    counter-free on keyed functions. *)
Lemma function_loop_counter_free (body : pyval -> pyval -> M (list row)) relays :
  (forall relay_id func, truthy relay_id = true -> func_has_id func = true ->
                         counter_free (body relay_id func)) ->
  forallb relay_has_ids relays = true ->
  counter_free
    (for_rows_m relays (fun relay =>
       (relay_id <- lift (py_get relay "@id") ;;
        pf_block <- lift (py_get relay "ProtectionFunctions") ;;
        if negb (truthy pf_block) then mret []
        else
          funcs <- lift (py_get pf_block "Function") ;;
          for_rows_m (ensure_list funcs) (body relay_id))%M)).
Proof.
  intros Hbody Hall. apply counter_free_for_rows. intros relay Hin.
  rewrite forallb_forall in Hall. specialize (Hall relay Hin).
  apply counter_free_bind; [apply counter_free_lift|]. intros relay_id c Hget.
  apply lift_ok, py_get_ok in Hget as (rd & -> & ->).
  cbn [relay_has_ids] in Hall. apply andb_prop in Hall as (Hid & Hfs).
  apply counter_free_bind; [apply counter_free_lift|]. intros pf_block c' Hpf.
  apply lift_ok in Hpf. rewrite py_get_dict in Hpf. injection Hpf as <-.
  destruct (negb (truthy _)); [apply counter_free_ret|].
  apply counter_free_bind; [apply counter_free_lift|]. intros funcs c'' Hfuncs.
  apply lift_ok, py_get_ok in Hfuncs as (pf & Hpf & ->).
  rewrite Hpf in Hfs. rewrite forallb_forall in Hfs.
  apply counter_free_for_rows. intros func Hfunc.
  apply Hbody; auto.
Qed.

(** With every relay and function keyed, a pass leaves the counters as
    they are and its tables do not depend on them. *)
Lemma normalize_tables_counter_free relays :
  forallb relay_has_ids relays = true -> counter_free (normalize_tables relays).
Proof.
  intros Hall. unfold normalize_tables. cf_auto.
  apply counter_free_bind; [apply normalize_vts_counter_free; assumption|].
  intros; cf_auto.
  apply counter_free_bind;
    [apply (function_loop_counter_free function_curve_rows);
     [apply function_curve_rows_counter_free | assumption]|].
  intros.
  apply counter_free_bind;
    [apply (function_loop_counter_free function_point_rows);
     [apply function_point_rows_counter_free | assumption]|].
  intros; cf_auto.
Qed.

(** C1 (as stated) fails: [_ID_COUNTERS] is a module-level dictionary that
    no run re-initialises, so the second run in a process continues the
    VT fallback counter where the first run stopped. *)
Lemma second_run_continues_fallback_counter :
  exists t1 t2,
    run_twice unkeyed_document = (Ok t1, Ok t2)
    /\ map (col "vt_id") (table_named "relays_vts" t1) = [PStr "VT-AUTO-000001"]
    /\ map (col "vt_id") (table_named "relays_vts" t2) = [PStr "VT-AUTO-000002"]
    /\ fst (run_twice unkeyed_document) <> snd (run_twice unkeyed_document).
Proof.
  do 2 eexists. split; [vm_compute; reflexivity|].
  split; [reflexivity|]. split; [reflexivity|].
  vm_compute. discriminate.
Qed.

(** C1 (amended): when every relay and every structured protection
    function of the document carries a non-empty [@id], so that no fallback
    counter is drawn, two runs in the same process yield identical record
    sets for every entity kind, and so does a run from any state of the
    counters. *)
Theorem keyed_document_runs_identically data relays :
  get_relays_list data = Ok relays ->
  forallb relay_has_ids relays = true ->
  fst (run_twice data) = snd (run_twice data)
  /\ (forall c c',
        fst (run_normalize_pipeline data c) = fst (run_normalize_pipeline data c')).
Proof.
  intros Hrel Hall.
  destruct (normalize_tables_counter_free relays Hall) as (r & Hr).
  assert (Hrun : forall c, run_normalize_pipeline data c = (r, c)).
  { intros c. unfold run_normalize_pipeline, mbind, lift. rewrite Hrel. apply Hr. }
  split.
  - unfold run_twice. rewrite Hrun, Hrun. reflexivity.
  - intros c c'. rewrite !Hrun. reflexivity.
Qed.

Lemma keyed_document_runs_identically_witness :
  fst (run_twice (document [scenario_relay]))
  = snd (run_twice (document [scenario_relay]))
  /\ (forall c c',
        fst (run_normalize_pipeline (document [scenario_relay]) c)
        = fst (run_normalize_pipeline (document [scenario_relay]) c')).
Proof.
  apply (keyed_document_runs_identically (document [scenario_relay]) [scenario_relay]);
    reflexivity.
Defined.

(* ================================================================== *)
(** ** Curve points and the curve they reference *)
(* ================================================================== *)

Lemma mbind_ok {A B} (m : M A) (k : A -> M B) c b c' :
  mbind m k c = (Ok b, c') ->
  exists a c0, m c = (Ok a, c0) /\ k a c0 = (Ok b, c').
Proof.
  unfold mbind. destruct (m c) as ([a|e], c0); [eauto | discriminate].
Qed.

Lemma lift_ok_inv {A} (r : res A) c a c' :
  lift r c = (Ok a, c') -> r = Ok a /\ c' = c.
Proof. unfold lift. intros [= -> ->]. auto. Qed.

Lemma mret_ok {A} (a b : A) c c' : mret a c = (Ok b, c') -> a = b /\ c' = c.
Proof. unfold mret. intros [= -> ->]. auto. Qed.

(** Split every successful step of a stateful chain in the context. *)
Ltac m_inv :=
  repeat match goal with
    | H : mbind _ _ _ = (Ok _, _) |- _ =>
        let a := fresh "v" in
        let c := fresh "c" in
        let E := fresh "E" in
        apply mbind_ok in H; destruct H as (a & c & E & H)
    | H : lift _ _ = (Ok _, _) |- _ =>
        let E := fresh "E" in
        apply lift_ok_inv in H; destruct H as (E & ->)
    | H : mret _ _ = (Ok _, _) |- _ =>
        let E := fresh "E" in
        apply mret_ok in H; destruct H as (E & ->)
    end.

(** Resolve the [.get] calls found in the context. *)
Ltac get_inv :=
  repeat match goal with
    | H : py_get (PDict _) _ = Ok _ |- _ =>
        rewrite py_get_dict in H; injection H as <-
    | H : py_get ?x _ = Ok _ |- _ =>
        is_var x;
        let d := fresh "d" in
        apply py_get_ok in H; destruct H as (d & -> & ->)
    end.

Lemma for_rows_m_in {A} (body : A -> M (list row)) xs c rows c' r :
  for_rows_m xs body c = (Ok rows, c') -> In r rows ->
  exists x c0 c0' rs, In x xs /\ body x c0 = (Ok rs, c0') /\ In r rs.
Proof.
  revert c rows; induction xs as [|x xs IH]; simpl; intros c rows H Hin.
  - m_inv. subst. contradiction.
  - m_inv. subst. apply in_app_or in Hin as [Hin|Hin].
    + exists x, c, c0, v; auto.
    + destruct (IH _ _ E0 Hin) as (y & d0 & d0' & rs & ? & ? & ?).
      exists y, d0, d0', rs; auto.
Qed.

Lemma for_rows_m_each {A} (body : A -> M (list row)) xs c rows c' x :
  for_rows_m xs body c = (Ok rows, c') -> In x xs ->
  exists c0 c0' rs, body x c0 = (Ok rs, c0') /\ incl rs rows.
Proof.
  revert c rows; induction xs as [|y xs IH]; simpl; intros c rows H Hin; [contradiction|].
  m_inv. subst. destruct Hin as [->|Hin].
  - exists c, c0, v; split; auto. apply incl_appl, incl_refl.
  - destruct (IH _ _ E0 Hin) as (d0 & d0' & rs & ? & ?).
    exists d0, d0', rs; split; auto. apply incl_appr; assumption.
Qed.

Lemma function_loop_m_in body relays c rows c' r :
  (forall relay_id func c0 rs c0',
     is_dict func = false -> body relay_id func c0 = (Ok rs, c0') -> rs = []) ->
  function_loop_m body relays c = (Ok rows, c') -> In r rows ->
  exists relay_id fd c0 c0' rs,
    function_node_of relays relay_id fd
    /\ body relay_id (PDict fd) c0 = (Ok rs, c0') /\ In r rs.
Proof.
  intros Hskip Ht Hr.
  destruct (for_rows_m_in _ _ _ _ _ _ Ht Hr)
    as (relay & c0 & c0' & rs & Hrel & Hbody & Hin).
  m_inv. get_inv.
  match type of Hbody with
  | context [truthy ?b] => destruct (truthy b) eqn:Eb
  end; cbn [negb] in Hbody; [|m_inv; subst; contradiction].
  m_inv.
  match goal with
  | H : py_get _ "Function" = Ok _ |- _ =>
      apply py_get_ok in H; destruct H as (pf & Hpf & ->)
  end.
  destruct (for_rows_m_in _ _ _ _ _ _ Hbody Hin)
    as (func & d0 & d0' & rs' & Hfunc & Hrows & Hin').
  destruct (is_dict func) eqn:Ed.
  - apply is_dict_true in Ed as (fd & ->).
    eexists _, fd, d0, d0', rs'. split; [|split; [exact Hrows | exact Hin']].
    eexists _, pf. split; [exact Hrel|]. split; [reflexivity|]. split; assumption.
  - rewrite (Hskip _ _ _ _ _ Ed Hrows) in Hin'. contradiction.
Qed.

Lemma function_loop_m_each body relays c rows c' relay_id fd :
  function_loop_m body relays c = (Ok rows, c') ->
  function_node_of relays relay_id fd ->
  exists c0 c0' rs, body relay_id (PDict fd) c0 = (Ok rs, c0') /\ incl rs rows.
Proof.
  intros Ht (rd & pf & Hrel & -> & Hpf & Hnode).
  destruct (for_rows_m_each _ _ _ _ _ _ Ht Hrel) as (c0 & c0' & rs & Hbody & Hincl).
  m_inv. get_inv.
  rewrite Hpf in Hbody. cbn [truthy] in Hbody.
  destruct pf as [|kv pf']; [contradiction|].
  cbn [negb] in Hbody. m_inv. get_inv.
  destruct (for_rows_m_each _ _ _ _ _ _ Hbody Hnode) as (d0 & d0' & rs' & Hrows & Hincl').
  exists d0, d0', rs'; split; [assumption|].
  intros x Hx. apply Hincl, Hincl', Hx.
Qed.

Lemma make_curve_id_positional relay_id func_id xml_id idx c :
  truthy xml_id || (truthy relay_id && truthy func_id) = true ->
  make_curve_id relay_id func_id xml_id idx c
  = (Ok (positional_curve_id relay_id func_id xml_id idx), c).
Proof.
  unfold make_curve_id, positional_curve_id. intros H.
  destruct (truthy xml_id); [reflexivity|].
  simpl in H. rewrite H. reflexivity.
Qed.

(** What one iteration of the curve loop appends for a structured node. *)
Lemma curve_rows_spec relay_id func_id idx items c rs c' :
  curve_rows relay_id func_id (idx, PDict items) c = (Ok rs, c') ->
  exists q cid c0,
    make_curve_id relay_id func_id (dict_get (attrs_of items) "id") idx c = (Ok cid, c0)
    /\ rs = [q] /\ col "curve_id" q = cid.
Proof.
  unfold curve_rows, dict_pop. cbv beta iota zeta. intros H. m_inv. subst.
  eexists _, v, c0. split; [eassumption|]. split; reflexivity.
Qed.

(** What the body of the point loop appends: rows that all carry the key
    recomputed for the first candidate curve. *)
Lemma function_point_rows_spec relay_id fd c rs c' p :
  function_point_rows relay_id (PDict fd) c = (Ok rs, c') -> In p rs ->
  exists cands cid c0,
    curve_candidates (PDict fd) = Ok cands
    /\ make_curve_id relay_id (dict_get fd "@id") (first_curve_xml_id cands) 1 c
       = (Ok cid, c0)
    /\ truthy (dict_get fd "CurvePoints") = true
    /\ col "curve_id" p = cid.
Proof.
  unfold function_point_rows. cbn [is_dict negb]. intros H Hin. m_inv. get_inv.
  destruct (truthy (dict_get fd "CurvePoints")) eqn:Ecp; cbn [negb] in H;
    [|m_inv; subst; contradiction].
  m_inv.
  match goal with
  | Hloop : for_rows _ _ = Ok _ |- _ =>
      destruct (for_rows_in _ _ _ _ Hloop Hin)
        as ((idx & point) & rs' & _ & Hrows & Hin')
  end.
  eexists _, _, _. split; [eassumption|]. split; [eassumption|].
  split; [reflexivity|].
  unfold point_rows in Hrows. destruct point; try (injection Hrows as <-; contradiction).
  ok_inv. destruct Hin' as [<-|[]]. reflexivity.
Qed.

Lemma normalize_function_curves_loop relays :
  normalize_function_curves relays = function_loop_m function_curve_rows relays.
Proof. reflexivity. Qed.

Lemma normalize_curve_points_loop relays :
  normalize_curve_points relays = function_loop_m function_point_rows relays.
Proof. reflexivity. Qed.

(** C3 (as stated) fails: a function with curve points and no curve node
    yields a point row with curve_id CUR-R1-F1-01 while the curve table
    is empty. *)
Lemma points_without_curve_reference_no_row :
  exists p,
    fst (normalize_function_curves [points_without_curve] _ID_COUNTERS) = Ok []
    /\ fst (normalize_curve_points [points_without_curve] _ID_COUNTERS) = Ok [p]
    /\ col "curve_id" p = PStr "CUR-R1-F1-01"
    /\ ~ (exists q, In q (@nil row) /\ col "curve_id" q = col "curve_id" p).
Proof.
  eexists. split; [reflexivity|]. split; [reflexivity|]. split; [reflexivity|].
  intros (q & [] & _).
Qed.

(* ================================================================== *)
(** ** Extraction never raises on a well-shaped tree *)
(* ================================================================== *)

Lemma no_big_int_coercible v : no_big_int v = true -> coercible v.
Proof.
  destruct v; simpl; auto.
  destruct (float_of_int z); [eauto | discriminate].
Qed.

Lemma no_big_int_assoc d k v :
  forallb (fun kv : string * pyval => no_big_int (snd kv)) d = true ->
  assoc_get d k = Some v -> no_big_int v = true.
Proof.
  induction d as [|(k', v') d IH]; simpl; [discriminate|].
  intros H. apply andb_prop in H as (Hv & Hd).
  destruct (String.eqb k k'); [intros [= <-]; assumption | auto].
Qed.

Lemma no_big_int_get d k :
  no_big_int (PDict d) = true -> no_big_int (dict_get d k) = true.
Proof.
  simpl. intros H. unfold dict_get.
  destruct (assoc_get d k) eqn:E; [|reflexivity].
  eapply no_big_int_assoc; eassumption.
Qed.

Lemma no_big_int_ensure_list v x :
  no_big_int v = true -> In x (ensure_list v) -> no_big_int x = true.
Proof.
  destruct v; simpl; intros H Hin;
    try (destruct Hin as [<-|[]]; assumption); try contradiction.
  rewrite forallb_forall in H. auto.
Qed.

Lemma no_big_int_assoc_set d k v :
  forallb (fun kv : string * pyval => no_big_int (snd kv)) d = true ->
  no_big_int v = true ->
  forallb (fun kv : string * pyval => no_big_int (snd kv)) (assoc_set d k v) = true.
Proof.
  induction d as [|(k', v') d IH]; simpl; intros H Hv.
  - now rewrite Hv.
  - apply andb_prop in H as (Hv' & Hd).
    destruct (String.eqb k k'); simpl.
    + now rewrite Hv, Hd.
    + now rewrite Hv', IH.
Qed.

Lemma no_big_int_assoc_del d k :
  forallb (fun kv : string * pyval => no_big_int (snd kv)) d = true ->
  forallb (fun kv : string * pyval => no_big_int (snd kv)) (assoc_del d k) = true.
Proof.
  induction d as [|(k', v') d IH]; simpl; intros H; [reflexivity|].
  apply andb_prop in H as (Hv' & Hd).
  destruct (String.eqb k k'); simpl; [assumption|].
  now rewrite Hv', IH.
Qed.

Lemma no_big_int_attrs_of items :
  no_big_int (PDict items) = true -> no_big_int (PDict (attrs_of items)) = true.
Proof.
  unfold attrs_of. simpl.
  assert (G : forall acc,
    forallb (fun kv : string * pyval => no_big_int (snd kv)) acc = true ->
    forallb (fun kv : string * pyval => no_big_int (snd kv)) items = true ->
    forallb (fun kv : string * pyval => no_big_int (snd kv))
      (fold_left (fun acc (kv : string * pyval) =>
                    if startswith "@" (fst kv)
                    then assoc_set acc (lstrip_at (fst kv)) (snd kv)
                    else acc) items acc) = true).
  { induction items as [|(k, v) items IH]; simpl; intros acc Hacc H; [assumption|].
    apply andb_prop in H as (Hv & Hi).
    apply IH; [|assumption].
    destruct (startswith "@" k); [apply no_big_int_assoc_set|]; assumption. }
  apply G. reflexivity.
Qed.

Lemma block_ok_truthy v :
  block_ok v = true -> truthy v = true -> exists d, v = PDict d.
Proof.
  unfold block_ok. intros H Ht. rewrite Ht in H. simpl in H.
  apply is_dict_true; assumption.
Qed.

Lemma in_enumerate_no_big_int v n i x :
  no_big_int v = true -> In (i, x) (enumerate_from n (ensure_list v)) ->
  no_big_int x = true.
Proof.
  intros H Hin. apply enumerate_from_in in Hin.
  eapply no_big_int_ensure_list; eassumption.
Qed.

(** [safe_float] of an attribute of a well-shaped node returns. *)
Lemma safe_float_get_total d k :
  no_big_int (PDict d) = true -> exists r, safe_float (dict_get d k) = Ok r.
Proof.
  intros H. apply safe_float_total, no_big_int_coercible, no_big_int_get, H.
Qed.

Lemma for_rows_m_total {A} (body : A -> M (list row)) xs :
  (forall x, In x xs -> forall c, exists rs c', body x c = (Ok rs, c')) ->
  forall c, exists rows c', for_rows_m xs body c = (Ok rows, c').
Proof.
  induction xs as [|x xs IH]; simpl; intros H c.
  - exists [], c. reflexivity.
  - destruct (H x (or_introl eq_refl) c) as (rs & c1 & Hx).
    destruct (IH (fun y Hy => H y (or_intror Hy)) c1) as (rows & c2 & Hr).
    exists (rs ++ rows)%list, c2. unfold mbind. rewrite Hx, Hr. reflexivity.
Qed.

Lemma ct_rows_total relay_id idx ct :
  no_big_int ct = true -> exists rs, ct_rows relay_id (idx, ct) = Ok rs.
Proof.
  intros H. unfold ct_rows.
  destruct ct; cbn [is_dict negb]; eauto.
  rewrite !py_get_dict. cbn [rbind].
  destruct (safe_float_get_total d "@primaryA" H) as (r1 & ->).
  destruct (safe_float_get_total d "@secondaryA" H) as (r2 & ->).
  destruct (safe_float_get_total d "@burdenVA" H) as (r3 & ->).
  cbn [rbind]. eauto.
Qed.

Lemma relay_shaped_inv relay :
  relay_shaped relay = true ->
  exists rd, relay = PDict rd
    /\ block_ok (dict_get rd "CTs") = true
    /\ block_ok (dict_get rd "VTs") = true
    /\ block_ok (dict_get rd "ProtectionFunctions") = true
    /\ block_ok (dict_get rd "Parameters") = true
    /\ (forall pf func, dict_get rd "ProtectionFunctions" = PDict pf ->
          In func (ensure_list (dict_get pf "Function")) ->
          function_shaped func = true).
Proof.
  destruct relay; try discriminate. cbn [relay_shaped]. intros H.
  apply andb_prop in H as (H & Hf). apply andb_prop in H as (H & Hp).
  apply andb_prop in H as (H & Hpf). apply andb_prop in H as (Hct & Hvt).
  exists d. repeat split; auto.
  intros pf func Epf Hin. rewrite Epf in Hf. rewrite forallb_forall in Hf. auto.
Qed.

Lemma well_shaped_in relays relay :
  well_shaped relays = true -> In relay relays ->
  relay_shaped relay = true /\ no_big_int relay = true.
Proof.
  unfold well_shaped. rewrite forallb_forall. intros H Hin.
  apply andb_prop. auto.
Qed.

Lemma normalize_cts_total relays :
  well_shaped relays = true -> returns_table (normalize_cts relays).
Proof.
  intros Hw. apply for_rows_total. intros relay Hin.
  destruct (well_shaped_in _ _ Hw Hin) as (Hs & Hn).
  apply relay_shaped_inv in Hs as (rd & -> & Hct & _).
  rewrite !py_get_dict. cbn [rbind].
  destruct (truthy (dict_get rd "CTs")) eqn:Et; cbn [negb]; [|eauto].
  destruct (block_ok_truthy _ Hct Et) as (block & Hb).
  rewrite Hb, py_get_dict. cbn [rbind].
  apply for_rows_total. intros (idx, ct) Hin'. apply ct_rows_total.
  eapply in_enumerate_no_big_int; [|exact Hin'].
  apply no_big_int_get. rewrite <- Hb. apply no_big_int_get, Hn.
Qed.

Lemma make_vt_id_total relay_id xml_id idx c :
  exists v c', make_vt_id relay_id xml_id idx c = (Ok v, c').
Proof.
  unfold make_vt_id. destruct (truthy xml_id); [eexists _, _; reflexivity|].
  destruct (truthy relay_id); eexists _, _; reflexivity.
Qed.

Lemma make_curve_id_total relay_id func_id xml_id idx c :
  exists v c', make_curve_id relay_id func_id xml_id idx c = (Ok v, c').
Proof.
  unfold make_curve_id. destruct (truthy xml_id); [eexists _, _; reflexivity|].
  destruct (truthy relay_id && truthy func_id); eexists _, _; reflexivity.
Qed.

Lemma vt_rows_total relay_id vt_defined vt_enabled idx vt c :
  no_big_int vt = true ->
  exists rs c', vt_rows relay_id vt_defined vt_enabled (idx, vt) c = (Ok rs, c').
Proof.
  intros H. unfold vt_rows.
  destruct vt; cbn [is_dict negb]; try (eexists _, _; reflexivity).
  unfold mbind, lift. rewrite !py_get_dict.
  destruct (make_vt_id_total relay_id (dict_get d "@id") idx c) as (v & c' & ->).
  cbn [rbind].
  destruct (safe_float_get_total d "@primaryKV" H) as (r1 & ->).
  destruct (safe_float_get_total d "@secondaryV" H) as (r2 & ->).
  destruct (safe_float_get_total d "@burdenVA" H) as (r3 & ->).
  cbn [rbind]. eexists _, _; reflexivity.
Qed.

Lemma normalize_vts_total relays :
  well_shaped relays = true -> returns_table_m (normalize_vts relays).
Proof.
  intros Hw c. unfold normalize_vts. revert c.
  apply for_rows_m_total. intros relay Hin c.
  destruct (well_shaped_in _ _ Hw Hin) as (Hs & Hn).
  apply relay_shaped_inv in Hs as (rd & -> & _ & Hvt & _).
  unfold mbind at 1 2, lift at 1 2. rewrite !py_get_dict.
  destruct (truthy (dict_get rd "VTs")) eqn:Et; cbn [negb];
    [|eexists _, _; reflexivity].
  destruct (block_ok_truthy _ Hvt Et) as (block & Hb).
  assert (Hnb : no_big_int (PDict block) = true)
    by (rewrite <- Hb; apply no_big_int_get, Hn).
  rewrite Hb. unfold mbind at 1 2 3, lift at 1 2 3. rewrite !py_get_dict.
  pose proof (no_big_int_get block "VT" Hnb) as Hnodes.
  destruct (dict_get block "VT") eqn:Ev;
    try (apply for_rows_m_total; intros (idx, vt) Hin' c0; apply vt_rows_total;
         eapply in_enumerate_no_big_int; [exact Hnodes | exact Hin']).
  unfold mbind.
  destruct (make_vt_id_total (dict_get rd "@id") PNone 1 c) as (v & c' & ->).
  eexists _, _; reflexivity.
Qed.

(** The loop over the functions of the relays, for a body that returns on
    well-shaped functions. *)
Lemma function_loop_total (body : pyval -> pyval -> res (list row)) relays :
  (forall relay_id func,
     function_shaped func = true -> no_big_int func = true ->
     exists rs, body relay_id func = Ok rs) ->
  well_shaped relays = true ->
  returns_table
    (for_rows relays (fun relay =>
       relay_id <- py_get relay "@id" ;;
       pf_block <- py_get relay "ProtectionFunctions" ;;
       if negb (truthy pf_block) then Ok []
       else
         funcs <- py_get pf_block "Function" ;;
         for_rows (ensure_list funcs) (body relay_id))).
Proof.
  intros Hbody Hw. apply for_rows_total. intros relay Hin.
  destruct (well_shaped_in _ _ Hw Hin) as (Hs & Hn).
  apply relay_shaped_inv in Hs as (rd & -> & _ & _ & Hpf & _ & Hfs).
  rewrite !py_get_dict. cbn [rbind].
  destruct (truthy (dict_get rd "ProtectionFunctions")) eqn:Et; cbn [negb]; [|eauto].
  destruct (block_ok_truthy _ Hpf Et) as (pf & Hb).
  rewrite Hb, py_get_dict. cbn [rbind].
  apply for_rows_total. intros func Hfunc. apply Hbody.
  - eapply Hfs; eassumption.
  - eapply no_big_int_ensure_list; [|exact Hfunc].
    apply no_big_int_get. rewrite <- Hb. apply no_big_int_get, Hn.
Qed.

Lemma function_loop_m_total (body : pyval -> pyval -> M (list row)) relays :
  (forall relay_id func c,
     function_shaped func = true -> no_big_int func = true ->
     exists rs c', body relay_id func c = (Ok rs, c')) ->
  well_shaped relays = true ->
  returns_table_m (function_loop_m body relays).
Proof.
  intros Hbody Hw c. unfold function_loop_m. revert c.
  apply for_rows_m_total. intros relay Hin c.
  destruct (well_shaped_in _ _ Hw Hin) as (Hs & Hn).
  apply relay_shaped_inv in Hs as (rd & -> & _ & _ & Hpf & _ & Hfs).
  unfold mbind at 1 2, lift at 1 2. rewrite !py_get_dict.
  destruct (truthy (dict_get rd "ProtectionFunctions")) eqn:Et; cbn [negb];
    [|eexists _, _; reflexivity].
  destruct (block_ok_truthy _ Hpf Et) as (pf & Hb).
  rewrite Hb. unfold mbind at 1, lift at 1. rewrite py_get_dict.
  apply for_rows_m_total. intros func Hfunc c0. apply Hbody.
  - eapply Hfs; eassumption.
  - eapply no_big_int_ensure_list; [|exact Hfunc].
    apply no_big_int_get. rewrite <- Hb. apply no_big_int_get, Hn.
Qed.

Lemma function_rows_total relay_id func :
  exists rs, function_rows relay_id func = Ok rs.
Proof.
  unfold function_rows. destruct func; cbn [is_dict negb]; eauto.
  rewrite !py_get_dict. cbn [rbind]. eauto.
Qed.

Lemma function_shaped_inv fd :
  function_shaped (PDict fd) = true ->
  block_ok (dict_get fd "Settings") = true
  /\ block_ok (dict_get fd "CurvePoints") = true
  /\ block_ok (dict_get fd "Selectivity") = true
  /\ margin_ok (dict_get fd "Selectivity") = true.
Proof.
  cbn [function_shaped]. intros H.
  apply andb_prop in H as (H & Hm). apply andb_prop in H as (H & Hsel).
  apply andb_prop in H as (Hset & Hcp). auto.
Qed.

Lemma node_settings_coercible key items :
  no_big_int (PDict items) = true ->
  Forall (fun t => coercible (value t)) (node_settings key items).
Proof.
  simpl. induction items as [|(k, v) items IH]; simpl; intros H; [constructor|].
  apply andb_prop in H as (Hv & Hi).
  destruct (startswith "@" k); simpl; auto.
  constructor; auto. apply no_big_int_coercible, Hv.
Qed.

Lemma settings_items_coercible items :
  no_big_int (PDict items) = true ->
  Forall (fun t => coercible (value t)) (flat_map settings_item items).
Proof.
  simpl. induction items as [|(k, v) items IH]; simpl; intros H; [constructor|].
  apply andb_prop in H as (Hv & Hi).
  apply Forall_app; split; auto.
  destruct (String.eqb k "Curve"); [constructor|].
  destruct v; try (constructor; [exact I | constructor]).
  apply node_settings_coercible, Hv.
Qed.

Lemma function_setting_rows_total relay_id func :
  function_shaped func = true -> no_big_int func = true ->
  exists rs, function_setting_rows relay_id func = Ok rs.
Proof.
  intros Hs Hn. destruct func; try (unfold function_setting_rows; simpl; eauto; fail).
  apply function_shaped_inv in Hs as (Hset & _).
  assert (Hc : exists raws,
            _collect_raw_settings_for_function (PDict d) = Ok raws
            /\ Forall (fun t => coercible (value t)) raws).
  { rewrite collect_dict.
    destruct (truthy (dict_get d "Settings")) eqn:Et; cbn [negb]; [|eauto].
    destruct (block_ok_truthy _ Hset Et) as (items & Hb).
    rewrite Hb. cbn [py_items rbind]. eexists; split; [reflexivity|].
    apply settings_items_coercible. rewrite <- Hb. apply no_big_int_get, Hn. }
  destruct Hc as (raws & Hc & Hco).
  pose proof (function_setting_rows_spec relay_id d raws Hc) as Hspec.
  destruct raws as [|t0 raws]; [eauto|].
  destruct (aggregate_total (fold_left by_param_add (t0 :: raws) [])) as (a & Ha).
  { eapply Permutation_Forall; [|exact Hco].
    apply Permutation_sym. apply (fold_by_param_perm (t0 :: raws) []). }
  rewrite Ha in Hspec. destruct Hspec as (r & Hr & _). eauto.
Qed.

Lemma curve_candidates_total fd :
  function_shaped (PDict fd) = true -> no_big_int (PDict fd) = true ->
  exists cands, curve_candidates (PDict fd) = Ok cands
    /\ forall x, In x cands -> no_big_int x = true.
Proof.
  intros Hs Hn. apply function_shaped_inv in Hs as (Hset & _).
  assert (Hdirect : forall v x, assoc_get fd "Curve" = Some v ->
                                In x (ensure_list v) -> no_big_int x = true).
  { intros v x Ev Hx. eapply no_big_int_ensure_list; [|exact Hx].
    eapply no_big_int_assoc; [exact Hn | exact Ev]. }
  unfold curve_candidates. rewrite py_get_dict. cbn [rbind].
  destruct (truthy (dict_get fd "Settings")) eqn:Et.
  - destruct (block_ok_truthy _ Hset Et) as (s & Hb).
    assert (Hns : no_big_int (PDict s) = true)
      by (rewrite <- Hb; apply no_big_int_get, Hn).
    rewrite Hb. cbn [py_contains py_index rbind].
    assert (Hnested : forall v x, assoc_get s "Curve" = Some v ->
                                  In x (ensure_list v) -> no_big_int x = true).
    { intros v x Ev Hx. eapply no_big_int_ensure_list; [|exact Hx].
      eapply no_big_int_assoc; [exact Hns | exact Ev]. }
    destruct (assoc_get s "Curve") as [vs|] eqn:Ec;
      destruct (assoc_get fd "Curve") as [vf|] eqn:Ef; cbn [rbind];
      (eexists; split; [reflexivity|]); intros x Hx.
    + apply in_app_or in Hx as [Hx|Hx]; [eapply Hnested | eapply Hdirect]; eauto.
    + apply in_app_or in Hx as [Hx|[]]. eapply Hnested; eauto.
    + eapply Hdirect; eauto.
    + contradiction.
  - cbn [py_contains py_index rbind].
    destruct (assoc_get fd "Curve") as [vf|] eqn:Ef; cbn [rbind];
      (eexists; split; [reflexivity|]); intros x Hx; try contradiction.
    eapply Hdirect; [reflexivity | exact Hx].
Qed.

Lemma safe_float_attr_total d k :
  forallb (fun kv : string * pyval => no_big_int (snd kv)) d = true ->
  exists r, safe_float (dict_get d k) = Ok r.
Proof. intros H. apply safe_float_get_total. exact H. Qed.

Lemma curve_rows_total relay_id func_id idx curve c :
  no_big_int curve = true ->
  exists rs c', curve_rows relay_id func_id (idx, curve) c = (Ok rs, c').
Proof.
  intros Hn. unfold curve_rows.
  destruct curve; try (eexists _, _; reflexivity).
  apply no_big_int_attrs_of in Hn. cbn [no_big_int] in Hn.
  unfold dict_pop. cbv beta iota zeta.
  unfold mbind at 1.
  destruct (make_curve_id_total relay_id func_id
              (dict_get (attrs_of d) "id") idx c) as (v & c' & ->).
  repeat match goal with
    | |- context [lift (safe_float (dict_get ?a ?k))] =>
        let r := fresh "r" in
        let E := fresh "E" in
        destruct (safe_float_attr_total a k) as (r & E);
        [repeat apply no_big_int_assoc_del; exact Hn|];
        rewrite E; unfold mbind at 1, lift at 1
    end.
  eexists _, _; reflexivity.
Qed.

Lemma function_curve_rows_total relay_id func c :
  function_shaped func = true -> no_big_int func = true ->
  exists rs c', function_curve_rows relay_id func c = (Ok rs, c').
Proof.
  intros Hs Hn. unfold function_curve_rows.
  destruct func; cbn [is_dict negb]; try (eexists _, _; reflexivity).
  destruct (curve_candidates_total d Hs Hn) as (cands & Hc & Hnc).
  unfold mbind at 1 2, lift at 1 2. rewrite py_get_dict, Hc.
  apply for_rows_m_total. intros (idx, curve) Hin c0.
  apply curve_rows_total. apply Hnc. eapply enumerate_from_in; exact Hin.
Qed.

Lemma point_rows_total curve_id base idx point :
  no_big_int point = true ->
  exists rs, point_rows curve_id base (idx, point) = Ok rs.
Proof.
  intros Hn. unfold point_rows. destruct point; eauto.
  apply no_big_int_attrs_of in Hn. cbn [no_big_int] in Hn.
  destruct (safe_float_attr_total (attrs_of d) "multiple" Hn) as (r1 & ->).
  destruct (safe_float_attr_total (attrs_of d) "current" Hn) as (r2 & ->).
  destruct (safe_float_attr_total (attrs_of d) "timeSeconds" Hn) as (r3 & ->).
  cbn [rbind]. eauto.
Qed.

Lemma function_point_rows_total relay_id func c :
  function_shaped func = true -> no_big_int func = true ->
  exists rs c', function_point_rows relay_id func c = (Ok rs, c').
Proof.
  intros Hs Hn. unfold function_point_rows.
  destruct func; cbn [is_dict negb]; try (eexists _, _; reflexivity).
  destruct (curve_candidates_total d Hs Hn) as (cands & Hc & _).
  apply function_shaped_inv in Hs as (_ & Hcp & _).
  unfold mbind at 1 2, lift at 1 2. rewrite py_get_dict, Hc.
  unfold mbind at 1.
  destruct (make_curve_id_total relay_id (dict_get d "@id")
              (first_curve_xml_id cands) 1 c) as (v & c' & ->).
  unfold mbind at 1, lift at 1. rewrite py_get_dict.
  destruct (truthy (dict_get d "CurvePoints")) eqn:Et; cbn [negb];
    [|eexists _, _; reflexivity].
  destruct (block_ok_truthy _ Hcp Et) as (cp & Hb).
  assert (Hncp : no_big_int (PDict cp) = true)
    by (rewrite <- Hb; apply no_big_int_get, Hn).
  rewrite Hb. unfold mbind, lift. rewrite !py_get_dict.
  destruct (for_rows_total (point_rows v (dict_get cp "@base"))
              (enumerate_from 1 (ensure_list (dict_get cp "Point")))) as (rows & ->).
  - intros (idx, point) Hin. apply point_rows_total.
    eapply in_enumerate_no_big_int; [|exact Hin]. apply no_big_int_get, Hncp.
  - eexists _, _; reflexivity.
Qed.

Lemma parameter_rows_total relay_id iparam :
  exists rs, parameter_rows relay_id iparam = Ok rs.
Proof.
  destruct iparam as (idx, param). unfold parameter_rows.
  destruct param; cbn [is_dict negb]; eauto.
  rewrite !py_get_dict. cbn [rbind]. eauto.
Qed.

Lemma normalize_parameters_total relays :
  well_shaped relays = true -> returns_table (normalize_parameters relays).
Proof.
  intros Hw. apply for_rows_total. intros relay Hin.
  destruct (well_shaped_in _ _ Hw Hin) as (Hs & Hn).
  apply relay_shaped_inv in Hs as (rd & -> & _ & _ & _ & Hp & _).
  rewrite !py_get_dict. cbn [rbind].
  destruct (truthy (dict_get rd "Parameters")) eqn:Et; cbn [negb]; [|eauto].
  destruct (block_ok_truthy _ Hp Et) as (block & Hb).
  rewrite Hb, py_get_dict. cbn [rbind].
  apply for_rows_total. intros iparam _. apply parameter_rows_total.
Qed.

Lemma downstream_rows_total relay_id func_id margin_s idev :
  exists rs, downstream_rows relay_id func_id margin_s idev = Ok rs.
Proof.
  destruct idev as (idx, dev). unfold downstream_rows.
  destruct dev; cbn [is_dict negb]; eauto.
  rewrite !py_get_dict. cbn [rbind]. eauto.
Qed.

Lemma upstream_rows_total relay_id func_id margin_s idev :
  exists rs, upstream_rows relay_id func_id margin_s idev = Ok rs.
Proof.
  destruct idev as (idx, dev). unfold upstream_rows.
  destruct dev; cbn [is_dict negb]; eauto.
  rewrite !py_get_dict. cbn [rbind]. eauto.
Qed.

Lemma function_selectivity_rows_total relay_id func :
  function_shaped func = true -> no_big_int func = true ->
  exists rs, function_selectivity_rows relay_id func = Ok rs.
Proof.
  intros Hs Hn. unfold function_selectivity_rows.
  destruct func; cbn [is_dict negb]; eauto.
  apply function_shaped_inv in Hs as (_ & _ & Hsel & Hm).
  rewrite !py_get_dict. cbn [rbind].
  destruct (truthy (dict_get d "Selectivity")) eqn:Et; cbn [negb]; [|eauto].
  destruct (block_ok_truthy _ Hsel Et) as (sel & Hb).
  assert (Hns : no_big_int (PDict sel) = true)
    by (rewrite <- Hb; apply no_big_int_get, Hn).
  rewrite Hb in *. cbn [margin_ok] in Hm. cbn [py_get_default rbind].
  assert (Hmargin : exists m,
            match assoc_get sel "CoordinationMargin" with
            | Some v => v
            | None => PDict []
            end = PDict m /\ no_big_int (PDict m) = true).
  { destruct (assoc_get sel "CoordinationMargin") as [v|] eqn:Em.
    - apply is_dict_true in Hm as (m & ->). exists m; split; [reflexivity|].
      eapply no_big_int_assoc; [exact Hns | exact Em].
    - exists []; split; reflexivity. }
  destruct Hmargin as (m & -> & Hnm).
  rewrite !py_get_dict. cbn [rbind].
  destruct (safe_float_get_total m "@seconds" Hnm) as (r & ->). cbn [rbind].
  destruct (for_rows_total
              (downstream_rows relay_id (dict_get d "@id") r)
              (enumerate_from 1 (ensure_list (dict_get sel "DownstreamDevice"))))
    as (downs & ->); [intros; apply downstream_rows_total|].
  cbn [rbind].
  destruct (for_rows_total
              (upstream_rows relay_id (dict_get d "@id") r)
              (enumerate_from 1 (ensure_list (dict_get sel "UpstreamDevice"))))
    as (ups & ->); [intros; apply upstream_rows_total|].
  cbn [rbind]. eauto.
Qed.

(** An iteration that appends nothing leaves the rows of its siblings. *)
Lemma for_rows_skip {A} (body : A -> res (list row)) xs x ys :
  body x = Ok [] -> for_rows (xs ++ x :: ys) body = for_rows (xs ++ ys) body.
Proof.
  intros Hx. induction xs as [|y xs IH]; simpl.
  - rewrite Hx. simpl. destruct (for_rows ys body); reflexivity.
  - rewrite IH. reflexivity.
Qed.

Lemma for_rows_m_skip {A} (body : A -> M (list row)) xs x ys :
  (forall c, body x c = (Ok [], c)) ->
  forall c, for_rows_m (xs ++ x :: ys) body c = for_rows_m (xs ++ ys) body c.
Proof.
  intros Hx. induction xs as [|y xs IH]; simpl; intros c.
  - unfold mbind. rewrite Hx.
    destruct (for_rows_m ys body c) as ([rows|e], c'); reflexivity.
  - unfold mbind at 1 3. destruct (body y c) as ([rows|e], c'); [|reflexivity].
    unfold mbind. rewrite IH. reflexivity.
Qed.

(** C9 (as stated) fails: only the repeated children are tested with
    [isinstance(..., dict)]; a block that is present but not a structured
    node makes the extraction raise. *)
Lemma malformed_block_raises :
  normalize_cts [text_cts_relay] = Raise AttributeError
  /\ normalize_selectivity [empty_margin_relay] = Raise AttributeError
  /\ normalize_functions [PStr "stray text"] = Raise AttributeError.
Proof. repeat split. Qed.

(** C9 (amended): when every relay is a structured node, every optional
    block (CTs, VTs, ProtectionFunctions, Parameters, Settings, CurvePoints,
    Selectivity) is absent, empty or a structured node, every
    CoordinationMargin is absent or a structured node and no integer leaf is
    beyond the float range, each of the eight extraction functions returns
    a table; a missing optional block yields zero rows; and a repeated
    child that is not a structured node appends nothing while its siblings
    are processed as without it. *)
Theorem extraction_returns_on_well_shaped_tree :
  (forall relays,
     well_shaped relays = true ->
     returns_table (normalize_cts relays)
     /\ returns_table_m (normalize_vts relays)
     /\ returns_table (normalize_functions relays)
     /\ returns_table (normalize_function_settings relays)
     /\ returns_table_m (normalize_function_curves relays)
     /\ returns_table_m (normalize_curve_points relays)
     /\ returns_table (normalize_parameters relays)
     /\ returns_table (normalize_selectivity relays))
  /\ (forall rd,
        (assoc_get rd "CTs" = None -> normalize_cts [PDict rd] = Ok [])
        /\ (assoc_get rd "VTs" = None ->
            forall c, normalize_vts [PDict rd] c = (Ok [], c))
        /\ (assoc_get rd "Parameters" = None -> normalize_parameters [PDict rd] = Ok [])
        /\ (assoc_get rd "ProtectionFunctions" = None ->
            normalize_functions [PDict rd] = Ok []
            /\ normalize_function_settings [PDict rd] = Ok []
            /\ (forall c, normalize_function_curves [PDict rd] c = (Ok [], c))
            /\ (forall c, normalize_curve_points [PDict rd] c = (Ok [], c))
            /\ normalize_selectivity [PDict rd] = Ok []))
  /\ (forall relay_id idx v,
        is_dict v = false ->
        ct_rows relay_id (idx, v) = Ok []
        /\ (forall vt_defined vt_enabled c,
              vt_rows relay_id vt_defined vt_enabled (idx, v) c = (Ok [], c))
        /\ function_rows relay_id v = Ok []
        /\ function_setting_rows relay_id v = Ok []
        /\ (forall c, function_curve_rows relay_id v c = (Ok [], c))
        /\ (forall func_id c, curve_rows relay_id func_id (idx, v) c = (Ok [], c))
        /\ (forall c, function_point_rows relay_id v c = (Ok [], c))
        /\ (forall curve_id base, point_rows curve_id base (idx, v) = Ok [])
        /\ parameter_rows relay_id (idx, v) = Ok []
        /\ (forall func_id margin_s,
              downstream_rows relay_id func_id margin_s (idx, v) = Ok []
              /\ upstream_rows relay_id func_id margin_s (idx, v) = Ok []))
  /\ (forall (body : nat * pyval -> res (list row)) xs x ys,
        body x = Ok [] ->
        for_rows (xs ++ x :: ys) body = for_rows (xs ++ ys) body)
  /\ (forall (body : nat * pyval -> M (list row)) xs x ys,
        (forall c, body x c = (Ok [], c)) ->
        forall c, for_rows_m (xs ++ x :: ys) body c = for_rows_m (xs ++ ys) body c).
Proof.
  split; [|split; [|split; [|split]]].
  - intros relays Hw. repeat split.
    + apply normalize_cts_total, Hw.
    + apply normalize_vts_total, Hw.
    + apply (function_loop_total function_rows);
        [intros; apply function_rows_total | exact Hw].
    + apply (function_loop_total function_setting_rows);
        [apply function_setting_rows_total | exact Hw].
    + apply (function_loop_m_total function_curve_rows);
        [intros; apply function_curve_rows_total; assumption | exact Hw].
    + apply (function_loop_m_total function_point_rows);
        [intros; apply function_point_rows_total; assumption | exact Hw].
    + apply normalize_parameters_total, Hw.
    + apply (function_loop_total function_selectivity_rows);
        [apply function_selectivity_rows_total | exact Hw].
  - intros rd. split; [|split; [|split]]; intros H; repeat split; intros;
      cbv [normalize_cts normalize_vts normalize_parameters normalize_functions
           normalize_function_settings normalize_function_curves
           normalize_curve_points normalize_selectivity for_rows for_rows_m
           mbind lift mret py_get py_get_default rbind];
      rewrite H; reflexivity.
  - intros relay_id idx v Hv.
    destruct v; try discriminate Hv; repeat split.
  - intros body xs x ys. apply for_rows_skip.
  - intros body xs x ys. apply for_rows_m_skip.
Qed.

Lemma extraction_returns_on_well_shaped_tree_witness :
  returns_table (normalize_cts [ct_relay_100_5; scenario_relay])
  /\ returns_table_m (normalize_vts [ct_relay_100_5; scenario_relay])
  /\ returns_table (normalize_functions [ct_relay_100_5; scenario_relay])
  /\ returns_table (normalize_function_settings [ct_relay_100_5; scenario_relay])
  /\ returns_table_m (normalize_function_curves [ct_relay_100_5; scenario_relay])
  /\ returns_table_m (normalize_curve_points [ct_relay_100_5; scenario_relay])
  /\ returns_table (normalize_parameters [ct_relay_100_5; scenario_relay])
  /\ returns_table (normalize_selectivity [ct_relay_100_5; scenario_relay]).
Proof.
  apply (proj1 extraction_returns_on_well_shaped_tree [ct_relay_100_5; scenario_relay]).
  reflexivity.
Defined.

(* ================================================================== *)
(** ** Scenarios of the identifier policy *)
(* ================================================================== *)

(** Relay R1 with two unnamed CTs: keys CT-R1-01 and CT-R1-02 in
    document order. *)
Example two_unnamed_cts_keys :
  exists t,
    normalize_cts [PDict [("@id", PStr "R1");
                          ("CTs", PDict [("CT", PList [PDict [("@phase", PStr "A")];
                                                       PDict [("@phase", PStr "B")]])])]]
    = Ok t
    /\ map (col "ct_id") t = [PStr "CT-R1-01"; PStr "CT-R1-02"].
Proof. eexists; split; reflexivity. Qed.

(** A selectivity block with margin 0.3 s and two downstream devices: two
    rows with the shared margin and keys SEL-R1-F1-D-001 and -002. *)
Example selectivity_scenario :
  exists t,
    normalize_selectivity
      [PDict [("@id", PStr "R1");
              ("ProtectionFunctions",
               PDict [("Function",
                       PDict [("@id", PStr "F1");
                              ("Selectivity",
                               PDict [("CoordinationMargin",
                                       PDict [("@seconds", PStr "0.3")]);
                                      ("DownstreamDevice",
                                       PList [PDict [("@id", PStr "D1")];
                                              PDict [("@id", PStr "D2")]])])])])]]
    = Ok t
    /\ map (col "selectivity_id") t = [PStr "SEL-R1-F1-D-001"; PStr "SEL-R1-F1-D-002"]
    /\ map (col "coordination_margin") t
       = [PFloat 0x1.3333333333333p-2; PFloat 0x1.3333333333333p-2]
    /\ float_repr 0x1.3333333333333p-2 = "0.3".
Proof. eexists; repeat split; vm_compute; reflexivity. Qed.

(* ================================================================== *)
(** ** Sequence fields and synthetic keys *)
(* ================================================================== *)

Lemma uint_of_string_zeros k s :
  NilEmpty.uint_of_string (repeat_char "0" k ++ s)
  = match NilEmpty.uint_of_string s with
    | Some u => Some (Nat.iter k Decimal.D0 u)
    | None => None
    end.
Proof.
  induction k as [|k IH]; simpl.
  - destruct (NilEmpty.uint_of_string s); reflexivity.
  - rewrite IH. destruct (NilEmpty.uint_of_string s); reflexivity.
Qed.

Lemma of_uint_zeros k u : N.of_uint (Nat.iter k Decimal.D0 u) = N.of_uint u.
Proof.
  induction k as [|k IH]; [reflexivity|].
  simpl Nat.iter. rewrite <- IH. reflexivity.
Qed.

(** A sequence field reads back as its index, whatever the width: an
    index with more digits than the width is written in full. *)
Lemma read_index_fmt_d w i : read_index (fmt_d w i) = Some i.
Proof.
  unfold read_index, fmt_d, dec_of_Z.
  rewrite uint_of_string_zeros.
  set (d := N.to_uint (Z.to_N (Z.of_nat i))).
  assert (H : exists u, NilEmpty.uint_of_string (NilZero.string_of_uint d) = Some u
                        /\ N.of_uint u = N.of_uint d).
  { destruct d eqn:E; try (rewrite <- E; unfold NilZero.string_of_uint; rewrite E;
                           rewrite <- E; rewrite NilEmpty.usu; eauto; fail).
    exists (Decimal.D0 Decimal.Nil). split; reflexivity. }
  destruct H as (u & -> & Hu).
  rewrite of_uint_zeros, Hu. unfold d.
  rewrite DecimalN.Unsigned.of_to, Z_N_nat, Nat2Z.id. reflexivity.
Qed.

Lemma fmt_d_inj w i j : fmt_d w i = fmt_d w j -> i = j.
Proof.
  intros H. apply (f_equal read_index) in H.
  rewrite !read_index_fmt_d in H. congruence.
Qed.

(** The keys of the rows a loop over [enumerate(..., start=n)] appends,
    when an iteration appends nothing or one row keyed by its index. *)
Lemma enumerate_rows_keys {A} (body : nat * A -> res (list row))
    (key : row -> pyval) (g : nat -> pyval) l :
  (forall idx x rs, body (idx, x) = Ok rs ->
                    rs = [] \/ exists r, rs = [r] /\ key r = g idx) ->
  forall n rows,
    for_rows (enumerate_from n l) body = Ok rows ->
    exists idxs, map key rows = map g idxs /\ NoDup idxs
                 /\ forall i, In i idxs -> (n <= i)%nat.
Proof.
  intros Hbody. induction l as [|x l IH]; simpl; intros n rows H.
  - injection H as <-. exists []. repeat split; [constructor | contradiction].
  - ok_inv. destruct (IH _ _ E0) as (idxs & Hmap & Hnd & Hge).
    destruct (Hbody _ _ _ E) as [->|(r & -> & Hr)].
    + exists idxs. repeat split; auto. intros i Hi. apply Hge in Hi. lia.
    + exists (n :: idxs). simpl. rewrite Hr, Hmap. repeat split.
      * constructor; [|assumption]. intros Hin. apply Hge in Hin. lia.
      * intros i [<-|Hi]; [lia|]. apply Hge in Hi. lia.
Qed.

Lemma keys_by_index_nodup (g : nat -> pyval) idxs :
  (forall i j, g i = g j -> i = j) -> NoDup idxs -> NoDup (map g idxs).
Proof. intros Hg. apply Injective_map_NoDup. exact Hg. Qed.

(** Cancel the common prefix of two equal texts. *)
Ltac strip_prefix H :=
  repeat first [ apply append_inj_l in H | injection H as H ].

Lemma make_selectivity_id_inj relay_id func_id direction i j :
  make_selectivity_id relay_id func_id direction i
  = make_selectivity_id relay_id func_id direction j -> i = j.
Proof.
  unfold make_selectivity_id. intros H. strip_prefix H.
  eapply fmt_d_inj; exact H.
Qed.

Lemma make_point_id_inj curve_id i j :
  make_point_id curve_id i = make_point_id curve_id j -> i = j.
Proof.
  unfold make_point_id. intros H. strip_prefix H.
  eapply fmt_d_inj; exact H.
Qed.

Lemma downstream_rows_key relay_id func_id margin_s idx dev rs :
  downstream_rows relay_id func_id margin_s (idx, dev) = Ok rs ->
  rs = [] \/ exists r, rs = [r]
    /\ col "selectivity_id" r = make_selectivity_id relay_id func_id "Downstream" idx.
Proof.
  unfold downstream_rows. destruct (negb (is_dict dev)); intros H; ok_inv; eauto.
Qed.

Lemma upstream_rows_key relay_id func_id margin_s idx dev rs :
  upstream_rows relay_id func_id margin_s (idx, dev) = Ok rs ->
  rs = [] \/ exists r, rs = [r]
    /\ col "selectivity_id" r = make_selectivity_id relay_id func_id "Upstream" idx.
Proof.
  unfold upstream_rows. destruct (negb (is_dict dev)); intros H; ok_inv; eauto.
Qed.

(** X1: The selectivity rows of one function have pairwise distinct keys: the
    key is always synthetic, built from the direction and the position of
    the device in its list. *)
Theorem selectivity_ids_distinct_per_function relay_id func rs :
  function_selectivity_rows relay_id func = Ok rs ->
  NoDup (map (col "selectivity_id") rs).
Proof.
  unfold function_selectivity_rows.
  destruct (negb (is_dict func)); [intros [= <-]; constructor|].
  intros H. ok_inv.
  destruct (negb (truthy v0)); [injection H as <-; constructor|].
  ok_inv.
  match goal with
  | Hd : for_rows _ (downstream_rows _ _ _) = Ok _,
    Hu : for_rows _ (upstream_rows _ _ _) = Ok _ |- _ =>
      destruct (enumerate_rows_keys _ (col "selectivity_id")
                  (make_selectivity_id relay_id v "Downstream") _
                  (downstream_rows_key relay_id v _) _ _ Hd)
        as (di & Hdm & Hdn & _);
      destruct (enumerate_rows_keys _ (col "selectivity_id")
                  (make_selectivity_id relay_id v "Upstream") _
                  (upstream_rows_key relay_id v _) _ _ Hu)
        as (ui & Hum & Hun & _)
  end.
  rewrite map_app, Hdm, Hum. apply NoDup_app.
  - apply keys_by_index_nodup; [apply make_selectivity_id_inj | assumption].
  - apply keys_by_index_nodup; [apply make_selectivity_id_inj | assumption].
  - intros a Ha Hb. apply in_map_iff in Ha as (i & <- & _).
    apply in_map_iff in Hb as (j & Hb & _).
    unfold make_selectivity_id in Hb.
    change (startswith "down" (lower "Upstream")) with false in Hb.
    change (startswith "down" (lower "Downstream")) with true in Hb.
    injection Hb as Hb. apply append_inj_l in Hb. injection Hb as Hb.
    apply append_inj_l in Hb. discriminate Hb.
Qed.

Lemma for_rows_forall {A} (P : row -> Prop) (body : A -> res (list row)) xs rows :
  (forall x rs, In x xs -> body x = Ok rs -> Forall P rs) ->
  for_rows xs body = Ok rows -> Forall P rows.
Proof.
  revert rows; induction xs as [|x xs IH]; simpl; intros rows Hb H.
  - injection H as <-. constructor.
  - ok_inv. apply Forall_app; split; [eapply Hb; eauto|].
    apply IH; [|assumption]. intros y rs Hy. apply Hb. auto.
Qed.

Lemma for_rows_m_forall {A} (P : row -> Prop) (body : A -> M (list row)) xs :
  (forall x c0 rs c0', In x xs -> body x c0 = (Ok rs, c0') -> Forall P rs) ->
  forall c rows c', for_rows_m xs body c = (Ok rows, c') -> Forall P rows.
Proof.
  induction xs as [|x xs IH]; simpl; intros Hb c rows c' H.
  - m_inv. subst. constructor.
  - m_inv. subst. apply Forall_app; split; [eapply Hb; eauto|].
    eapply IH; [|eassumption]. intros y d0 rs d0' Hy. apply Hb. auto.
Qed.

Lemma enumerate_from_ge {A} (l : list A) n i x :
  In (i, x) (enumerate_from n l) -> (n <= i)%nat.
Proof.
  revert n; induction l as [|y l IH]; simpl; intros n H; [contradiction|].
  destruct H as [H|H]; [injection H as <- _; lia|].
  apply IH in H. lia.
Qed.

Lemma point_rows_key curve_id base idx point rs :
  point_rows curve_id base (idx, point) = Ok rs ->
  rs = [] \/ exists r, rs = [r]
    /\ col "point_id" r = make_point_id curve_id idx
    /\ col "curve_id" r = curve_id.
Proof.
  unfold point_rows. destruct point; intros H; ok_inv; eauto.
Qed.

(** X2: The curve points of one function all carry one curve_id, and their
    point_id values, built from that curve_id and the position of the
    point, are pairwise distinct. *)
Theorem curve_point_ids_distinct_per_function relay_id func c rs c' :
  function_point_rows relay_id func c = (Ok rs, c') ->
  exists curve_id,
    Forall (fun r => col "curve_id" r = curve_id
                     /\ exists idx, (1 <= idx)%nat
                          /\ col "point_id" r = make_point_id curve_id idx) rs
    /\ NoDup (map (col "point_id") rs).
Proof.
  unfold function_point_rows.
  destruct (negb (is_dict func)).
  { intros H. m_inv. subst. exists PNone. split; constructor. }
  intros H. m_inv.
  match goal with
  | Hid : make_curve_id _ _ _ _ _ = (Ok ?cid, _) |- _ => exists cid; clear Hid
  end.
  match type of H with
  | context [negb (truthy ?b)] => destruct (negb (truthy b))
  end; [m_inv; subst; split; constructor|].
  m_inv.
  match goal with
  | Hloop : for_rows (enumerate_from 1 ?l) (point_rows ?cid ?base) = Ok _ |- _ =>
      rename Hloop into Hrows; set (body := point_rows cid base) in *
  end.
  split.
  - eapply for_rows_forall; [|exact Hrows].
    intros (idx, x) rs0 Hin Hx. apply enumerate_from_ge in Hin.
    destruct (point_rows_key _ _ _ _ _ Hx) as [->|(r & -> & Hp & Hc)];
      constructor; [|constructor]. split; [exact Hc|]. exists idx; auto.
  - destruct (enumerate_rows_keys body (col "point_id") (make_point_id v1) _
                (fun idx x rs0 Hx =>
                   match point_rows_key _ _ idx x rs0 Hx with
                   | or_introl e => or_introl e
                   | or_intror (ex_intro _ r (conj e1 (conj e2 _))) =>
                       or_intror (ex_intro _ r (conj e1 e2))
                   end) _ _ Hrows) as (idxs & Hmap & Hnd & _).
    rewrite Hmap. apply keys_by_index_nodup; [apply make_point_id_inj | exact Hnd].
Qed.

(* ================================================================== *)
(** ** Columns of the tables *)
(* ================================================================== *)

Lemma function_loop_forall P body relays t :
  (forall relay_id func rs, body relay_id func = Ok rs -> Forall P rs) ->
  function_loop body relays = Ok t -> Forall P t.
Proof.
  intros Hb. apply for_rows_forall. intros relay rs _ H. ok_inv.
  match goal with
  | Hr : (if ?b then _ else _) = Ok _ |- _ => destruct b
  end; [injection H as <-; constructor|].
  ok_inv. eapply for_rows_forall; [|eassumption]. intros; eapply Hb; eassumption.
Qed.

Lemma function_loop_m_forall P body relays c t c' :
  (forall relay_id func c0 rs c0',
     body relay_id func c0 = (Ok rs, c0') -> Forall P rs) ->
  function_loop_m body relays c = (Ok t, c') -> Forall P t.
Proof.
  intros Hb. apply for_rows_m_forall. intros relay c0 rs c0' _ H. m_inv.
  match goal with
  | Hr : (if ?b then _ else _) _ = (Ok _, _) |- _ => destruct b
  end; [m_inv; subst; constructor|].
  m_inv. eapply for_rows_m_forall; [|eassumption]. intros; eapply Hb; eassumption.
Qed.

(** A loop body that appends nothing or one literal row. *)
Ltac one_row :=
  intros; repeat (progress (ok_inv; m_inv)); subst;
  repeat constructor.

Lemma core_columns relays t :
  normalize_relays_core relays = Ok t -> has_columns "relays_core" t.
Proof.
  apply for_rows_forall. one_row.
Qed.

Lemma cts_columns relays t :
  normalize_cts relays = Ok t -> has_columns "relays_cts" t.
Proof.
  apply for_rows_forall. intros relay rs _ H. ok_inv.
  destruct (negb (truthy _)); [injection H as <-; constructor|]. ok_inv.
  eapply for_rows_forall; [|eassumption]. intros (idx, ct) rs0 _. unfold ct_rows.
  destruct (negb (is_dict ct)); one_row.
Qed.

Lemma vts_columns relays c t c' :
  normalize_vts relays c = (Ok t, c') -> has_columns "relays_vts" t.
Proof.
  apply for_rows_m_forall. intros relay c0 rs c0' _ H. m_inv.
  destruct (negb (truthy _)); [m_inv; subst; constructor|]. m_inv.
  match type of H with
  | (match ?v with _ => _ end) _ = _ => destruct v
  end.
  1: one_row.
  all: eapply for_rows_m_forall; [|eassumption];
    intros (idx, vt) d0 rs0 d0' _; unfold vt_rows;
    destruct (negb (is_dict vt)); one_row.
Qed.

Lemma functions_columns relays t :
  normalize_functions relays = Ok t -> has_columns "relays_functions" t.
Proof.
  apply (function_loop_forall _ function_rows). intros relay_id func rs.
  unfold function_rows. destruct (negb (is_dict func)); one_row.
Qed.

Lemma settings_columns relays t :
  normalize_function_settings relays = Ok t ->
  has_columns "relays_function_settings" t.
Proof.
  apply (function_loop_forall _ function_setting_rows). intros relay_id func rs.
  unfold function_setting_rows. destruct (negb (is_dict func)); [one_row|].
  intros H. ok_inv. destruct v0; one_row.
Qed.

Lemma curves_columns relays c t c' :
  normalize_function_curves relays c = (Ok t, c') -> has_columns "relays_curves" t.
Proof.
  apply (function_loop_m_forall _ function_curve_rows).
  intros relay_id func c0 rs c0'. unfold function_curve_rows.
  destruct (negb (is_dict func)); [one_row|]. intros H. m_inv.
  eapply for_rows_m_forall; [|eassumption].
  intros (idx, curve) d0 rs0 d0' _. unfold curve_rows, dict_pop.
  destruct curve; one_row.
Qed.

Lemma points_columns relays c t c' :
  normalize_curve_points relays c = (Ok t, c') ->
  has_columns "relays_curve_points" t.
Proof.
  apply (function_loop_m_forall _ function_point_rows).
  intros relay_id func c0 rs c0'. unfold function_point_rows.
  destruct (negb (is_dict func)); [one_row|]. intros H. m_inv.
  destruct (negb (truthy _)); [one_row|]. m_inv.
  eapply for_rows_forall; [|eassumption].
  intros (idx, point) rs0 _. unfold point_rows. destruct point; one_row.
Qed.

Lemma parameters_columns relays t :
  normalize_parameters relays = Ok t -> has_columns "relays_parameters" t.
Proof.
  apply for_rows_forall. intros relay rs _ H. ok_inv.
  destruct (negb (truthy _)); [injection H as <-; constructor|]. ok_inv.
  eapply for_rows_forall; [|eassumption]. intros (idx, p) rs0 _.
  unfold parameter_rows. destruct (negb (is_dict p)); one_row.
Qed.

Lemma selectivity_columns relays t :
  normalize_selectivity relays = Ok t -> has_columns "relays_selectivity" t.
Proof.
  apply (function_loop_forall _ function_selectivity_rows).
  intros relay_id func rs. unfold function_selectivity_rows.
  destruct (negb (is_dict func)); [one_row|]. intros H. ok_inv.
  destruct (negb (truthy _)); [one_row|]. ok_inv.
  apply Forall_app; split;
    (eapply for_rows_forall; [|eassumption]); intros (idx, dev) rs0 _;
    [unfold downstream_rows | unfold upstream_rows];
    destruct (negb (is_dict dev)); one_row.
Qed.

Lemma normalize_tables_inv relays c tables c' :
  normalize_tables relays c = (Ok tables, c') ->
  map fst tables = map fst table_columns
  /\ forall name t, In (name, t) tables -> has_columns name t.
Proof.
  unfold normalize_tables. intros H. m_inv. subst. split; [reflexivity|].
  intros name t Hin. simpl in Hin.
  repeat match goal with
    | H : _ \/ _ |- _ => destruct H as [H|H]
    | H : (_, _) = (_, _) |- _ => injection H as <- <-
    | H : False |- _ => contradiction
    end.
  - eapply core_columns; eassumption.
  - eapply cts_columns; eassumption.
  - eapply vts_columns; eassumption.
  - eapply functions_columns; eassumption.
  - eapply settings_columns; eassumption.
  - eapply curves_columns; eassumption.
  - eapply points_columns; eassumption.
  - eapply parameters_columns; eassumption.
  - eapply selectivity_columns; eassumption.
Qed.

(** X3: Whatever the relay tree, a pass that returns yields the nine tables in
    a fixed order, and every row of a table has exactly the columns of that
    table, in the same order: rows of one table never differ in shape. *)
Theorem tables_have_fixed_columns relays c tables c' :
  normalize_tables relays c = (Ok tables, c') ->
  map fst tables
  = ["relays_core"; "relays_cts"; "relays_vts"; "relays_functions";
     "relays_function_settings"; "relays_curves"; "relays_curve_points";
     "relays_parameters"; "relays_selectivity"]
  /\ forall name t, In (name, t) tables -> has_columns name t.
Proof. apply normalize_tables_inv. Qed.

Lemma has_columns_get name t r k :
  has_columns name t -> In r t -> In k (columns_of name) ->
  exists v, assoc_get r k = Some v.
Proof.
  intros Hc Hr Hk. unfold has_columns in Hc. rewrite Forall_forall in Hc.
  specialize (Hc r Hr). rewrite <- Hc in Hk. clear Hc Hr.
  induction r as [|(k', v') r IH]; simpl in Hk |- *; [contradiction|].
  destruct (String.eqb_spec k k') as [_|Hne]; [eauto|].
  destruct Hk as [Hk|Hk]; [congruence|].
  apply IH; exact Hk.
Qed.

(* ================================================================== *)
(** ** Foreign keys *)
(* ================================================================== *)

Lemma function_loop_in body relays rows r :
  (forall relay_id func rs, is_dict func = false ->
                            body relay_id func = Ok rs -> rs = []) ->
  function_loop body relays = Ok rows -> In r rows ->
  exists relay_id fd rs,
    function_node_of relays relay_id fd
    /\ body relay_id (PDict fd) = Ok rs /\ In r rs.
Proof.
  intros Hskip Ht Hr.
  destruct (for_rows_in _ _ _ _ Ht Hr) as (relay & rs & Hrel & Hbody & Hin).
  ok_inv. get_inv.
  match type of Hbody with
  | context [truthy ?b] => destruct (truthy b) eqn:Eb
  end; cbn [negb] in Hbody; [|injection Hbody as <-; contradiction].
  ok_inv.
  match goal with
  | H : py_get _ "Function" = Ok _ |- _ =>
      apply py_get_ok in H; destruct H as (pf & Hpf & ->)
  end.
  destruct (for_rows_in _ _ _ _ Hbody Hin) as (func & rs' & Hfunc & Hrows & Hin').
  destruct (is_dict func) eqn:Ed.
  - apply is_dict_true in Ed as (fd & ->).
    eexists _, fd, rs'. split; [|split; [exact Hrows | exact Hin']].
    eexists _, pf. split; [exact Hrel|]. split; [reflexivity|]. split; assumption.
  - rewrite (Hskip _ _ _ Ed Hrows) in Hin'. contradiction.
Qed.

Lemma function_loop_each body relays rows relay_id fd :
  function_loop body relays = Ok rows ->
  function_node_of relays relay_id fd ->
  exists rs, body relay_id (PDict fd) = Ok rs /\ incl rs rows.
Proof.
  intros Ht (rd & pf & Hrel & -> & Hpf & Hnode).
  destruct (for_rows_each _ _ _ _ Ht Hrel) as (rs & Hbody & Hincl).
  rewrite !py_get_dict in Hbody. cbn [rbind] in Hbody.
  rewrite Hpf in Hbody. cbn [truthy] in Hbody.
  destruct pf as [|kv pf']; [contradiction|].
  cbn [negb] in Hbody. rewrite py_get_dict in Hbody. cbn [rbind] in Hbody.
  destruct (for_rows_each _ _ _ _ Hbody Hnode) as (rs' & Hrows & Hincl').
  exists rs'; split; [assumption|].
  intros x Hx. apply Hincl, Hincl', Hx.
Qed.

(** Every structured relay has its row in the core table. *)
Lemma core_row_of_relay relays core rd :
  normalize_relays_core relays = Ok core -> In (PDict rd) relays ->
  exists q, In q core /\ col "relay_id" q = dict_get rd "@id".
Proof.
  intros Ht Hin. destruct (for_rows_each _ _ _ _ Ht Hin) as (rs & Hb & Hincl).
  rewrite !py_get_dict in Hb. cbn [rbind] in Hb. ok_inv.
  eexists; split; [apply Hincl; left; reflexivity | reflexivity].
Qed.

(** Every structured function has its row in the function table. *)
Lemma function_row_of_node relays t relay_id fd :
  normalize_functions relays = Ok t -> function_node_of relays relay_id fd ->
  exists q, In q t /\ col "function_id" q = dict_get fd "@id"
            /\ col "relay_id" q = relay_id.
Proof.
  intros Ht Hnode.
  destruct (function_loop_each function_rows _ _ _ _ Ht Hnode) as (rs & Hb & Hincl).
  unfold function_rows in Hb. cbn [is_dict negb] in Hb.
  rewrite !py_get_dict in Hb. cbn [rbind] in Hb. injection Hb as <-.
  eexists; split; [apply Hincl; left; reflexivity | split; reflexivity].
Qed.

Lemma cts_row_relay relays t r :
  normalize_cts relays = Ok t -> In r t ->
  exists rd, In (PDict rd) relays /\ col "relay_id" r = dict_get rd "@id".
Proof.
  intros Ht Hr.
  destruct (for_rows_in _ _ _ _ Ht Hr) as (relay & rs & Hrel & Hbody & Hin).
  ok_inv. get_inv. exists d. split; [exact Hrel|].
  destruct (negb (truthy _)); [injection Hbody as <-; contradiction|]. ok_inv.
  destruct (for_rows_in _ _ _ _ Hbody Hin) as ((idx & ct) & rs' & _ & Hrows & Hin').
  unfold ct_rows in Hrows. destruct (negb (is_dict ct));
    [injection Hrows as <-; contradiction|].
  ok_inv. destruct Hin' as [<-|[]]. reflexivity.
Qed.

Lemma parameters_row_relay relays t r :
  normalize_parameters relays = Ok t -> In r t ->
  exists rd, In (PDict rd) relays /\ col "relay_id" r = dict_get rd "@id".
Proof.
  intros Ht Hr.
  destruct (for_rows_in _ _ _ _ Ht Hr) as (relay & rs & Hrel & Hbody & Hin).
  ok_inv. get_inv. exists d. split; [exact Hrel|].
  destruct (negb (truthy _)); [injection Hbody as <-; contradiction|]. ok_inv.
  destruct (for_rows_in _ _ _ _ Hbody Hin) as ((idx & p) & rs' & _ & Hrows & Hin').
  unfold parameter_rows in Hrows. destruct (negb (is_dict p));
    [injection Hrows as <-; contradiction|].
  ok_inv. destruct Hin' as [<-|[]]. reflexivity.
Qed.

Lemma vts_row_relay relays c t c' r :
  normalize_vts relays c = (Ok t, c') -> In r t ->
  exists rd, In (PDict rd) relays /\ col "relay_id" r = dict_get rd "@id".
Proof.
  intros Ht Hr.
  destruct (for_rows_m_in _ _ _ _ _ _ Ht Hr)
    as (relay & c0 & c0' & rs & Hrel & Hbody & Hin).
  m_inv. get_inv. exists d. split; [exact Hrel|].
  destruct (negb (truthy _)); [m_inv; subst; contradiction|]. m_inv.
  match type of Hbody with
  | (match ?v with _ => _ end) _ = _ => destruct v
  end.
  1: m_inv; subst; destruct Hin as [<-|[]]; reflexivity.
  all: destruct (for_rows_m_in _ _ _ _ _ _ Hbody Hin)
       as ((idx & vt) & e0 & e0' & rs' & _ & Hrows & Hin');
    unfold vt_rows in Hrows; destruct (negb (is_dict vt));
    [m_inv; subst; contradiction|];
    m_inv; ok_inv; destruct Hin' as [<-|[]]; reflexivity.
Qed.

Lemma functions_row_relay relays t r :
  normalize_functions relays = Ok t -> In r t ->
  exists rd, In (PDict rd) relays /\ col "relay_id" r = dict_get rd "@id".
Proof.
  intros Ht Hr.
  destruct (function_loop_in function_rows relays t r) as
    (relay_id & fd & rs & (rd & pf & Hrel & -> & _) & Hrows & Hin); auto.
  { intros relay_id func rs Hd H. unfold function_rows in H. rewrite Hd in H.
    injection H as <-. reflexivity. }
  exists rd. split; [exact Hrel|].
  unfold function_rows in Hrows. cbn [is_dict negb] in Hrows. ok_inv.
  destruct Hin as [<-|[]]. reflexivity.
Qed.

(** X5: Referential integrity towards the relay core: in the tables of one
    pass, the relay_id of every CT, VT, Function and Parameter row is the
    relay_id of a row of the core table. *)
Theorem child_rows_reference_a_core_row relays c tables c' :
  normalize_tables relays c = (Ok tables, c') ->
  forall name,
    In name ["relays_cts"; "relays_vts"; "relays_functions"; "relays_parameters"] ->
    forall r, In r (table_named name tables) ->
      exists q, In q (table_named "relays_core" tables)
                /\ col "relay_id" q = col "relay_id" r.
Proof.
  unfold normalize_tables. intros H. m_inv. subst.
  assert (Hcore : forall rd, In (PDict rd) relays ->
            exists q, In q v /\ col "relay_id" q = dict_get rd "@id")
    by (intros; eapply core_row_of_relay; eassumption).
  intros name Hname r Hr.
  change (table_named "relays_core" _) with v.
  assert (Hrel : exists rd, In (PDict rd) relays
                            /\ col "relay_id" r = dict_get rd "@id").
  { simpl in Hname.
    repeat match goal with
      | H : _ \/ _ |- _ => destruct H as [H|H]
      | H : False |- _ => contradiction
      end; subst name; cbv [table_named assoc_get String.eqb Ascii.eqb Bool.eqb] in Hr.
    - eapply cts_row_relay; eassumption.
    - eapply vts_row_relay; eassumption.
    - eapply functions_row_relay; eassumption.
    - eapply parameters_row_relay; eassumption. }
  destruct Hrel as (rd & Hin & Hid).
  destruct (Hcore rd Hin) as (q & Hq & Hqid).
  exists q. split; [exact Hq | congruence].
Qed.

Lemma curves_row_function relays c t c' r :
  normalize_function_curves relays c = (Ok t, c') -> In r t ->
  exists relay_id fd, function_node_of relays relay_id fd
                      /\ col "function_id" r = dict_get fd "@id".
Proof.
  intros Ht Hr. rewrite normalize_function_curves_loop in Ht.
  destruct (function_loop_m_in function_curve_rows relays c t c' r)
    as (relay_id & fd & c0 & c0' & rs & Hnode & Hrows & Hin); auto.
  { intros relay_id func c0 rs c0' Hd H. unfold function_curve_rows in H.
    rewrite Hd in H. apply mret_ok in H. destruct H as (<- & _). reflexivity. }
  exists relay_id, fd. split; [exact Hnode|].
  unfold function_curve_rows in Hrows. cbn [is_dict negb] in Hrows. m_inv. get_inv.
  destruct (for_rows_m_in _ _ _ _ _ _ Hrows Hin)
    as ((idx & curve) & e0 & e0' & rs' & _ & Hcr & Hin').
  unfold curve_rows, dict_pop in Hcr.
  destruct curve; try (apply mret_ok in Hcr; destruct Hcr as (<- & _); contradiction).
  cbv beta iota zeta in Hcr. m_inv. subst. destruct Hin' as [<-|[]]. reflexivity.
Qed.

Lemma selectivity_row_function relays t r :
  normalize_selectivity relays = Ok t -> In r t ->
  exists relay_id fd, function_node_of relays relay_id fd
                      /\ col "function_id" r = dict_get fd "@id".
Proof.
  intros Ht Hr.
  destruct (function_loop_in function_selectivity_rows relays t r)
    as (relay_id & fd & rs & Hnode & Hrows & Hin); auto.
  { intros relay_id func rs Hd H. unfold function_selectivity_rows in H.
    rewrite Hd in H. injection H as <-. reflexivity. }
  exists relay_id, fd. split; [exact Hnode|].
  unfold function_selectivity_rows in Hrows. cbn [is_dict negb] in Hrows.
  ok_inv. get_inv.
  destruct (negb (truthy _)); [injection Hrows as <-; contradiction|]. ok_inv.
  apply in_app_or in Hin as [Hin|Hin];
    match goal with
    | Hl : for_rows _ ?b = Ok ?l, Hi : In r ?l |- _ =>
        destruct (for_rows_in _ _ _ _ Hl Hi) as ((idx & dev) & rs' & _ & Hd & Hin')
    end;
    [unfold downstream_rows in Hd | unfold upstream_rows in Hd];
    (destruct (negb (is_dict dev)); [injection Hd as <-; contradiction|]);
    ok_inv; destruct Hin' as [<-|[]]; reflexivity.
Qed.

Lemma settings_row_function relays t r :
  normalize_function_settings relays = Ok t -> In r t ->
  exists relay_id fd, function_node_of relays relay_id fd
                      /\ col "function_id" r = setting_func_id fd.
Proof.
  intros Ht Hr.
  destruct (settings_row_origin _ _ _ Ht Hr) as (relay_id & fd & rs & Hnode & Hrows & Hin).
  exists relay_id, fd. split; [exact Hnode|].
  destruct (_collect_raw_settings_for_function (PDict fd)) as [raws|e] eqn:Hc.
  - pose proof (function_setting_rows_spec relay_id fd raws Hc) as Hspec.
    destruct raws as [|t0 raws].
    + rewrite Hspec in Hrows. injection Hrows as <-. contradiction.
    + destruct (aggregate _) as [a|e]; [|congruence].
      destruct Hspec as (r' & Hr' & _ & Hf & _). rewrite Hr' in Hrows.
      injection Hrows as <-. destruct Hin as [<-|[]]. exact Hf.
  - unfold function_setting_rows in Hrows. cbn [is_dict negb] in Hrows.
    rewrite py_get_dict, Hc in Hrows. discriminate.
Qed.

(** X6: Referential integrity towards the function table: in the tables of one
    pass, the function_id of every Curve and Selectivity row is the
    function_id of a Function row; the function_id of a FunctionSetting row
    is that of a Function row, or the empty text when that one is absent
    or empty. *)
Theorem child_rows_reference_a_function_row relays c tables c' :
  normalize_tables relays c = (Ok tables, c') ->
  (forall name, In name ["relays_curves"; "relays_selectivity"] ->
     forall r, In r (table_named name tables) ->
       exists q, In q (table_named "relays_functions" tables)
                 /\ col "function_id" q = col "function_id" r)
  /\ (forall r, In r (table_named "relays_function_settings" tables) ->
        exists q, In q (table_named "relays_functions" tables)
                  /\ col "function_id" r = py_or (col "function_id" q) (PStr "")).
Proof.
  unfold normalize_tables. intros H. m_inv. subst.
  change (table_named "relays_functions" _) with v2.
  assert (Hfun : forall relay_id fd, function_node_of relays relay_id fd ->
            exists q, In q v2 /\ col "function_id" q = dict_get fd "@id").
  { intros relay_id fd Hnode.
    destruct (function_row_of_node _ _ _ _ ltac:(eassumption) Hnode) as (q & ? & ? & _).
    eauto. }
  split.
  - intros name Hname r Hr.
    assert (Hnode : exists relay_id fd, function_node_of relays relay_id fd
                                        /\ col "function_id" r = dict_get fd "@id").
    { simpl in Hname.
      repeat match goal with
        | H : _ \/ _ |- _ => destruct H as [H|H]
        | H : False |- _ => contradiction
        end; subst name;
        cbv [table_named assoc_get String.eqb Ascii.eqb Bool.eqb] in Hr.
      - eapply curves_row_function; eassumption.
      - eapply selectivity_row_function; eassumption. }
    destruct Hnode as (relay_id & fd & Hnode & Hid).
    destruct (Hfun _ _ Hnode) as (q & Hq & Hqid). exists q. split; congruence.
  - intros r Hr. cbv [table_named assoc_get String.eqb Ascii.eqb Bool.eqb] in Hr.
    destruct (settings_row_function _ _ _ ltac:(eassumption) Hr)
      as (relay_id & fd & Hnode & Hid).
    destruct (Hfun _ _ Hnode) as (q & Hq & Hqid). exists q. split; [exact Hq|].
    rewrite Hid, Hqid. reflexivity.
Qed.

(* ================================================================== *)
(** ** The fallback counters during a pass *)
(* ================================================================== *)

Lemma counters_advance_refl c : counters_advance c c.
Proof. intros kind. split; [lia | reflexivity]. Qed.

Lemma counters_advance_trans c1 c2 c3 :
  counters_advance c1 c2 -> counters_advance c2 c3 -> counters_advance c1 c3.
Proof.
  intros H12 H23 kind. destruct (H12 kind) as (Ha & Hb).
  destruct (H23 kind) as (Hc & Hd). split; [lia|].
  intros Hv Hcu. rewrite Hd, Hb; auto.
Qed.

Lemma advances_ret {A} (a : A) : advances (mret a).
Proof. intros c. apply counters_advance_refl. Qed.

Lemma advances_lift {A} (r : res A) : advances (lift r).
Proof. intros c. apply counters_advance_refl. Qed.

Lemma advances_bind {A B} (m : M A) (k : A -> M B) :
  advances m -> (forall a, advances (k a)) -> advances (mbind m k).
Proof.
  intros Hm Hk c. unfold mbind. specialize (Hm c).
  destruct (m c) as ([a|e], c1); simpl in *; [|exact Hm].
  eapply counters_advance_trans; [exact Hm | apply Hk].
Qed.

Lemma advances_for_rows {A} (xs : list A) (body : A -> M (list row)) :
  (forall x, advances (body x)) -> advances (for_rows_m xs body).
Proof.
  intros Hb. induction xs as [|x xs IH]; simpl.
  - apply advances_ret.
  - apply advances_bind; [apply Hb|]. intros a.
    apply advances_bind; [apply IH|]. intros b. apply advances_ret.
Qed.

Lemma advances_next_counter kind :
  kind = "VT" \/ kind = "CURVE" -> advances (_next_counter kind).
Proof.
  intros Hk c k. unfold _next_counter, counter_value. simpl.
  destruct (string_dec k kind) as [->|Hne].
  - rewrite assoc_get_set_same. split; [destruct (assoc_get c kind); lia|].
    intros Hv Hc. destruct Hk; congruence.
  - rewrite assoc_get_set_other by assumption. split; [lia | reflexivity].
Qed.

Lemma advances_make_vt_id relay_id xml_id idx :
  advances (make_vt_id relay_id xml_id idx).
Proof.
  unfold make_vt_id. destruct (truthy xml_id); [apply advances_ret|].
  destruct (truthy relay_id); [apply advances_ret|].
  apply advances_bind; [apply advances_next_counter; auto|].
  intros; apply advances_ret.
Qed.

Lemma advances_make_curve_id relay_id func_id xml_id idx :
  advances (make_curve_id relay_id func_id xml_id idx).
Proof.
  unfold make_curve_id. destruct (truthy xml_id); [apply advances_ret|].
  destruct (truthy relay_id && truthy func_id); [apply advances_ret|].
  apply advances_bind; [apply advances_next_counter; auto|].
  intros; apply advances_ret.
Qed.

(** Walk a stateful chain whose only counter steps are the two key makers. *)
Ltac adv_auto :=
  repeat first
    [ apply advances_ret
    | apply advances_lift
    | apply advances_make_vt_id
    | apply advances_make_curve_id
    | apply advances_for_rows; intros
    | apply advances_bind; [|intros]
    | match goal with
      | |- advances (if ?b then _ else _) => destruct b
      | |- advances (match ?v with _ => _ end) => destruct v
      | |- advances (let '(_, _) := ?p in _) => destruct p
      end ].

Lemma advances_normalize_vts relays : advances (normalize_vts relays).
Proof. unfold normalize_vts. adv_auto; unfold vt_rows; adv_auto. Qed.

Lemma advances_normalize_function_curves relays :
  advances (normalize_function_curves relays).
Proof.
  unfold normalize_function_curves. adv_auto.
  unfold function_curve_rows. adv_auto.
  unfold curve_rows, dict_pop. adv_auto.
Qed.

Lemma advances_normalize_curve_points relays :
  advances (normalize_curve_points relays).
Proof.
  unfold normalize_curve_points. adv_auto.
  unfold function_point_rows. adv_auto.
Qed.

(** X7: During a run, whether it ends normally or raises, no counter ever goes
    down and only the VT and CURVE counters are drawn: the SETTING, POINT,
    PARAM and SEL counters of [_ID_COUNTERS] keep their value. *)
Theorem run_only_advances_vt_and_curve_counters data c :
  counters_advance c (snd (run_normalize_pipeline data c))
  /\ forall kind, In kind ["SETTING"; "POINT"; "PARAM"; "SEL"] ->
       assoc_get (snd (run_normalize_pipeline data c)) kind = assoc_get c kind.
Proof.
  assert (H : advances (run_normalize_pipeline data)).
  { unfold run_normalize_pipeline, normalize_tables.
    repeat first
      [ apply advances_ret
      | apply advances_lift
      | apply advances_normalize_vts
      | apply advances_normalize_function_curves
      | apply advances_normalize_curve_points
      | apply advances_bind; [|intros] ]. }
  split; [apply H|].
  intros kind Hk. apply (H c kind);
    simpl in Hk; intros ->; intuition discriminate.
Qed.

(* ================================================================== *)
(** ** Namespace stripping *)
(* ================================================================== *)

Lemma pyval_nested_ind (P : pyval -> Prop) :
  P PNone -> (forall b, P (PBool b)) -> (forall z, P (PInt z)) ->
  (forall f, P (PFloat f)) -> (forall s, P (PStr s)) ->
  (forall l, Forall P l -> P (PList l)) ->
  (forall d, Forall (fun kv => P (snd kv)) d -> P (PDict d)) ->
  forall v, P v.
Proof.
  intros HN HB HI HF HS HL HD.
  fix IH 1. intros [| b | z | f | s | l | d];
    [apply HN | apply HB | apply HI | apply HF | apply HS | |].
  - apply HL. induction l as [|x l IHl]; constructor; [apply IH | exact IHl].
  - apply HD. induction d as [|kv d IHd]; constructor; [apply IH | exact IHd].
Qed.

Lemma clean_list l : clean (PList l) <-> Forall clean l.
Proof.
  induction l as [|x l IH]; simpl.
  - split; [constructor | trivial].
  - split.
    + intros (Hx & Hl). constructor; [exact Hx | apply IH, Hl].
    + intros H. inversion H; subst. split; [assumption | apply IH; assumption].
Qed.

Lemma clean_dict d :
  clean (PDict d)
  <-> NoDup (map fst d)
      /\ Forall (fun kv => contains_char ":" (fst kv) = false /\ clean (snd kv)) d.
Proof.
  simpl. apply and_iff_compat_l.
  induction d as [|kv d IH]; simpl.
  - split; [constructor | trivial].
  - split.
    + intros (Hk & Hv & Hd). constructor; [auto | apply IH, Hd].
    + intros H. inversion H as [|? ? (Hk & Hv) Hd]; subst.
      repeat split; [assumption | assumption | apply IH, Hd].
Qed.

Lemma last_segment_no_colon s : contains_char ":" (last_segment s) = false.
Proof.
  induction s as [|c r IH]; [reflexivity|]. cbn [last_segment].
  destruct (contains_char ":" r) eqn:Er; [exact IH|].
  destruct (Ascii.eqb c ":") eqn:Ec; [exact Er|].
  cbn [contains_char]. rewrite Er, Ascii.eqb_sym, Ec. reflexivity.
Qed.

Lemma last_segment_id s : contains_char ":" s = false -> last_segment s = s.
Proof.
  destruct s as [|c r]; [reflexivity|]. cbn [contains_char last_segment]. intros H.
  apply orb_false_elim in H as (Hc & Hr). rewrite Hr.
  rewrite Ascii.eqb_sym, Hc. reflexivity.
Qed.

Lemma assoc_set_keys {V} (d : list (string * V)) k v :
  map fst (assoc_set d k v)
  = if in_dec string_dec k (map fst d) then map fst d else (map fst d ++ [k])%list.
Proof.
  induction d as [|(k', v') d IH]; simpl; [reflexivity|].
  destruct (String.eqb_spec k k') as [->|Hne]; simpl.
  - destruct (string_dec k' k'); [reflexivity | congruence].
  - rewrite IH. destruct (string_dec k' k); [congruence|].
    destruct (in_dec string_dec k (map fst d)); reflexivity.
Qed.

Lemma assoc_set_nodup {V} (d : list (string * V)) k v :
  NoDup (map fst d) -> NoDup (map fst (assoc_set d k v)).
Proof.
  intros H. rewrite assoc_set_keys.
  destruct (in_dec string_dec k (map fst d)) as [|Hn]; [exact H|].
  apply NoDup_app; [exact H | repeat constructor; auto |].
  intros a Ha [<-|[]]. contradiction.
Qed.

Lemma assoc_set_forall {V} (Q : string * V -> Prop) (d : list (string * V)) k v :
  Forall Q d -> Q (k, v) -> Forall Q (assoc_set d k v).
Proof.
  intros Hd Hk. induction Hd as [|(k', v') d Hq Hd IH]; simpl.
  - repeat constructor. exact Hk.
  - destruct (String.eqb_spec k k') as [->|Hne]; constructor; auto.
Qed.

(** The dict that [strip_namespaces] rebuilds from the entries [d]. *)
Lemma strip_fold_clean (d : list (string * pyval)) :
  Forall (fun kv => clean (strip_namespaces (snd kv))) d ->
  forall acc,
    clean (PDict acc) ->
    clean (PDict (fold_left
                    (fun new_dict (kv : string * pyval) =>
                       assoc_set new_dict (last_segment (fst kv))
                                 (strip_namespaces (snd kv)))
                    d acc)).
Proof.
  induction 1 as [|kv d Hkv Hd IH]; intros acc Hacc; [exact Hacc|].
  cbn [fold_left]. apply IH. apply clean_dict in Hacc as (Hnd & Hall).
  apply clean_dict. split.
  - apply assoc_set_nodup, Hnd.
  - apply assoc_set_forall; [exact Hall|]. split; [apply last_segment_no_colon | exact Hkv].
Qed.

Lemma strip_namespaces_is_clean v : clean (strip_namespaces v).
Proof.
  induction v as [| b | z | f | s | l IH | d IH] using pyval_nested_ind;
    try exact I.
  - cbn [strip_namespaces]. apply clean_list. rewrite Forall_map. exact IH.
  - cbn [strip_namespaces]. apply strip_fold_clean; [exact IH|].
    apply clean_dict. split; constructor.
Qed.

(** X8: After [strip_namespaces] no key of the tree, at any depth, contains a
    colon, and the keys of every dict are pairwise distinct. *)
Theorem strip_namespaces_clean v : clean (strip_namespaces v).
Proof. apply strip_namespaces_is_clean. Qed.

Lemma strip_fold_id (d : list (string * pyval)) :
  Forall (fun kv => strip_namespaces (snd kv) = snd kv) d ->
  forall acc,
    NoDup (map fst acc ++ map fst d) ->
    Forall (fun kv => contains_char ":" (fst kv) = false) d ->
    fold_left (fun new_dict (kv : string * pyval) =>
                 assoc_set new_dict (last_segment (fst kv))
                           (strip_namespaces (snd kv)))
              d acc
    = (acc ++ d)%list.
Proof.
  induction 1 as [|(k, x) d Hkv Hd IH]; intros acc Hnd Hcf; simpl.
  - now rewrite app_nil_r.
  - inversion Hcf as [|? ? Hk Hcf']; subst. simpl in Hk, Hkv.
    rewrite (last_segment_id _ Hk), Hkv.
    rewrite assoc_set_fresh.
    + rewrite IH; [rewrite <- app_assoc; reflexivity | | exact Hcf'].
      rewrite map_app, <- app_assoc. exact Hnd.
    + simpl in Hnd. apply NoDup_remove_2 in Hnd. intros Hin. apply Hnd, in_or_app. auto.
Qed.

Lemma strip_namespaces_id v : clean v -> strip_namespaces v = v.
Proof.
  induction v as [| b | z | f | s | l IH | d IH] using pyval_nested_ind;
    try reflexivity; intros Hc.
  - cbn [strip_namespaces]. f_equal. apply clean_list in Hc.
    induction l as [|x l IHl]; [reflexivity|]. simpl.
    inversion IH; inversion Hc; subst. f_equal; auto.
  - cbn [strip_namespaces]. f_equal. apply clean_dict in Hc as (Hnd & Hall).
    rewrite strip_fold_id; [reflexivity | | exact Hnd |].
    + rewrite Forall_forall in *. intros kv Hin. apply IH; [exact Hin|].
      apply (Hall kv Hin).
    + rewrite Forall_forall in *. intros kv Hin. apply (Hall kv Hin).
Qed.

(** X9: A tree whose keys are already free of prefixes, and distinct within
    each dict, is returned as it is. *)
Theorem strip_namespaces_keeps_clean_tree v :
  clean v -> strip_namespaces v = v.
Proof. apply strip_namespaces_id. Qed.

(** X10: [strip_namespaces] is idempotent. *)
Theorem strip_namespaces_idempotent v :
  strip_namespaces (strip_namespaces v) = strip_namespaces v.
Proof. apply strip_namespaces_id, strip_namespaces_is_clean. Qed.

Lemma fold_assoc_set_get {A V} (f : A -> string) (g : A -> V) (l : list A) :
  forall (acc : list (string * V)) name,
    assoc_get (fold_left (fun d x => assoc_set d (f x) (g x)) l acc) name
    = match find (fun x => String.eqb name (f x)) (rev l) with
      | Some x => Some (g x)
      | None => assoc_get acc name
      end.
Proof.
  induction l as [|x l IH] using rev_ind; intros acc name; [reflexivity|].
  rewrite fold_left_app, rev_app_distr. cbn [fold_left rev app find].
  destruct (String.eqb_spec name (f x)) as [->|Hne].
  - apply assoc_get_set_same.
  - rewrite assoc_get_set_other by exact Hne. apply IH.
Qed.

(** X11: Looking a local name up in a stripped dict gives the stripped value
    of the last entry of the original whose key has that local name:
    of two keys that differ only in their prefix, the later one wins. *)
Theorem strip_namespaces_lookup d :
  exists d',
    strip_namespaces (PDict d) = PDict d'
    /\ forall name,
         assoc_get d' name
         = option_map (fun kv => strip_namespaces (snd kv))
                      (last_with_local_name d name).
Proof.
  eexists. split; [reflexivity|]. intros name.
  rewrite (fold_assoc_set_get (fun kv : string * pyval => last_segment (fst kv))
                              (fun kv => strip_namespaces (snd kv))).
  unfold last_with_local_name. destruct (find _ (rev d)); reflexivity.
Qed.

(* ================================================================== *)
(** ** EXTRACT *)
(* ================================================================== *)

Lemma rbind_raise {A B} (r : res A) (k : A -> res B) e :
  rbind r k = Raise e ->
  r = Raise e \/ exists a, r = Ok a /\ k a = Raise e.
Proof.
  destruct r; simpl; intros H; [right; eauto | left; injection H as ->; reflexivity].
Qed.

Lemma extract_block_no_exit (block child : string) sub :
  (blk <- py_get sub block ;;
   match blk with
   | PNone => Ok []
   | _ =>
       x <- py_get blk child ;;
       let xs := ensure_list x in
       match xs with
       | [] => Ok []
       | _ => Ok xs
       end
   end) <> Raise SystemExit.
Proof.
  destruct sub; try discriminate. rewrite py_get_dict. cbn [rbind].
  destruct (dict_get _ block); try discriminate.
  rewrite py_get_dict. cbn [rbind]. cbv zeta.
  destruct (ensure_list _); discriminate.
Qed.

(** X12: EXTRACT aborts with [sys.exit] exactly when the document has no
    ProtectionDataset node or that node has no Substation node; a missing
    Buses, Transformers, Feeders, Loads, Breakers or Relays block never
    makes it abort. *)
Theorem extract_exits_iff_root_or_substation_missing d :
  run_extract_pipeline (PDict d) = Raise SystemExit
  <-> dict_get d "ProtectionDataset" = PNone
      \/ exists rd, dict_get d "ProtectionDataset" = PDict rd
                    /\ dict_get rd "Substation" = PNone.
Proof.
  unfold run_extract_pipeline, get_root_dataset, get_substation.
  rewrite py_get_dict. cbn [rbind].
  destruct (dict_get d "ProtectionDataset") as [| b | z | f | s | l | rd] eqn:Er.
  1: split; auto.
  1-5: split; [discriminate | intros [H|(rd' & H & _)]; discriminate].
  cbn [rbind]. rewrite py_get_dict. cbn [rbind].
  destruct (dict_get rd "Substation") as [| b | z | f | s | l | sd] eqn:Es;
    cbn [rbind].
  1: split; [intros _; right; exists rd; auto | reflexivity].
  all: split; [|intros [H|(rd' & H & Hs)];
                 [discriminate | injection H as <-; congruence]].
  all: intros H;
    repeat match type of H with
      | rbind ?r _ = Raise SystemExit =>
          apply rbind_raise in H; destruct H as [H|(? & _ & H)];
          [exfalso; revert H;
           first [ apply (extract_block_no_exit "Buses" "Bus")
                 | apply (extract_block_no_exit "Transformers" "Transformer")
                 | apply (extract_block_no_exit "Feeders" "Feeder")
                 | apply (extract_block_no_exit "Loads" "Load")
                 | apply (extract_block_no_exit "Breakers" "Breaker")
                 | apply (extract_block_no_exit "Relays" "Relay") ] |]
      end; discriminate H.
Qed.

(** X13: EXTRACT and NORMALIZE find the relays in the same place: for a
    document with a ProtectionDataset node, a non-empty relay list is
    what EXTRACT tabulates exactly when it is what NORMALIZE iterates
    over; and where EXTRACT writes an empty relay table, NORMALIZE aborts
    or has no relay at all. *)
Theorem extract_and_normalize_find_the_same_relays data root :
  get_root_dataset data = Ok root ->
  (forall relays,
      relays <> [] ->
      (extract_relays root = Ok relays <-> get_relays_list data = Ok relays))
  /\ (extract_relays root = Ok [] ->
      get_relays_list data = Raise SystemExit \/ get_relays_list data = Ok []).
Proof.
  unfold get_root_dataset, extract_relays, get_relays_root, get_relays_list.
  intros H. ok_inv.
  match goal with
  | E : py_get data _ = Ok ?v |- _ => rewrite E; cbn [rbind]; clear E
  end.
  match type of H with
  | match ?v with _ => _ end = _ =>
      destruct v as [| b | z | f | s | l | rd]; try discriminate
  end.
  all: injection H as <-.
  1-5: split; [intros relays _; split; discriminate | discriminate].
  rewrite py_get_dict. cbn [rbind].
  destruct (dict_get rd "Relays") as [| b | z | f | s | l | rr].
  1: split; [intros relays Hne; split; [intros [= <-]; congruence | discriminate]
            | auto].
  1-5: split; [intros relays _; split; discriminate | discriminate].
  rewrite py_get_dict. cbn [rbind]. cbv zeta.
  destruct (dict_get rr "Relay") as [| b | z | f | s | l | x]; cbn [ensure_list].
  1: split; [intros relays Hne; split; [intros [= <-]; congruence | discriminate]
            | auto].
  5: destruct l.
  all: split; [intros relays Hne; split; intros [= <-]; congruence || reflexivity
              | intros [=]; auto].
Qed.

(* ================================================================== *)
(** ** Synthetic keys across a table *)
(* ================================================================== *)

Lemma contains_char_app c a b :
  contains_char c (a ++ b) = contains_char c a || contains_char c b.
Proof.
  induction a as [|x a IH]; [reflexivity|].
  cbn [append contains_char]. rewrite IH. apply orb_assoc.
Qed.

Lemma repeat_char_no_dash k : contains_char "-" (repeat_char "0" k) = false.
Proof. induction k as [|k IH]; [reflexivity|]. cbn. exact IH. Qed.

Lemma digits_no_dash u : contains_char "-" (NilEmpty.string_of_uint u) = false.
Proof. induction u; cbn; auto. Qed.

Lemma fmt_d_no_dash w i : contains_char "-" (fmt_d w i) = false.
Proof.
  unfold fmt_d, dec_of_Z. rewrite contains_char_app, repeat_char_no_dash.
  unfold NilZero.string_of_uint.
  destruct (N.to_uint _) eqn:E; [reflexivity | rewrite <- E; apply digits_no_dash ..].
Qed.

(** A text that ends in a dash and a field without a dash splits in one
    way only. *)
Lemma split_last_dash a b d1 d2 :
  contains_char "-" d1 = false -> contains_char "-" d2 = false ->
  a ++ "-" ++ d1 = b ++ "-" ++ d2 -> a = b /\ d1 = d2.
Proof.
  intros H1 H2. revert b. induction a as [|x a IH]; intros [|y b] H.
  - injection H as H. auto.
  - injection H as Hx H. subst d1.
    rewrite contains_char_app in H1. cbn in H1.
    apply orb_false_elim in H1 as (_ & H1). discriminate H1.
  - injection H as Hx H. subst d2.
    rewrite contains_char_app in H2. cbn in H2.
    apply orb_false_elim in H2 as (_ & H2). discriminate H2.
  - injection H as -> H. destruct (IH _ H) as (-> & ->). auto.
Qed.

Lemma make_parameter_id_inj r1 r2 i j :
  make_parameter_id r1 i = make_parameter_id r2 j ->
  py_str r1 = py_str r2 /\ i = j.
Proof.
  unfold make_parameter_id. intros H. injection H as H.
  apply split_last_dash in H; try apply fmt_d_no_dash.
  destruct H as (-> & H). split; [reflexivity | eapply fmt_d_inj; exact H].
Qed.

Lemma make_point_id_inj_curve c1 c2 i j :
  make_point_id c1 i = make_point_id c2 j ->
  py_str c1 = py_str c2 /\ i = j.
Proof.
  unfold make_point_id. intros H. injection H as H.
  apply split_last_dash in H; try apply fmt_d_no_dash.
  destruct H as (-> & H). split; [reflexivity | eapply fmt_d_inj; exact H].
Qed.

Lemma enumerate_rows_keys_in {A} (body : nat * A -> res (list row))
    (key : row -> pyval) (g : nat -> pyval) l :
  (forall idx x rs, In x l -> body (idx, x) = Ok rs ->
                    rs = [] \/ exists r, rs = [r] /\ key r = g idx) ->
  forall n rows,
    for_rows (enumerate_from n l) body = Ok rows ->
    exists idxs, map key rows = map g idxs /\ NoDup idxs
                 /\ forall i, In i idxs -> (n <= i)%nat.
Proof.
  induction l as [|x l IH]; simpl; intros Hbody n rows H.
  - injection H as <-. exists []. repeat split; [constructor | contradiction].
  - ok_inv.
    match goal with
    | Hx : body (n, x) = Ok ?a, Hl : for_rows (enumerate_from (S n) l) body = Ok _ |- _ =>
        destruct (IH (fun idx y rs Hy => Hbody idx y rs (or_intror Hy)) _ _ Hl)
          as (idxs & Hmap & Hnd & Hge);
        destruct (Hbody _ _ _ (or_introl eq_refl) Hx) as [->|(r & -> & Hr)]
    end.
    + exists idxs. repeat split; auto. intros i Hi. apply Hge in Hi. lia.
    + exists (n :: idxs). simpl. rewrite Hr, Hmap. repeat split.
      * constructor; [|assumption]. intros Hin. apply Hge in Hin. lia.
      * intros i [<-|Hi]; [lia|]. apply Hge in Hi. lia.
Qed.

(** The keys of the rows of a loop are pairwise distinct when those of
    every iteration are and a key tells which item it was made for. *)
Lemma for_rows_keys_nodup {A} (body : A -> res (list row)) (key : row -> pyval)
    (tag : A -> string) (own : string -> pyval -> Prop) :
  (forall s s' k, own s k -> own s' k -> s = s') ->
  forall xs,
    (forall x rs, In x xs -> body x = Ok rs ->
                  NoDup (map key rs) /\ Forall (fun r => own (tag x) (key r)) rs) ->
    NoDup (map tag xs) ->
    forall rows, for_rows xs body = Ok rows -> NoDup (map key rows).
Proof.
  intros Hown. induction xs as [|x xs IH]; simpl; intros Hb Hnd rows H.
  - injection H as <-. constructor.
  - ok_inv. inversion Hnd as [|? ? Hx Hnd']; subst.
    match goal with
    | Ha : body x = Ok ?a, Hl : for_rows xs body = Ok ?b |- _ =>
        destruct (Hb x a (or_introl eq_refl) Ha) as (Hna & Hoa);
        rewrite map_app; apply NoDup_app;
        [ exact Hna
        | apply IH; [intros y rs Hy; apply Hb; right; exact Hy | exact Hnd' | exact Hl]
        | ];
        intros k Hka Hkb;
        apply in_map_iff in Hka as (r1 & <- & Hr1);
        apply in_map_iff in Hkb as (r2 & Hk & Hr2);
        destruct (for_rows_in _ _ _ _ Hl Hr2) as (y & rs & Hy & Hby & Hin);
        destruct (Hb y rs (or_intror Hy) Hby) as (_ & Hoy);
        rewrite Forall_forall in Hoa, Hoy;
        specialize (Hoa r1 Hr1); specialize (Hoy r2 Hin); rewrite Hk in Hoy;
        apply Hx; rewrite (Hown _ _ _ Hoa Hoy); apply in_map, Hy
    end.
Qed.

Lemma parameter_rows_key relay_id idx param rs :
  positional_parameter param = true ->
  parameter_rows relay_id (idx, param) = Ok rs ->
  rs = [] \/ exists r, rs = [r]
    /\ col "parameter_id" r = make_parameter_id relay_id idx.
Proof.
  unfold parameter_rows, positional_parameter.
  destruct param as [| b | z | f | s | l | pd]; cbn [is_dict negb];
    intros Hp H; ok_inv; auto.
  right. rewrite !py_get_dict in *. ok_inv.
  eexists; split; [reflexivity|].
  unfold col; cbn [dict_get assoc_get String.eqb Ascii.eqb Bool.eqb].
  unfold py_or. apply negb_true_iff in Hp.
  match goal with
  | E : Ok _ = Ok ?v |- _ => injection E as <-
  | _ => idtac
  end.
  rewrite Hp. reflexivity.
Qed.

(** X14: When no Parameter node carries a natural [@id] and the relays have
    pairwise distinct ids, the keys of the parameter table are pairwise
    distinct over the whole table: the synthetic key determines both the
    relay and the position. *)
Theorem positional_parameter_ids_distinct relays t :
  normalize_parameters relays = Ok t ->
  NoDup (map relay_id_text relays) ->
  Forall (fun relay => forallb positional_parameter (parameter_nodes relay) = true)
         relays ->
  NoDup (map (col "parameter_id") t).
Proof.
  intros Ht Hnd Hpos.
  eapply (for_rows_keys_nodup _ (col "parameter_id") relay_id_text
            (fun s k => exists idx, k = PStr ("PAR-" ++ s ++ "-" ++ fmt_d 3 idx)));
    [ | | exact Hnd | exact Ht].
  - intros s s' k (i & ->) (j & H). injection H as H.
    apply split_last_dash in H; try apply fmt_d_no_dash. tauto.
  - intros relay rs Hin Hb.
    rewrite Forall_forall in Hpos. specialize (Hpos relay Hin).
    cbv beta in Hb. ok_inv. get_inv. cbn [relay_id_text parameter_nodes] in *.
    destruct (dict_get d "Parameters") as [| b | z | f | s | l | pb];
      try (destruct (negb (truthy _)); [injection Hb as <-; split; constructor
                                       | discriminate Hb]).
    destruct (negb (truthy _)); [injection Hb as <-; split; constructor|].
    rewrite py_get_dict in Hb. cbn [rbind] in Hb.
    rewrite forallb_forall in Hpos.
    match type of Hb with
    | for_rows (enumerate_from 1 ?l) (parameter_rows ?rid) = Ok _ =>
        rename Hb into Hl;
        destruct (enumerate_rows_keys_in (parameter_rows rid) (col "parameter_id")
                    (make_parameter_id rid) l
                    (fun idx x rs0 Hx =>
                       parameter_rows_key rid idx x rs0 (Hpos x Hx)) _ _ Hl)
          as (idxs & Hmap & Hni & _)
    end.
    split.
    + rewrite Hmap. apply keys_by_index_nodup; [|exact Hni].
      intros i j Hij. apply make_parameter_id_inj in Hij. tauto.
    + apply Forall_forall. intros r Hr.
      apply (in_map (col "parameter_id")) in Hr. rewrite Hmap in Hr.
      apply in_map_iff in Hr as (i & <- & _). exists i. reflexivity.
Qed.

Lemma function_point_rows_shape relay_id func c rs c' :
  function_point_rows relay_id func c = (Ok rs, c') ->
  Forall (fun r => exists idx,
            col "point_id" r = make_point_id (col "curve_id" r) idx) rs.
Proof.
  unfold function_point_rows.
  destruct (negb (is_dict func)).
  { intros H. m_inv. subst. constructor. }
  intros H. m_inv.
  match type of H with
  | context [negb (truthy ?b)] => destruct (negb (truthy b))
  end; [m_inv; subst; constructor|].
  m_inv.
  match goal with
  | Hloop : for_rows (enumerate_from 1 ?l) (point_rows ?cid ?base) = Ok _ |- _ =>
      eapply for_rows_forall; [|exact Hloop]
  end.
  intros (idx, x) rs0 _ Hx.
  destruct (point_rows_key _ _ _ _ _ Hx) as [->|(r & -> & Hp & Hc)];
    constructor; [|constructor]. exists idx. rewrite Hc. exact Hp.
Qed.

(** X15: Over the whole curve-point table, two rows with the same point_id
    carry the same curve_id text: a point key can only collide with a
    point of a curve that has the same id. *)
Theorem point_id_determines_curve_id relays c t c' r1 r2 :
  normalize_curve_points relays c = (Ok t, c') ->
  In r1 t -> In r2 t ->
  col "point_id" r1 = col "point_id" r2 ->
  py_str (col "curve_id" r1) = py_str (col "curve_id" r2).
Proof.
  intros Ht H1 H2 Heq. rewrite normalize_curve_points_loop in Ht.
  pose proof (function_loop_m_forall _ _ _ _ _ _
                (fun relay_id func c0 rs c0' =>
                   function_point_rows_shape relay_id func c0 rs c0') Ht) as Hall.
  rewrite Forall_forall in Hall.
  destruct (Hall _ H1) as (i & Hi). destruct (Hall _ H2) as (j & Hj).
  rewrite Hi, Hj in Heq. apply make_point_id_inj_curve in Heq. tauto.
Qed.

(* ================================================================== *)
(** ** Relay core *)
(* ================================================================== *)

Lemma for_rows_one_each {A} (body : A -> res (list row)) (R : A -> row -> Prop) xs :
  (forall x rs, body x = Ok rs -> exists r, rs = [r] /\ R x r) ->
  forall rows, for_rows xs body = Ok rows -> Forall2 R xs rows.
Proof.
  intros Hb. induction xs as [|x xs IH]; simpl; intros rows H.
  - injection H as <-. constructor.
  - ok_inv.
    match goal with
    | Hx : body x = Ok _ |- _ => destruct (Hb _ _ Hx) as (r & -> & Hr)
    end.
    constructor; [exact Hr | apply IH; assumption].
Qed.

(** X16: The core table has one row per relay, in document order, and the
    row of a relay carries its [@id], manufacturer and model as they
    stand in the tree (absent attributes as [None]): no relay is dropped,
    merged or reordered. *)
Theorem relays_core_one_row_per_relay relays core :
  normalize_relays_core relays = Ok core ->
  Forall2 (fun relay r =>
             exists rd, relay = PDict rd
                        /\ col "relay_id" r = dict_get rd "@id"
                        /\ col "manufacturer" r = dict_get rd "@manufacturer"
                        /\ col "model" r = dict_get rd "@model")
          relays core.
Proof.
  apply for_rows_one_each. intros relay rs H. ok_inv. get_inv.
  eexists; split; [reflexivity|]. eexists; repeat split.
Qed.

(* ================================================================== *)
(** ** Attributes of a curve: columns and extension *)
(* ================================================================== *)

Lemma attrs_of_nodup items : NoDup (map fst (attrs_of items)).
Proof.
  unfold attrs_of.
  assert (H : forall acc, NoDup (map fst acc) ->
            NoDup (map fst (fold_left
              (fun acc (kv : string * pyval) =>
                 if startswith "@" (fst kv)
                 then assoc_set acc (lstrip_at (fst kv)) (snd kv)
                 else acc) items acc))).
  { induction items as [|kv items IH]; intros acc Hacc; [exact Hacc|].
    cbn [fold_left]. apply IH. destruct (startswith "@" (fst kv)); [|exact Hacc].
    apply assoc_set_nodup, Hacc. }
  apply H. constructor.
Qed.

Lemma assoc_del_filter (P : string * pyval -> bool) (d : list (string * pyval)) k :
  NoDup (map fst d) ->
  assoc_del (filter P d) k
  = filter (fun kv => P kv && negb (String.eqb k (fst kv))) d.
Proof.
  induction d as [|(k', v') d IH]; intros Hnd; [reflexivity|].
  inversion Hnd as [|? ? Hk Hnd']; subst. cbn [filter fst].
  destruct (P (k', v')) eqn:EP; cbn [andb].
  - cbn [assoc_del]. destruct (String.eqb_spec k k') as [->|Hne]; cbn [negb].
    + apply filter_ext_in. intros (k2, v2) Hin. cbn [fst].
      destruct (String.eqb_spec k' k2) as [->|_];
        [exfalso; apply Hk; apply (in_map fst) in Hin; exact Hin|].
      now rewrite andb_true_r.
    + f_equal. apply IH, Hnd'.
  - apply IH, Hnd'.
Qed.

Lemma filter_true {A} (l : list A) : filter (fun _ => true) l = l.
Proof. induction l as [|x l IH]; [reflexivity|]. cbn. now rewrite IH. Qed.

Lemma curve_extension_pops items :
  assoc_del (assoc_del (assoc_del (assoc_del (assoc_del (assoc_del (assoc_del
    (assoc_del (attrs_of items) "family") "type") "standard") "pickupPU")
    "pickupA") "timeDial") "minTimeSeconds") "parametric"
  = curve_extension items.
Proof.
  pose proof (attrs_of_nodup items) as Hnd.
  rewrite <- (filter_true (attrs_of items)) at 1.
  rewrite !assoc_del_filter by exact Hnd.
  unfold curve_extension. apply filter_ext. intros (k, v).
  cbn [fst str_in curve_column_attrs existsb andb].
  rewrite !(String.eqb_sym k).
  repeat match goal with
    | |- context [String.eqb ?a k] => destruct (String.eqb a k)
    end; reflexivity.
Qed.

Lemma assoc_get_del_other {V} (d : list (string * V)) k k' :
  k <> k' -> assoc_get (assoc_del d k') k = assoc_get d k.
Proof.
  intros Hne.
  induction d as [|(k2, v2) d IH]; [reflexivity|]. cbn [assoc_del].
  destruct (String.eqb_spec k' k2) as [->|Hne2]; cbn [assoc_get].
  - destruct (String.eqb_spec k k2); [congruence | reflexivity].
  - rewrite IH. reflexivity.
Qed.

(** X17: Every attribute of a Curve node lands in exactly one place: the eight
    attributes that have a column go to their column and are left out of
    the extension map, and all the others (the id among them) are kept in
    extra_json, which is null when there is none. *)
Theorem curve_attribute_in_column_or_extension relay_id func_id idx items c rows c' :
  curve_rows relay_id func_id (idx, PDict items) c = (Ok rows, c') ->
  exists r,
    rows = [r]
    /\ col "family" r = dict_get (attrs_of items) "family"
    /\ col "type" r = dict_get (attrs_of items) "type"
    /\ col "standard" r = dict_get (attrs_of items) "standard"
    /\ safe_float (dict_get (attrs_of items) "pickupPU") = Ok (col "pickup_pu" r)
    /\ safe_float (dict_get (attrs_of items) "pickupA") = Ok (col "pickup_a" r)
    /\ safe_float (dict_get (attrs_of items) "timeDial") = Ok (col "time_dial" r)
    /\ safe_float (dict_get (attrs_of items) "minTimeSeconds")
       = Ok (col "min_time_sec" r)
    /\ col "parametric" r = parse_parametric (dict_get (attrs_of items) "parametric")
    /\ col "extra_json" r
       = match curve_extension items with
         | [] => PNone
         | ext => PStr (json_dumps (PDict ext))
         end.
Proof.
  unfold curve_rows, dict_pop. intros H. m_inv. subst.
  eexists. split; [reflexivity|].
  unfold col. cbn [dict_get assoc_get String.eqb Ascii.eqb Bool.eqb].
  rewrite curve_extension_pops.
  unfold dict_get in *.
  repeat match goal with
    | H : context [assoc_get (assoc_del _ _) _] |- _ =>
        rewrite !assoc_get_del_other in H by discriminate
    end.
  rewrite ?assoc_get_del_other by discriminate.
  repeat split; try assumption.
  destruct (curve_extension items); reflexivity.
Qed.

(* ================================================================== *)
(** ** The properties at a relay with every block *)
(* ================================================================== *)

Lemma full_tables_run :
  normalize_tables [full_relay] _ID_COUNTERS = (Ok full_tables, _ID_COUNTERS).
Proof. vm_compute. reflexivity. Qed.

Lemma selectivity_ids_distinct_per_function_witness :
  NoDup (map (col "selectivity_id") (table_named "relays_selectivity" full_tables)).
Proof.
  apply (selectivity_ids_distinct_per_function (PStr "R1") (PDict full_function)).
  vm_compute. reflexivity.
Defined.

Lemma curve_point_ids_distinct_per_function_witness :
  exists curve_id,
    Forall (fun r => col "curve_id" r = curve_id
                     /\ exists idx, (1 <= idx)%nat
                          /\ col "point_id" r = make_point_id curve_id idx)
           (table_named "relays_curve_points" full_tables)
    /\ NoDup (map (col "point_id") (table_named "relays_curve_points" full_tables)).
Proof.
  apply (curve_point_ids_distinct_per_function (PStr "R1") (PDict full_function)
           _ID_COUNTERS _ _ID_COUNTERS).
  vm_compute. reflexivity.
Defined.

Lemma tables_have_fixed_columns_witness :
  has_columns "relays_cts" (table_named "relays_cts" full_tables).
Proof.
  apply (proj2 (tables_have_fixed_columns [full_relay] _ID_COUNTERS full_tables
                  _ID_COUNTERS full_tables_run)).
  right; left; reflexivity.
Defined.

Lemma child_rows_reference_a_core_row_witness :
  exists q, In q (table_named "relays_core" full_tables)
            /\ col "relay_id" q
               = col "relay_id" (hd [] (table_named "relays_vts" full_tables)).
Proof.
  apply (child_rows_reference_a_core_row [full_relay] _ID_COUNTERS full_tables
           _ID_COUNTERS full_tables_run "relays_vts").
  - right; left; reflexivity.
  - left; reflexivity.
Defined.

Lemma child_rows_reference_a_function_row_witness :
  exists q, In q (table_named "relays_functions" full_tables)
            /\ col "function_id" q
               = col "function_id"
                     (hd [] (table_named "relays_selectivity" full_tables)).
Proof.
  apply (proj1 (child_rows_reference_a_function_row [full_relay] _ID_COUNTERS
                  full_tables _ID_COUNTERS full_tables_run) "relays_selectivity").
  - right; left; reflexivity.
  - left; reflexivity.
Defined.

Lemma strip_namespaces_keeps_clean_tree_witness :
  strip_namespaces ct_relay_100_5 = ct_relay_100_5.
Proof.
  apply (strip_namespaces_keeps_clean_tree ct_relay_100_5).
  cbn. repeat split; repeat constructor; cbn; intuition discriminate.
Defined.

Lemma extract_and_normalize_find_the_same_relays_witness :
  (forall relays,
      relays <> [] ->
      (extract_relays (PDict [("Relays", PDict [("Relay", PList [full_relay])])])
       = Ok relays
       <-> get_relays_list (document [full_relay]) = Ok relays))
  /\ (extract_relays (PDict [("Relays", PDict [("Relay", PList [full_relay])])])
      = Ok [] ->
      get_relays_list (document [full_relay]) = Raise SystemExit
      \/ get_relays_list (document [full_relay]) = Ok []).
Proof.
  apply (extract_and_normalize_find_the_same_relays (document [full_relay])).
  reflexivity.
Defined.

Lemma positional_parameter_ids_distinct_witness :
  NoDup (map (col "parameter_id") (table_named "relays_parameters" full_tables)).
Proof.
  apply (positional_parameter_ids_distinct [full_relay]).
  - vm_compute. reflexivity.
  - constructor; [intros [] | constructor].
  - constructor; [reflexivity | constructor].
Defined.

Lemma point_id_determines_curve_id_witness :
  py_str (col "curve_id" (nth 0 shared_curve_points []))
  = py_str (col "curve_id" (nth 1 shared_curve_points [])).
Proof.
  apply (point_id_determines_curve_id [shared_curve_relay] _ID_COUNTERS
           shared_curve_points _ID_COUNTERS).
  - vm_compute. reflexivity.
  - left; reflexivity.
  - right; left; reflexivity.
  - reflexivity.
Defined.

Lemma relays_core_one_row_per_relay_witness :
  Forall2 (fun relay r =>
             exists rd, relay = PDict rd
                        /\ col "relay_id" r = dict_get rd "@id"
                        /\ col "manufacturer" r = dict_get rd "@manufacturer"
                        /\ col "model" r = dict_get rd "@model")
          [full_relay] (table_named "relays_core" full_tables).
Proof.
  apply (relays_core_one_row_per_relay [full_relay]).
  vm_compute. reflexivity.
Defined.

Lemma curve_attribute_in_column_or_extension_witness :
  exists r,
    table_named "relays_curves" full_tables = [r]
    /\ col "family" r = dict_get (attrs_of full_curve) "family"
    /\ col "type" r = dict_get (attrs_of full_curve) "type"
    /\ col "standard" r = dict_get (attrs_of full_curve) "standard"
    /\ safe_float (dict_get (attrs_of full_curve) "pickupPU") = Ok (col "pickup_pu" r)
    /\ safe_float (dict_get (attrs_of full_curve) "pickupA") = Ok (col "pickup_a" r)
    /\ safe_float (dict_get (attrs_of full_curve) "timeDial") = Ok (col "time_dial" r)
    /\ safe_float (dict_get (attrs_of full_curve) "minTimeSeconds")
       = Ok (col "min_time_sec" r)
    /\ col "parametric" r
       = parse_parametric (dict_get (attrs_of full_curve) "parametric")
    /\ col "extra_json" r
       = match curve_extension full_curve with
         | [] => PNone
         | ext => PStr (json_dumps (PDict ext))
         end.
Proof.
  apply (curve_attribute_in_column_or_extension (PStr "R1") (PStr "F1") 1
           full_curve _ID_COUNTERS _ _ID_COUNTERS).
  vm_compute. reflexivity.
Defined.

(* ================================================================== *)
(** ** Keys drawn from the fallback counter *)
(* ================================================================== *)

Lemma counter_value_drawn c kind :
  counter_value (assoc_set c kind (S (counter_value c kind))) kind
  = S (counter_value c kind).
Proof. unfold counter_value at 1. now rewrite assoc_get_set_same. Qed.

(** A loop whose iterations key each of their rows with the next draw of
    a counter keys its rows with consecutive draws. *)
Lemma for_rows_m_consecutive {A} (body : A -> M (list row)) (key : row -> pyval)
    (g : nat -> pyval) (kind : string) xs :
  (forall x c0 rs c0',
      In x xs -> body x c0 = (Ok rs, c0') ->
      map key rs = map g (seq (S (counter_value c0 kind)) (List.length rs))
      /\ counter_value c0' kind = (counter_value c0 kind + List.length rs)%nat) ->
  forall c rows c',
    for_rows_m xs body c = (Ok rows, c') ->
    map key rows = map g (seq (S (counter_value c kind)) (List.length rows))
    /\ counter_value c' kind = (counter_value c kind + List.length rows)%nat.
Proof.
  induction xs as [|x xs IH]; simpl; intros Hb c rows c' H.
  - m_inv. subst. simpl. split; [reflexivity | lia].
  - m_inv. subst.
    match goal with
    | Hx : body x c = (Ok ?a, ?c1), Hl : for_rows_m xs body ?c1 = (Ok ?b, _) |- _ =>
        destruct (Hb x c a c1 (or_introl eq_refl) Hx) as (Hka & Hca);
        destruct (IH (fun y c0 rs c0' Hy => Hb y c0 rs c0' (or_intror Hy)) _ _ _ Hl)
          as (Hkb & Hcb)
    end.
    rewrite map_app, length_app, seq_app, map_app, Hka, Hkb, Hcb, Hca.
    split; [reflexivity | lia].
Qed.

Lemma vt_auto_id_inj i j : vt_auto_id i = vt_auto_id j -> i = j.
Proof.
  unfold vt_auto_id. intros H. strip_prefix H. eapply fmt_d_inj; exact H.
Qed.

Lemma make_vt_id_fallback relay_id xml_id idx c v c' :
  truthy relay_id = false -> truthy xml_id = false ->
  make_vt_id relay_id xml_id idx c = (Ok v, c') ->
  v = vt_auto_id (S (counter_value c "VT"))
  /\ counter_value c' "VT" = S (counter_value c "VT").
Proof.
  unfold make_vt_id. intros -> ->. intros H.
  unfold mbind, _next_counter, mret in H. injection H as <- <-.
  split; [reflexivity | apply counter_value_drawn].
Qed.

(** X18: When the relays carry no [@id] and their VT nodes none either,
    every VT row is keyed from the fallback counter: the keys of the table
    are VT-AUTO-n for the consecutive numbers that follow the value the
    counter had, one draw per row, so they are pairwise distinct and the
    counter ends advanced by the number of rows. *)
Theorem fallback_vt_ids_are_consecutive relays c t c' :
  normalize_vts relays c = (Ok t, c') ->
  Forall (fun relay => draws_vt_fallback relay = true) relays ->
  map (col "vt_id") t
  = map vt_auto_id (seq (S (counter_value c "VT")) (List.length t))
  /\ counter_value c' "VT" = (counter_value c "VT" + List.length t)%nat
  /\ NoDup (map (col "vt_id") t).
Proof.
  intros Ht Hall.
  assert (H : map (col "vt_id") t
              = map vt_auto_id (seq (S (counter_value c "VT")) (List.length t))
              /\ counter_value c' "VT" = (counter_value c "VT" + List.length t)%nat).
  { revert c t c' Ht. unfold normalize_vts.
    apply for_rows_m_consecutive.
    intros relay c0 rs c0' Hin Hb. rewrite Forall_forall in Hall.
    specialize (Hall relay Hin). cbv beta in Hb. m_inv. get_inv.
    cbn [draws_vt_fallback vt_nodes_of] in Hall.
    apply andb_true_iff in Hall as (Hid & Hnodes). apply negb_true_iff in Hid.
    destruct (dict_get d "VTs") as [| b | z | f | s | l | vb];
      try (destruct (negb (truthy _));
           [m_inv; subst; simpl; split; [reflexivity | lia]
           | m_inv; discriminate]).
    destruct (negb (truthy _));
      [m_inv; subst; simpl; split; [reflexivity | lia]|].
    m_inv. get_inv.
    destruct (dict_get vb "VT") as [| b | z | f | s | l | vd] eqn:Evt.
    1: { m_inv. subst.
         match goal with
         | Hm : make_vt_id _ _ _ _ = _ |- _ =>
             apply make_vt_id_fallback in Hm; [|assumption | reflexivity];
             destruct Hm as (-> & Hm)
         end.
         cbn [List.length seq map]. split; [reflexivity | lia]. }
    all: revert Hb; apply for_rows_m_consecutive;
      intros (idx, vt) c1 rs1 c1' Hvt Hrow; apply enumerate_from_in in Hvt;
      rewrite forallb_forall in Hnodes; specialize (Hnodes vt Hvt);
      unfold vt_rows in Hrow;
      destruct vt as [| b' | z' | f' | s' | l' | vtd]; cbn [is_dict negb] in Hrow;
      try (m_inv; subst; simpl; split; [reflexivity | lia]);
      m_inv; get_inv; cbn [positional_parameter] in Hnodes;
      apply negb_true_iff in Hnodes;
      match goal with
      | Hm : make_vt_id _ _ _ _ = _ |- _ =>
          apply make_vt_id_fallback in Hm; [|assumption | assumption];
          destruct Hm as (-> & Hm)
      end;
      ok_inv; cbn [List.length seq map]; split; [reflexivity | lia]. }
  destruct H as (Hk & Hc). split; [exact Hk|]. split; [exact Hc|].
  rewrite Hk. apply Injective_map_NoDup; [exact vt_auto_id_inj | apply seq_NoDup].
Qed.

(* ================================================================== *)
(** ** Typed columns of the settings table *)
(* ================================================================== *)

Lemma find_app_first {A} (f : A -> bool) l1 l2 :
  find f (l1 ++ l2)%list
  = match find f l1 with Some x => Some x | None => find f l2 end.
Proof.
  induction l1 as [|x l1 IH]; [reflexivity|]. simpl.
  destruct (f x); [reflexivity | exact IH].
Qed.

(** The two nested loops visit the raw settings one by one. *)
Lemma aggregate_flat bp a :
  fold_res (fun a (pi : string * list (string * pyval)) =>
              fold_res (agg_step (fst pi)) (snd pi) a) bp a
  = fold_res (fun a t => agg_step (parameter t) a (attribute t, value t))
             (flatten_by_param bp) a.
Proof.
  assert (Happ : forall (xs ys : list raw_setting) s,
            fold_res (fun a t => agg_step (parameter t) a (attribute t, value t))
                     (xs ++ ys)%list s
            = rbind (fold_res (fun a t => agg_step (parameter t) a (attribute t, value t))
                              xs s)
                    (fold_res (fun a t => agg_step (parameter t) a (attribute t, value t))
                              ys)).
  { induction xs as [|x xs IH]; intros ys s; [reflexivity|].
    cbn [app fold_res].
    destruct (agg_step (parameter x) s (attribute x, value x)); cbn [rbind];
      [apply IH | reflexivity]. }
  revert a. induction bp as [|(p, items) bp IH]; intros a; [reflexivity|].
  cbn [flatten_by_param flat_map fold_res fst snd]. rewrite Happ.
  assert (Hin : forall s,
            fold_res (agg_step p) items s
            = fold_res (fun a t => agg_step (parameter t) a (attribute t, value t))
                       (map (fun av => mk_raw p (fst av) (snd av)) items) s).
  { induction items as [|(attr, v) items IHi]; intros s; [reflexivity|].
    cbn [map fold_res fst snd parameter attribute value].
    destruct (agg_step p s (attr, v)); cbn [rbind]; [apply IHi | reflexivity]. }
  rewrite Hin. destruct (fold_res _ (map _ items) a); cbn [rbind];
    [apply IH | reflexivity].
Qed.

Section TypedColumn.

Variable proj : agg -> pyval.
Variable names : list string.

Hypothesis step_column :
  forall p a attr v a',
    agg_step p a (attr, v) = Ok a' ->
    if str_in (lower p) names then safe_float v = Ok (proj a')
    else proj a' = proj a.

Lemma fold_column raws :
  forall a a',
    fold_res (fun a t => agg_step (parameter t) a (attribute t, value t)) raws a
    = Ok a' ->
    match last_mapped names raws with
    | Some t => safe_float (value t) = Ok (proj a')
    | None => proj a' = proj a
    end.
Proof.
  unfold last_mapped.
  induction raws as [|t raws IH]; cbn [fold_res rev]; intros a a' H.
  - injection H as <-. reflexivity.
  - apply rbind_ok in H as (a1 & Hs & H).
    pose proof (step_column _ _ _ _ _ Hs) as Hstep.
    specialize (IH a1 a' H).
    rewrite find_app_first.
    destruct (find _ (rev raws)); [exact IH|].
    cbn [find]. destruct (str_in (lower (parameter t)) names); congruence.
Qed.

End TypedColumn.

(** From a parameter name found in one set of names, its value. *)
Ltac name_cases E :=
  cbn [str_in existsb] in E; rewrite ?orb_false_r in E;
  repeat (apply orb_true_iff in E; destruct E as [E|E]);
  apply String.eqb_eq in E.

Lemma agg_step_columns p a attr v a' :
  agg_step p a (attr, v) = Ok a' ->
  Forall (fun pn : (agg -> pyval) * list string =>
            if str_in (lower p) (snd pn) then safe_float v = Ok (fst pn a')
            else fst pn a' = fst pn a)
         [(pickup_pu, ["pickupperunit"; "pickup_per_unit"; "pickup_pu"]);
          (pickup_a, ["pickupamps"; "pickup_a"; "pickup_current"]);
          (time_dial, ["timedial"; "time_dial"]);
          (min_time_seconds, ["mintimeseconds"; "min_time_seconds"; "min_time"]);
          (thermal_constant, ["thermalconstant"; "thermal_constant"]);
          (full_load_current, ["fullloadcurrent"; "full_load_current"; "fla"]);
          (trip_class, ["tripclass"; "trip_class"])].
Proof.
  unfold agg_step. cbv zeta. remember (lower p) as x eqn:Ex. clear Ex.
  intros H.
  repeat match type of H with
    | (if ?b then _ else _) = _ =>
        let E := fresh "E" in destruct b eqn:E; [name_cases E; subst x|]
    end.
  all: ok_inv; cbn [fst snd pickup_pu pickup_a time_dial min_time_seconds
                    thermal_constant full_load_current trip_class];
    repeat constructor;
    cbn [fst snd];
    repeat match goal with
      | E : str_in _ _ = false |- _ => rewrite E
      end;
    try reflexivity; try assumption.
Qed.

(** X19: Each typed column of a FunctionSetting row holds the coerced
    value of the last raw setting, in the order the aggregation visits
    them, whose parameter name is mapped to that column, whatever the
    attribute it comes from; the column is null when no parameter is
    mapped to it. *)
Theorem typed_setting_columns_hold_last_mapped_value relay_id fd raws r :
  _collect_raw_settings_for_function (PDict fd) = Ok raws ->
  function_setting_rows relay_id (PDict fd) = Ok [r] ->
  Forall (fun cn : string * list string =>
            match last_mapped (snd cn)
                    (flatten_by_param (fold_left by_param_add raws [])) with
            | Some t => safe_float (value t) = Ok (col (fst cn) r)
            | None => col (fst cn) r = PNone
            end)
         typed_setting_columns.
Proof.
  intros Hc Hr. unfold function_setting_rows in Hr. cbn [is_dict negb] in Hr.
  rewrite py_get_dict in Hr. cbn [rbind] in Hr. rewrite Hc in Hr. cbn [rbind] in Hr.
  destruct raws as [|t0 raws]; [discriminate Hr|].
  set (bp := fold_left by_param_add (t0 :: raws) []) in *.
  destruct (aggregate bp) as [a|e] eqn:Ea; cbn [rbind] in Hr; [|discriminate Hr].
  injection Hr as <-.
  unfold aggregate in Ea. rewrite aggregate_flat in Ea.
  assert (Hstep : forall p a0 attr v a1,
            agg_step p a0 (attr, v) = Ok a1 -> _) by exact agg_step_columns.
  unfold typed_setting_columns.
  repeat constructor; cbn [fst snd]; unfold col;
    cbn [dict_get assoc_get String.eqb Ascii.eqb Bool.eqb].
  1: apply (fold_column pickup_pu _
              (fun p a0 attr v a1 H => Forall_inv (Hstep p a0 attr v a1 H)) _ _ _ Ea).
  1: apply (fold_column pickup_a _
              (fun p a0 attr v a1 H =>
                 Forall_inv (Forall_inv_tail (Hstep p a0 attr v a1 H))) _ _ _ Ea).
  1: apply (fold_column time_dial _
              (fun p a0 attr v a1 H =>
                 Forall_inv (Forall_inv_tail (Forall_inv_tail (Hstep p a0 attr v a1 H))))
              _ _ _ Ea).
  1: apply (fold_column min_time_seconds _
              (fun p a0 attr v a1 H =>
                 Forall_inv (Forall_inv_tail (Forall_inv_tail (Forall_inv_tail
                   (Hstep p a0 attr v a1 H))))) _ _ _ Ea).
  1: apply (fold_column thermal_constant _
              (fun p a0 attr v a1 H =>
                 Forall_inv (Forall_inv_tail (Forall_inv_tail (Forall_inv_tail
                   (Forall_inv_tail (Hstep p a0 attr v a1 H)))))) _ _ _ Ea).
  1: apply (fold_column full_load_current _
              (fun p a0 attr v a1 H =>
                 Forall_inv (Forall_inv_tail (Forall_inv_tail (Forall_inv_tail
                   (Forall_inv_tail (Forall_inv_tail (Hstep p a0 attr v a1 H)))))))
              _ _ _ Ea).
  apply (fold_column trip_class _
           (fun p a0 attr v a1 H =>
              Forall_inv (Forall_inv_tail (Forall_inv_tail (Forall_inv_tail
                (Forall_inv_tail (Forall_inv_tail (Forall_inv_tail
                  (Hstep p a0 attr v a1 H)))))))) _ _ _ Ea).
Qed.

(* ================================================================== *)
(** ** Where a run is aborted *)
(* ================================================================== *)

Lemma no_exit_bind {A B} (r : res A) (k : A -> res B) :
  no_exit r -> (forall a, no_exit (k a)) -> no_exit (rbind r k).
Proof.
  unfold no_exit. destruct r as [a|e]; simpl; intros Hr Hk; [apply Hk|].
  intros [= ->]. apply Hr. reflexivity.
Qed.

Lemma no_exit_for_rows {A} (xs : list A) (body : A -> res (list row)) :
  (forall x, no_exit (body x)) -> no_exit (for_rows xs body).
Proof.
  intros Hb. induction xs as [|x xs IH]; simpl; [discriminate|].
  apply no_exit_bind; [apply Hb|]. intros a.
  apply no_exit_bind; [apply IH|]. discriminate.
Qed.

Lemma no_exit_fold_res {A S} (step : S -> A -> res S) xs :
  (forall s x, no_exit (step s x)) -> forall s, no_exit (fold_res step xs s).
Proof.
  intros Hs. induction xs as [|x xs IH]; simpl; intros s; [discriminate|].
  apply no_exit_bind; [apply Hs | apply IH].
Qed.

Lemma no_exit_py_get_default x k dflt : no_exit (py_get_default x k dflt).
Proof. destruct x; discriminate. Qed.

Lemma no_exit_py_get x k : no_exit (py_get x k).
Proof. apply no_exit_py_get_default. Qed.

Lemma no_exit_py_items x : no_exit (py_items x).
Proof. destruct x; discriminate. Qed.

Lemma no_exit_py_contains k x : no_exit (py_contains k x).
Proof. destruct x; discriminate. Qed.

Lemma no_exit_py_index x k : no_exit (py_index x k).
Proof. destruct x; try discriminate. simpl. destruct (assoc_get _ k); discriminate. Qed.

Lemma no_exit_safe_float v : no_exit (safe_float v).
Proof.
  assert (Hf : forall z, no_exit (float_of_int z)).
  { intros z. unfold float_of_int.
    repeat match goal with
      | |- no_exit (if ?b then _ else _) => destruct b
      end; discriminate. }
  destruct v; simpl; try discriminate.
  1-2: apply no_exit_bind; [apply Hf | discriminate].
  all: repeat match goal with
         | |- no_exit (if ?b then _ else _) => destruct b
         | |- no_exit (match ?o with Some _ => _ | None => _ end) => destruct o
         end; discriminate.
Qed.

(** Walk a chain of fallible steps none of which is [sys.exit]. *)
Ltac no_exit_auto :=
  repeat first
    [ apply no_exit_py_get
    | apply no_exit_py_get_default
    | apply no_exit_py_items
    | apply no_exit_py_contains
    | apply no_exit_py_index
    | apply no_exit_safe_float
    | apply no_exit_for_rows; intros
    | apply no_exit_fold_res; intros
    | apply no_exit_bind; [|intros]
    | match goal with
      | |- no_exit (Ok _) => discriminate
      | |- no_exit (if ?b then _ else _) => destruct b
      | |- no_exit (match ?v with _ => _ end) => destruct v
      | |- no_exit (let '(_, _) := ?p in _) => destruct p
      end ].

Lemma no_exit_m_ret {A} (a : A) : no_exit_m (mret a).
Proof. intros c. discriminate. Qed.

Lemma no_exit_m_lift {A} (r : res A) : no_exit r -> no_exit_m (lift r).
Proof. intros H c. exact H. Qed.

Lemma no_exit_m_bind {A B} (m : M A) (k : A -> M B) :
  no_exit_m m -> (forall a, no_exit_m (k a)) -> no_exit_m (mbind m k).
Proof.
  intros Hm Hk c. unfold mbind. specialize (Hm c).
  destruct (m c) as ([a|e], c1); simpl in *; [apply Hk|].
  intros [= ->]. apply Hm. reflexivity.
Qed.

Lemma no_exit_m_for_rows {A} (xs : list A) (body : A -> M (list row)) :
  (forall x, no_exit_m (body x)) -> no_exit_m (for_rows_m xs body).
Proof.
  intros Hb. induction xs as [|x xs IH]; simpl; [apply no_exit_m_ret|].
  apply no_exit_m_bind; [apply Hb|]. intros a.
  apply no_exit_m_bind; [apply IH|]. intros b. apply no_exit_m_ret.
Qed.

Lemma no_exit_m_next_counter kind : no_exit_m (_next_counter kind).
Proof. intros c. discriminate. Qed.

Lemma no_exit_m_make_vt_id relay_id xml_id idx :
  no_exit_m (make_vt_id relay_id xml_id idx).
Proof.
  unfold make_vt_id. destruct (truthy xml_id); [apply no_exit_m_ret|].
  destruct (truthy relay_id); [apply no_exit_m_ret|].
  apply no_exit_m_bind; [apply no_exit_m_next_counter | intros; apply no_exit_m_ret].
Qed.

Lemma no_exit_m_make_curve_id relay_id func_id xml_id idx :
  no_exit_m (make_curve_id relay_id func_id xml_id idx).
Proof.
  unfold make_curve_id. destruct (truthy xml_id); [apply no_exit_m_ret|].
  destruct (truthy relay_id && truthy func_id); [apply no_exit_m_ret|].
  apply no_exit_m_bind; [apply no_exit_m_next_counter | intros; apply no_exit_m_ret].
Qed.

Ltac no_exit_m_auto :=
  repeat first
    [ apply no_exit_m_ret
    | apply no_exit_m_make_vt_id
    | apply no_exit_m_make_curve_id
    | apply no_exit_m_for_rows; intros
    | apply no_exit_m_bind; [|intros]
    | apply no_exit_m_lift; no_exit_auto
    | match goal with
      | |- no_exit_m (if ?b then _ else _) => destruct b
      | |- no_exit_m (match ?v with _ => _ end) => destruct v
      | |- no_exit_m (let '(_, _) := ?p in _) => destruct p
      end ].

Lemma no_exit_normalize_tables relays : no_exit_m (normalize_tables relays).
Proof.
  unfold normalize_tables.
  repeat (apply no_exit_m_bind; [|intros]); try apply no_exit_m_ret.
  - apply no_exit_m_lift. unfold normalize_relays_core. no_exit_auto.
  - apply no_exit_m_lift. unfold normalize_cts. no_exit_auto;
      unfold ct_rows; no_exit_auto.
  - unfold normalize_vts. no_exit_m_auto; unfold vt_rows; no_exit_m_auto; no_exit_auto.
  - apply no_exit_m_lift. unfold normalize_functions. no_exit_auto;
      unfold function_rows; no_exit_auto.
  - apply no_exit_m_lift. unfold normalize_function_settings. no_exit_auto;
      unfold function_setting_rows; no_exit_auto;
      unfold _collect_raw_settings_for_function, aggregate; no_exit_auto;
      unfold agg_step; no_exit_auto.
  - unfold normalize_function_curves. no_exit_m_auto;
      unfold function_curve_rows; no_exit_m_auto;
      unfold curve_candidates, curve_rows, dict_pop; no_exit_m_auto; no_exit_auto.
  - unfold normalize_curve_points. no_exit_m_auto;
      unfold function_point_rows; no_exit_m_auto;
      unfold curve_candidates, point_rows; no_exit_m_auto; no_exit_auto.
  - apply no_exit_m_lift. unfold normalize_parameters. no_exit_auto;
      unfold parameter_rows; no_exit_auto.
  - apply no_exit_m_lift. unfold normalize_selectivity. no_exit_auto;
      unfold function_selectivity_rows; no_exit_auto;
      unfold downstream_rows, upstream_rows; no_exit_auto.
Qed.

(** X20: On a dict document, a NORMALIZE run is aborted by [sys.exit]
    exactly when the relay list cannot be located: ProtectionDataset,
    its Relays node or the Relay entry of that node is missing. Whatever
    else the tree holds, no extraction function exits: they return or
    raise an ordinary exception. *)
Theorem run_exits_iff_relay_list_missing d c :
  fst (run_normalize_pipeline (PDict d) c) = Raise SystemExit
  <-> dict_get d "ProtectionDataset" = PNone
      \/ exists rd,
           dict_get d "ProtectionDataset" = PDict rd
           /\ (dict_get rd "Relays" = PNone
               \/ exists rr, dict_get rd "Relays" = PDict rr
                             /\ dict_get rr "Relay" = PNone).
Proof.
  unfold run_normalize_pipeline, mbind, lift, get_relays_list.
  rewrite py_get_dict. cbn [rbind].
  destruct (dict_get d "ProtectionDataset") as [| b | z | f | s | l | rd] eqn:Er.
  1: split; auto.
  1-5: split; [discriminate | intros [H|(rd' & H & _)]; discriminate].
  rewrite py_get_dict. cbn [rbind].
  destruct (dict_get rd "Relays") as [| b | z | f | s | l | rr] eqn:Es.
  1: split; [intros _; right; exists rd; auto | reflexivity].
  1-5: split; [discriminate
              | intros [H|(rd' & H & [Hs|(rr' & Hs & _)])];
                [discriminate | injection H as <-; congruence
                | injection H as <-; congruence]].
  rewrite py_get_dict. cbn [rbind].
  destruct (dict_get rr "Relay") as [| b | z | f | s | l | x] eqn:Ex.
  1: split; [intros _; right; exists rd; split; [reflexivity|];
             right; exists rr; auto | reflexivity].
  all: split;
    [ intros H; exfalso; revert H; apply no_exit_normalize_tables
    | intros [H|(rd' & H & [Hs|(rr' & Hs & Hx)])];
      [ discriminate | injection H as <-; congruence
      | injection H as <-; rewrite Es in Hs; injection Hs as <-; congruence ] ].
Qed.

Lemma fallback_vt_ids_are_consecutive_witness :
  map (col "vt_id") (fst unnamed_vt_run)
  = map vt_auto_id (seq (S (counter_value _ID_COUNTERS "VT"))
                        (List.length (fst unnamed_vt_run)))
  /\ counter_value (snd unnamed_vt_run) "VT"
     = (counter_value _ID_COUNTERS "VT" + List.length (fst unnamed_vt_run))%nat
  /\ NoDup (map (col "vt_id") (fst unnamed_vt_run)).
Proof.
  apply (fallback_vt_ids_are_consecutive unnamed_vt_relays).
  - vm_compute. reflexivity.
  - repeat constructor.
Defined.

Lemma typed_setting_columns_hold_last_mapped_value_witness :
  Forall (fun cn : string * list string =>
            match last_mapped (snd cn)
                    (flatten_by_param
                       (fold_left by_param_add
                          [mk_raw "TimeDial" "value" (PStr "0.5");
                           mk_raw "TimeDial" "unit" (PStr "s")] [])) with
            | Some t => safe_float (value t) = Ok (col (fst cn) time_dial_with_unit_row)
            | None => col (fst cn) time_dial_with_unit_row = PNone
            end)
         typed_setting_columns.
Proof.
  apply (typed_setting_columns_hold_last_mapped_value (PStr "R1") time_dial_with_unit).
  - reflexivity.
  - vm_compute. reflexivity.
Defined.

(* ================================================================== *)
(** ** Rows of a loop, item by item *)
(* ================================================================== *)

Lemma flat_map_flat_map {A B C} (f : B -> list C) (g : A -> list B) l :
  flat_map f (flat_map g l) = flat_map (fun x => flat_map f (g x)) l.
Proof.
  induction l as [|x l IH]; [reflexivity|]. simpl.
  rewrite flat_map_app, IH. reflexivity.
Qed.

Lemma filter_flat_map {A} (p : A -> bool) l :
  filter p l = flat_map (fun x => if p x then [x] else []) l.
Proof.
  induction l as [|x l IH]; [reflexivity|]. simpl.
  destruct (p x); simpl; rewrite IH; reflexivity.
Qed.

(** The rows of a loop are those of its iterations, in order. *)
Lemma for_rows_forall2 {A X} (R : X -> row -> Prop) (sel : A -> list X)
    (body : A -> res (list row)) xs :
  (forall x rs, In x xs -> body x = Ok rs -> Forall2 R (sel x) rs) ->
  forall rows, for_rows xs body = Ok rows -> Forall2 R (flat_map sel xs) rows.
Proof.
  induction xs as [|x xs IH]; simpl; intros Hb rows H.
  - injection H as <-. constructor.
  - ok_inv. apply Forall2_app.
    + apply Hb; [left; reflexivity | assumption].
    + apply IH; [|assumption]. intros y rs Hy. apply Hb. right; exact Hy.
Qed.


Lemma in_doc_functions relays rd pf fd :
  In (PDict rd) relays ->
  dict_get rd "ProtectionFunctions" = PDict pf ->
  In (PDict fd) (ensure_list (dict_get pf "Function")) ->
  In (dict_get rd "@id", fd) (doc_functions relays).
Proof.
  intros Hrel Hpf Hf. unfold doc_functions. apply in_flat_map.
  exists (PDict rd). split; [exact Hrel|].
  cbn [functions_of]. rewrite Hpf. apply in_flat_map.
  exists (PDict fd). split; [exact Hf | left; reflexivity].
Qed.

Lemma functions_of_falsy rd :
  truthy (dict_get rd "ProtectionFunctions") = false ->
  functions_of (PDict rd) = [].
Proof.
  cbn [functions_of]. destruct (dict_get rd "ProtectionFunctions") as [| | | | | |pf];
    try reflexivity.
  destruct pf; [reflexivity | discriminate].
Qed.

(** The rows of a loop over the functions of the relays are those of the
    structured functions, in document order. *)
Lemma function_loop_forall2 {X} (R : X -> row -> Prop)
    (sel : pyval * list (string * pyval) -> list X) body relays t :
  (forall relay_id func rs,
     is_dict func = false -> body relay_id func = Ok rs -> rs = []) ->
  (forall rf rs,
     In rf (doc_functions relays) ->
     body (fst rf) (PDict (snd rf)) = Ok rs -> Forall2 R (sel rf) rs) ->
  function_loop body relays = Ok t ->
  Forall2 R (flat_map sel (doc_functions relays)) t.
Proof.
  intros Hskip Hb Ht. unfold doc_functions. rewrite flat_map_flat_map.
  revert t Ht. unfold function_loop. apply for_rows_forall2.
  intros relay rs Hrel Hbody. cbv beta in Hbody. ok_inv. get_inv.
  match type of Hbody with
  | context [truthy ?b] => destruct (truthy b) eqn:Eb
  end; cbn [negb] in Hbody.
  2: { injection Hbody as <-. rewrite (functions_of_falsy _ Eb). constructor. }
  ok_inv.
  match goal with
  | H : py_get _ "Function" = Ok _ |- _ =>
      apply py_get_ok in H; destruct H as (pf & Hpf & ->)
  end.
  cbn [functions_of]. rewrite Hpf. rewrite flat_map_flat_map.
  revert rs Hbody. apply for_rows_forall2.
  intros func rs Hfunc Hrows.
  destruct func as [| | | | | |fd];
    try (apply Hskip in Hrows; [subst rs; constructor | reflexivity]).
  cbn [flat_map]. rewrite app_nil_r.
  apply (Hb (dict_get d "@id", fd)); [|exact Hrows].
  eapply in_doc_functions; eassumption.
Qed.


(* ================================================================== *)
(** ** One settings row per function *)
(* ================================================================== *)

Lemma function_setting_rows_for relay_id fd rs :
  function_setting_rows relay_id (PDict fd) = Ok rs ->
  Forall2 setting_row_for
          (if has_raw_settings fd then [(relay_id, fd)] else []) rs.
Proof.
  intros Hrows. unfold has_raw_settings.
  destruct (_collect_raw_settings_for_function (PDict fd)) as [raws|e] eqn:Hc.
  - pose proof (function_setting_rows_spec relay_id fd raws Hc) as Hspec.
    destruct raws as [|t0 raws].
    + rewrite Hspec in Hrows. injection Hrows as <-. constructor.
    + destruct (aggregate _) as [a|e]; [|congruence].
      destruct Hspec as (r & Hr & Hid & Hf & _). rewrite Hr in Hrows.
      injection Hrows as <-. constructor; [|constructor].
      split; [exact Hid | exact Hf].
  - unfold function_setting_rows in Hrows. cbn [is_dict negb] in Hrows.
    rewrite py_get_dict, Hc in Hrows. discriminate.
Qed.

Lemma settings_shaped_returns relays :
  settings_shaped relays = true ->
  exists t, normalize_function_settings relays = Ok t.
Proof.
  unfold settings_shaped. rewrite forallb_forall. intros Hw.
  apply for_rows_total. intros relay Hin. specialize (Hw relay Hin).
  destruct relay as [| | | | | |rd]; try discriminate.
  apply andb_prop in Hw as (Hpf & Hfs).
  rewrite !py_get_dict. cbn [rbind].
  destruct (truthy (dict_get rd "ProtectionFunctions")) eqn:Et; cbn [negb]; [|eauto].
  destruct (block_ok_truthy _ Hpf Et) as (pf & Hb).
  rewrite Hb in Hfs |- *. rewrite py_get_dict. cbn [rbind].
  apply for_rows_total. intros func Hfunc.
  rewrite forallb_forall in Hfs. specialize (Hfs func Hfunc).
  destruct func as [| | | | | |fd];
    try (unfold function_setting_rows; cbn [is_dict negb]; eauto; fail).
  cbn [settings_ok] in Hfs. apply andb_prop in Hfs as (Hset & Hn).
  assert (Hc : exists raws,
            _collect_raw_settings_for_function (PDict fd) = Ok raws
            /\ Forall (fun t => coercible (value t)) raws).
  { rewrite collect_dict.
    destruct (truthy (dict_get fd "Settings")) eqn:Es; cbn [negb]; [|eauto].
    destruct (block_ok_truthy _ Hset Es) as (items & Hi).
    rewrite Hi in Hn |- *. cbn [py_items rbind]. eexists; split; [reflexivity|].
    apply settings_items_coercible. exact Hn. }
  destruct Hc as (raws & Hc & Hco).
  pose proof (function_setting_rows_spec (dict_get rd "@id") fd raws Hc) as Hspec.
  destruct raws as [|t0 raws]; [eauto|].
  destruct (aggregate_total (fold_left by_param_add (t0 :: raws) [])) as (a & Ha).
  { eapply Permutation_Forall; [|exact Hco].
    apply Permutation_sym. apply (fold_by_param_perm (t0 :: raws) []). }
  rewrite Ha in Hspec. destruct Hspec as (r & Hr & _). eauto.
Qed.

(** The settings table, row by row. *)
Lemma settings_table_rows relays t :
  normalize_function_settings relays = Ok t ->
  Forall2 setting_row_for (functions_with_settings relays) t.
Proof.
  intros Ht. unfold functions_with_settings. rewrite filter_flat_map.
  apply (function_loop_forall2 setting_row_for _ function_setting_rows relays t);
    [| |exact Ht].
  - intros relay_id func rs Hd H. unfold function_setting_rows in H.
    rewrite Hd in H. injection H as <-. reflexivity.
  - intros (relay_id, fd) rs _ Hrows. cbn [fst snd] in *.
    apply function_setting_rows_for. exact Hrows.
Qed.

(** C8 (amended): on a relay list whose function and settings blocks are
    absent, empty or structured nodes (and whose settings hold no integer
    beyond the range of a float) the settings extraction returns; and
    whenever it returns, its table is, in document order, exactly one row
    per structured function whose settings block flattens to at least one
    raw setting, keyed SET-<relayId>-<functionId>, whether or not a
    parameter name is canonical. A function without a settings block is
    not among these functions and gets no row. *)
Theorem one_setting_row_per_function relays :
  (settings_shaped relays = true ->
   exists t, normalize_function_settings relays = Ok t)
  /\ (forall t,
        normalize_function_settings relays = Ok t ->
        Forall2 setting_row_for (functions_with_settings relays) t)
  /\ (forall rf,
        In rf (doc_functions relays) ->
        assoc_get (snd rf) "Settings" = None ->
        ~ In rf (functions_with_settings relays)).
Proof.
  split; [apply settings_shaped_returns|]. split.
  - apply settings_table_rows.
  - intros (relay_id, fd) _ Habs Hin. cbn [snd] in Habs.
    unfold functions_with_settings in Hin. apply filter_In in Hin as (_ & Hraw).
    cbn [snd] in Hraw. unfold has_raw_settings in Hraw.
    rewrite collect_dict in Hraw. unfold dict_get in Hraw. rewrite Habs in Hraw.
    discriminate Hraw.
Qed.

(** C8 (as stated) fails: function F1 has a settings block that flattens
    to one raw setting, and no row is emitted for it, because the text in
    the Settings element of its sibling F2 makes the whole extraction
    raise. *)
Lemma text_settings_of_a_sibling_drop_every_row :
  In (PStr "R1", [("@id", PStr "F1");
                  ("Settings", PDict [("TimeDial", PDict [("@value", PStr "0.5")])])])
     (doc_functions [sibling_with_text_settings])
  /\ _collect_raw_settings_for_function
       (PDict [("@id", PStr "F1");
               ("Settings", PDict [("TimeDial", PDict [("@value", PStr "0.5")])])])
     = Ok [mk_raw "TimeDial" "value" (PStr "0.5")]
  /\ normalize_function_settings [sibling_with_text_settings] = Raise AttributeError
  /\ settings_shaped [sibling_with_text_settings] = false.
Proof.
  split; [left; reflexivity|]. repeat split; reflexivity.
Qed.

(* ================================================================== *)
(** ** Saved files and the LOAD phase *)
(* ================================================================== *)

(** X4: The LOAD phase reads, in the same order, exactly the tables the
    NORMALIZE phase builds. A table with rows is saved under the file
    name LOAD reads for it, and a table without rows is not saved at all;
    the conflict key LOAD uses for a table is a column present in every
    row NORMALIZE emits for that table. *)
Theorem load_keys_are_columns_of_normalized_tables relays c tables c' :
  normalize_tables relays c = (Ok tables, c') ->
  map fst tables = map fst TABLE_LOAD_ORDER
  /\ (forall name t,
        In (name, t) tables ->
        match save_norm_csv t name with
        | Some file => t <> [] /\ In (name, file) TABLE_LOAD_ORDER
        | None => t = []
        end)
  /\ forall name t r pk,
       In (name, t) tables -> In r t -> In pk (pk_columns_of name) ->
       exists v, assoc_get r pk = Some v.
Proof.
  intros H. destruct (normalize_tables_inv _ _ _ _ H) as (Hnames & Hcols).
  split; [exact Hnames|].
  assert (Hname : forall name t, In (name, t) tables ->
                                 In name (map fst table_columns)).
  { intros name t Hin. rewrite <- Hnames.
    change name with (fst (name, t)). apply in_map, Hin. }
  split.
  - intros name t Hin. specialize (Hname name t Hin).
    destruct t as [|r t]; [reflexivity|]. cbn [save_norm_csv].
    split; [discriminate|]. simpl in Hname.
    repeat match goal with
      | H : _ \/ _ |- _ => destruct H as [H|H]
      | H : False |- _ => contradiction
      end; subst name; vm_compute; tauto.
  - intros name t r pk Hin Hr Hpk.
    eapply has_columns_get; [apply Hcols; exact Hin | exact Hr |].
    specialize (Hname name t Hin). simpl in Hname.
    repeat match goal with
      | H : _ \/ _ |- _ => destruct H as [H|H]
      | H : False |- _ => contradiction
      end; subst name; destruct Hpk as [<-|[]]; vm_compute; tauto.
Qed.

(* ================================================================== *)
(** ** Curve points and the first curve of their function *)
(* ================================================================== *)

Lemma curve_rows_anchored relay_id func_id idx items :
  truthy (dict_get (attrs_of items) "id") || (truthy relay_id && truthy func_id)
  = true ->
  counter_free (curve_rows relay_id func_id (idx, PDict items)).
Proof.
  intros H. unfold curve_rows. apply counter_free_bind.
  - apply make_curve_id_counter_free. exact H.
  - intros; unfold dict_pop; cf_auto.
Qed.

Lemma function_point_rows_anchored relay_id fd :
  curve_anchored relay_id fd = true ->
  counter_free (function_point_rows relay_id (PDict fd)).
Proof.
  intros Ha. unfold function_point_rows. cbn [is_dict negb].
  apply counter_free_bind; [apply counter_free_lift|]. intros func_id c Hget.
  apply lift_ok in Hget. rewrite py_get_dict in Hget. injection Hget as <-.
  apply counter_free_bind; [apply counter_free_lift|]. intros cands c1 Hc.
  apply lift_ok in Hc. unfold curve_anchored in Ha. rewrite Hc in Ha.
  destruct cands as [|[| | | | | |items] rest]; try discriminate Ha.
  cbv zeta. cbn [first_curve_xml_id].
  apply counter_free_bind; [|intros; cf_auto].
  apply make_curve_id_counter_free. exact Ha.
Qed.

(** C3 (amended): for a function whose first candidate curve is a
    structured node keyed by its [@id] or by position (relay and function
    both carry a non-empty [@id]), whatever the other functions of the
    document look like: the curve table holds the row emitted for that
    first curve, the curve-point table holds the point rows of the
    function, and every one of these point rows carries the curve_id of
    that curve row. *)
Theorem anchored_points_reference_the_first_curve_row
    relays c1 curves c1' c2 points c2' relay_id fd :
  normalize_function_curves relays c1 = (Ok curves, c1') ->
  normalize_curve_points relays c2 = (Ok points, c2') ->
  function_node_of relays relay_id fd ->
  curve_anchored relay_id fd = true ->
  exists first rest q prs,
    curve_candidates (PDict fd) = Ok (PDict first :: rest)
    /\ (forall c, curve_rows relay_id (dict_get fd "@id") (1%nat, PDict first) c
                  = (Ok [q], c))
    /\ In q curves
    /\ (forall c, function_point_rows relay_id (PDict fd) c = (Ok prs, c))
    /\ incl prs points
    /\ forall p, In p prs -> col "curve_id" p = col "curve_id" q.
Proof.
  intros Hcurves Hpoints Hnode Ha.
  pose proof Ha as Hfirst. unfold curve_anchored in Hfirst.
  destruct (curve_candidates (PDict fd)) as [cands|e] eqn:Hcands; [|discriminate].
  destruct cands as [|[| | | | | |first] rest]; try discriminate Hfirst.
  exists first, rest.
  (* the row of the first curve *)
  rewrite normalize_function_curves_loop in Hcurves.
  destruct (function_loop_m_each _ _ _ _ _ _ _ Hcurves Hnode)
    as (d0 & d0' & crs & Hcrows & Hincl).
  unfold function_curve_rows in Hcrows. cbn [is_dict negb] in Hcrows.
  m_inv. get_inv.
  match goal with
  | H : curve_candidates (PDict fd) = Ok ?l |- _ =>
      rewrite Hcands in H; injection H as <-
  end.
  cbn [enumerate_from] in Hcrows.
  destruct (for_rows_m_each _ _ _ _ _ (1%nat, PDict first) Hcrows (or_introl eq_refl))
    as (e0 & e0' & rs' & Hq & Hincl').
  destruct (curve_rows_anchored relay_id (dict_get fd "@id") 1 first Hfirst)
    as (qres & Hqres).
  pose proof Hq as Hq'. rewrite Hqres in Hq'. injection Hq' as -> _.
  destruct (curve_rows_spec _ _ _ _ _ _ _ Hq) as (q & cid & e1 & Hid & -> & Hqcol).
  rewrite (make_curve_id_positional _ _ _ _ _ Hfirst) in Hid. injection Hid as <- _.
  (* the point rows of the function *)
  rewrite normalize_curve_points_loop in Hpoints.
  destruct (function_loop_m_each _ _ _ _ _ _ _ Hpoints Hnode)
    as (p0 & p0' & prs & Hprows & Hpincl).
  destruct (function_point_rows_anchored relay_id fd Ha) as (pres & Hpres).
  pose proof Hprows as Hp'. rewrite Hpres in Hp'. injection Hp' as -> _.
  exists q, prs. split; [reflexivity|]. split; [exact Hqres|].
  split; [apply Hincl, Hincl'; left; reflexivity|].
  split; [exact Hpres|]. split; [exact Hpincl|].
  intros p Hp.
  destruct (function_point_rows_spec _ _ _ _ _ _ Hprows Hp)
    as (cands & cid & c3 & Hcands' & Hid & _ & Hcol).
  rewrite Hcands in Hcands'. injection Hcands' as <-.
  cbn [first_curve_xml_id] in Hid.
  rewrite (make_curve_id_positional _ _ _ _ _ Hfirst) in Hid. injection Hid as <- _.
  rewrite Hqcol, Hcol. reflexivity.
Qed.

(* ================================================================== *)
(** ** Texts that split in one way *)
(* ================================================================== *)






(* ================================================================== *)
(** ** Lists without repetition *)
(* ================================================================== *)







(* ================================================================== *)
(** ** Keys built from their sources *)
(* ================================================================== *)










(* ================================================================== *)
(** ** Identifiers of a well-keyed document *)
(* ================================================================== *)







(* ================================================================== *)
(** ** The key column of each table, from its sources *)
(* ================================================================== *)















(* ================================================================== *)
(** ** Distinct keys, table by table *)
(* ================================================================== *)































Lemma one_setting_row_per_function_witness :
  (exists t, normalize_function_settings [one_of_three_with_settings] = Ok t)
  /\ Forall2 setting_row_for
       (functions_with_settings [one_of_three_with_settings])
       [[("setting_id", PStr "SET-R1-F1"); ("function_id", PStr "F1");
         ("pickup_pu", PNone); ("pickup_a", PNone); ("time_dial", PNone);
         ("min_time_seconds", PNone); ("thermal_constant", PNone);
         ("full_load_current", PNone); ("trip_class", PNone);
         ("extra_json",
          PStr (json_dumps (PDict [("Blocking.enabled", PStr "true")])))]].
Proof.
  split.
  - apply (proj1 (one_setting_row_per_function [one_of_three_with_settings])).
    reflexivity.
  - apply (proj1 (proj2 (one_setting_row_per_function [one_of_three_with_settings]))).
    vm_compute. reflexivity.
Defined.

Lemma load_keys_are_columns_of_normalized_tables_witness :
  (match save_norm_csv (table_named "relays_curve_points" full_tables)
           "relays_curve_points" with
   | Some file => table_named "relays_curve_points" full_tables <> []
                  /\ In ("relays_curve_points", file) TABLE_LOAD_ORDER
   | None => table_named "relays_curve_points" full_tables = []
   end)
  /\ exists v,
       assoc_get (hd [] (table_named "relays_curve_points" full_tables)) "point_id"
       = Some v.
Proof.
  split.
  - apply (proj1 (proj2 (load_keys_are_columns_of_normalized_tables
                           [full_relay] _ID_COUNTERS full_tables _ID_COUNTERS
                           full_tables_run))
             "relays_curve_points" (table_named "relays_curve_points" full_tables)).
    do 6 right; left; reflexivity.
  - apply (proj2 (proj2 (load_keys_are_columns_of_normalized_tables
                           [full_relay] _ID_COUNTERS full_tables _ID_COUNTERS
                           full_tables_run))
             "relays_curve_points" (table_named "relays_curve_points" full_tables)).
    + do 6 right; left; reflexivity.
    + left; reflexivity.
    + left; reflexivity.
Defined.

Lemma anchored_points_reference_the_first_curve_row_witness :
  exists first rest q prs,
    curve_candidates
      (PDict [("@id", PStr "F1");
              ("Curve", PDict [("@id", PStr "C1")]);
              ("CurvePoints",
               PDict [("Point", PList [PDict [("@multiple", PStr "2")];
                                       PDict [("@multiple", PStr "5")]])])])
    = Ok (PDict first :: rest)
    /\ (forall c, curve_rows (PStr "R1") (PStr "F1") (1%nat, PDict first) c
                  = (Ok [q], c))
    /\ In q (fst mixed_points_tables)
    /\ (forall c,
          function_point_rows (PStr "R1")
            (PDict [("@id", PStr "F1");
                    ("Curve", PDict [("@id", PStr "C1")]);
                    ("CurvePoints",
                     PDict [("Point", PList [PDict [("@multiple", PStr "2")];
                                             PDict [("@multiple", PStr "5")]])])])
            c
          = (Ok prs, c))
    /\ incl prs (snd mixed_points_tables)
    /\ forall p, In p prs -> col "curve_id" p = col "curve_id" q.
Proof.
  apply (anchored_points_reference_the_first_curve_row [mixed_points_relay]
           _ID_COUNTERS (fst mixed_points_tables) _ID_COUNTERS
           _ID_COUNTERS (snd mixed_points_tables) _ID_COUNTERS
           (PStr "R1")
           [("@id", PStr "F1");
            ("Curve", PDict [("@id", PStr "C1")]);
            ("CurvePoints",
             PDict [("Point", PList [PDict [("@multiple", PStr "2")];
                                     PDict [("@multiple", PStr "5")]])])]).
  - vm_compute. reflexivity.
  - vm_compute. reflexivity.
  - eexists _, _. split; [left; reflexivity|]. split; [reflexivity|].
    split; [reflexivity|]. left; reflexivity.
  - reflexivity.
Defined.

